(** * Skiing Survival: a shallow embedding of the game core

    The development follows the JavaScript sources of the game:
    - [utils.js]     : [lerp], [clamp], the [ImprovedNoise] class and
                       [generateNoise];
    - [player.js]    : the [Player] class and the seeding of the simplex
                       noise;
    - [terrain.js]   : the [Terrain] class (the chunk streamer);
    - [obstacles.js] : the [ObstacleManager] class;
    - [game.js]      : the frame of [Game], its collision loop and the order
                       in which it drives the player.

    JavaScript numbers are IEEE 754 binary64 values.  The classes are embedded
    once, over an interface [JsNumber] of the arithmetic that the sources use,
    and the interface has two instances:
    - [binary64], the kernel's primitive floats: the arithmetic that the
      program really runs, used wherever a statement is settled by evaluation
      or by the order of the binary64 numbers;
    - [exact], the rationals: the same formulas without rounding, NaN or
      infinities, used where a proof needs the laws of an ordered field.

    Methods that mutate [this] are state transformers; calls into the physics
    engine, the scene graph and the DOM are appended to a log of effects;
    [Math.random()] and the results of engine queries are oracle arguments;
    a JavaScript exception is a [Throw] completion, or an error returned
    next to the state that the call has left.  Two facts of the physics
    engine that the game depends on are part of the embedding:
    [Body.applyImpulse] changes the velocity of the body at once, and the
    engine has no [Cone] shape, so that [new CANNON.Cone] throws. *)

From Stdlib Require Import ZArith QArith Qround Qminmax Qabs Floats Lia Lqa Bool.
From stdpp Require Import base list strings.

Set Warnings "-inexact-float".

(** ** Completions *)

Inductive JsError : Type :=
| InvalidArgument
| TypeError.

Inductive Completion (A : Type) : Type :=
| Normal (a : A)
| Throw (e : JsError).

Arguments Normal {A} a.
Arguments Throw {A} e.

(** ** The number interface *)

Class JsNumber (num : Type) : Type := {
  lit : Q -> num;               (* a numeric literal of the source *)
  add : num -> num -> num;
  sub : num -> num -> num;
  mul : num -> num -> num;
  div : num -> num -> num;
  neg : num -> num;
  jsabs : num -> num;           (* Math.abs *)
  jsfloor : num -> num;         (* Math.floor *)
  jsmin : num -> num -> num;    (* Math.min *)
  ltb : num -> num -> bool;     (* a < b *)
  leb : num -> num -> bool;     (* a <= b *)
  eqb : num -> num -> bool      (* a === b *)
}.

Declare Scope js_scope.
Delimit Scope js_scope with js.
Notation "a + b" := (add a b) : js_scope.
Notation "a - b" := (sub a b) : js_scope.
Notation "a * b" := (mul a b) : js_scope.
Notation "a / b" := (div a b) : js_scope.
Notation "- a" := (neg a) : js_scope.
Notation "a <? b" := (ltb a b) : js_scope.
Notation "a <=? b" := (leb a b) : js_scope.
Notation "a >? b" := (ltb b a) : js_scope.
Notation "a >=? b" := (leb b a) : js_scope.
Notation "a =? b" := (eqb a b) : js_scope.

(** An integer of the program (an array length, a chunk index) as a number. *)
Definition ofZ {num} `{JsNumber num} (z : Z) : num := lit (inject_Z z).

(** *** Rationals: arithmetic without rounding *)

#[export] Instance exact : JsNumber Q := {|
  lit := fun q => q;
  add := Qplus;
  sub := Qminus;
  mul := Qmult;
  div := Qdiv;
  neg := Qopp;
  jsabs := Qabs;
  jsfloor := fun q => inject_Z (Qfloor q);
  jsmin := Qmin;
  ltb := fun a b => negb (Qle_bool b a);
  leb := Qle_bool;
  eqb := Qeq_bool
|}.

(** *** binary64: the numbers of the running program *)

Module Binary64.

(** The integer [z] rounded to the nearest binary64 value (exact below 2^53). *)
Definition of_Z (z : Z) : float := SF2Prim (binary_normalize prec emax z 0 false).

(** A decimal literal [n/d]: the correctly rounded quotient of two integers
    that are themselves exact is the binary64 value nearest to [n/d]. *)
Definition of_Q (q : Q) : float := (of_Z (Qnum q) / of_Z (Zpos (Qden q)))%float.

(** The integer part [floor x] of a finite number. *)
Definition floorZ (x : float) : option Z :=
  match Prim2SF x with
  | S754_zero _ => Some 0%Z
  | S754_finite s m e => Some (Z.shiftl (cond_Zopp s (Zpos m)) e)
  | S754_infinity _ | S754_nan => None
  end.

(** [Math.floor]: NaN, the infinities, both zeros and the numbers that are
    already integers are returned unchanged. *)
Definition floor (x : float) : float :=
  match Prim2SF x with
  | S754_finite s m e =>
      if (e <? 0)%Z then
        let n := Z.shiftl (cond_Zopp s (Zpos m)) e in
        if (n =? 0)%Z then zero else of_Z n
      else x
  | _ => x
  end.

(** [Math.min]: NaN if an argument is NaN, and [-0] is below [+0]. *)
Definition min (a b : float) : float :=
  if is_nan a || is_nan b then nan
  else if (a <? b)%float then a
  else if (b <? a)%float then b
  else if is_zero a && get_sign a then a else b.

(** [Math.floor(x) & 255]: ToInt32 maps NaN and the infinities to 0 and
    keeps the low bits of a finite integer. *)
Definition floor_and_255 (x : float) : Z :=
  match floorZ x with
  | Some n => Z.land n 255
  | None => 0%Z
  end.

End Binary64.

#[export] Instance binary64 : JsNumber float := {|
  lit := Binary64.of_Q;
  add := PrimFloat.add;
  sub := PrimFloat.sub;
  mul := PrimFloat.mul;
  div := PrimFloat.div;
  neg := PrimFloat.opp;
  jsabs := PrimFloat.abs;
  jsfloor := Binary64.floor;
  jsmin := Binary64.min;
  ltb := PrimFloat.ltb;
  leb := PrimFloat.leb;
  eqb := PrimFloat.eqb
|}.

(** ** utils.js *)

Section Utils.
Context {num : Type} `{JsNumber num}.
Local Open Scope js_scope.

(** [function lerp(start, end, amt)] *)
Definition lerp (start end_ amt : num) : num :=
  (lit 1 - amt) * start + amt * end_.

End Utils.

(** *** [class ImprovedNoise] and [generateNoise], over binary64 *)

Module ImprovedNoise.
Local Open Scope float_scope.

Definition permutation : list Z :=
  [ 151; 160; 137; 91; 90; 15; 131; 13; 201; 95; 96; 53; 194; 233; 7; 225;
    140; 36; 103; 30; 69; 142; 8; 99; 37; 240; 21; 10; 23; 190; 6; 148;
    247; 120; 234; 75; 0; 26; 197; 62; 94; 252; 219; 203; 117; 35; 11; 32;
    57; 177; 33; 88; 237; 149; 56; 87; 174; 20; 125; 136; 171; 168; 68; 175;
    74; 165; 71; 134; 139; 48; 27; 166; 77; 146; 158; 231; 83; 111; 229; 122;
    60; 211; 133; 230; 220; 105; 92; 41; 55; 46; 245; 40; 244; 102; 143; 54;
    65; 25; 63; 161; 1; 216; 80; 73; 209; 76; 132; 187; 208; 89; 18; 169;
    200; 196; 135; 130; 116; 188; 159; 86; 164; 100; 109; 198; 173; 186; 3; 64;
    52; 217; 226; 250; 124; 123; 5; 202; 38; 147; 118; 126; 255; 82; 85; 212;
    207; 206; 59; 227; 47; 16; 58; 17; 182; 189; 28; 42; 223; 183; 170; 213;
    119; 248; 152; 2; 44; 154; 163; 70; 221; 153; 101; 155; 167; 43; 172; 9;
    129; 22; 39; 253; 19; 98; 108; 110; 79; 113; 224; 232; 178; 185; 112; 104;
    218; 246; 97; 228; 251; 34; 242; 193; 238; 210; 144; 12; 191; 179; 162; 241;
    81; 51; 145; 235; 249; 14; 239; 107; 49; 192; 214; 31; 181; 199; 106; 157;
    184; 84; 204; 176; 115; 121; 50; 45; 127; 4; 150; 254; 138; 236; 205; 93;
    222; 114; 67; 29; 24; 72; 243; 141; 128; 195; 78; 66; 215; 61; 156; 180 ]%Z.

(** The constructor fills [p[i] = p[i + 256] = permutation[i]]. *)
Definition p : list Z := permutation ++ permutation.

(** [this.p[i]]; every index that [noise] forms is below 512. *)
Definition p_at (i : Z) : Z := nth (Z.to_nat i) p 0%Z.

Definition fade (t : float) : float :=
  t * t * t * (t * (t * 6 - 15) + 10).

Definition lerp (a b t : float) : float := a + t * (b - a).

Definition grad (hash : Z) (x y z : float) : float :=
  let h := Z.land hash 15 in
  let u := if (h <? 8)%Z then x else y in
  let v := if (h <? 4)%Z then y
           else if (h =? 12)%Z || (h =? 14)%Z then x else z in
  (if (Z.land h 1 =? 0)%Z then u else - u)
  + (if (Z.land h 2 =? 0)%Z then v else - v).

Definition noise (x y z : float) : float :=
  let X := Binary64.floor_and_255 x in
  let Y := Binary64.floor_and_255 y in
  let Z_ := Binary64.floor_and_255 z in
  let x := x - Binary64.floor x in
  let y := y - Binary64.floor y in
  let z := z - Binary64.floor z in
  let u := fade x in
  let v := fade y in
  let w := fade z in
  let A := (p_at X + Y)%Z in
  let AA := (p_at A + Z_)%Z in
  let AB := (p_at (A + 1) + Z_)%Z in
  let B := (p_at (X + 1) + Y)%Z in
  let BA := (p_at B + Z_)%Z in
  let BB := (p_at (B + 1) + Z_)%Z in
  lerp
    (lerp
       (lerp (grad (p_at AA) x y z) (grad (p_at BA) (x - 1) y z) u)
       (lerp (grad (p_at AB) x (y - 1) z) (grad (p_at BB) (x - 1) (y - 1) z) u)
       v)
    (lerp
       (lerp (grad (p_at (AA + 1)) x y (z - 1))
             (grad (p_at (BA + 1)) (x - 1) y (z - 1)) u)
       (lerp (grad (p_at (AB + 1)) x (y - 1) (z - 1))
             (grad (p_at (BB + 1)) (x - 1) (y - 1) (z - 1)) u)
       v)
    w.

(** [this.p[i]] as the typed array answers it: [None] stands for
    [undefined], the value of a read outside the 512 entries. *)
Definition p_read (i : Z) : option Z :=
  if (i <? 0)%Z then None else p !! Z.to_nat i.

(** [noise] with every read of [this.p] made through [p_read], in the order
    in which the method evaluates them. *)
Definition noise_reads (x y z : float) : option float :=
  let X := Binary64.floor_and_255 x in
  let Y := Binary64.floor_and_255 y in
  let Z_ := Binary64.floor_and_255 z in
  let x := x - Binary64.floor x in
  let y := y - Binary64.floor y in
  let z := z - Binary64.floor z in
  let u := fade x in
  let v := fade y in
  let w := fade z in
  pX ← p_read X;
  let A := (pX + Y)%Z in
  pA ← p_read A;
  let AA := (pA + Z_)%Z in
  pA1 ← p_read (A + 1);
  let AB := (pA1 + Z_)%Z in
  pX1 ← p_read (X + 1);
  let B := (pX1 + Y)%Z in
  pB ← p_read B;
  let BA := (pB + Z_)%Z in
  pB1 ← p_read (B + 1);
  let BB := (pB1 + Z_)%Z in
  pAA ← p_read AA;
  pBA ← p_read BA;
  pAB ← p_read AB;
  pBB ← p_read BB;
  pAA1 ← p_read (AA + 1);
  pBA1 ← p_read (BA + 1);
  pAB1 ← p_read (AB + 1);
  pBB1 ← p_read (BB + 1);
  Some
    (lerp
       (lerp
          (lerp (grad pAA x y z) (grad pBA (x - 1) y z) u)
          (lerp (grad pAB x (y - 1) z) (grad pBB (x - 1) (y - 1) z) u)
          v)
       (lerp
          (lerp (grad pAA1 x y (z - 1)) (grad pBA1 (x - 1) y (z - 1)) u)
          (lerp (grad pAB1 x (y - 1) (z - 1))
                (grad pBB1 (x - 1) (y - 1) (z - 1)) u)
          v)
       w).

End ImprovedNoise.

(** The local variables of the loop of [generateNoise]. *)
Record NoiseAcc : Type := {
  total : float;
  frequency : float;
  amplitude : float;
  maxValue : float
}.

Section GenerateNoise.
Local Open Scope float_scope.

(** One pass through the body of [for (let i = 0; i < octaves; i++)]. *)
Definition octave (x y persistence lacunarity scale : float) (a : NoiseAcc)
  : NoiseAcc :=
  let total' :=
    total a
    + ImprovedNoise.noise (x * frequency a / scale) (y * frequency a / scale) 0
      * amplitude a in
  let maxValue' := maxValue a + amplitude a in
  {| total := total';
     frequency := frequency a * lacunarity;
     amplitude := amplitude a * persistence;
     maxValue := maxValue' |}.

Fixpoint octaves_loop (x y persistence lacunarity scale : float)
    (n : nat) (a : NoiseAcc) : NoiseAcc :=
  match n with
  | O => a
  | S k =>
      octaves_loop x y persistence lacunarity scale k
        (octave x y persistence lacunarity scale a)
  end.

(** [function generateNoise(x, y, octaves, persistence, lacunarity, scale)],
    for an integer [octaves]: the loop runs [octaves] times, and not at all
    when [octaves <= 0].  The body has no [throw] and every operation in it
    is total on numbers, so the completion is always [Normal]. *)
Definition generateNoise (x y : float) (octaves : Z)
    (persistence lacunarity scale : float) : Completion float :=
  let a := octaves_loop x y persistence lacunarity scale (Z.to_nat octaves)
             {| total := 0; frequency := 1; amplitude := 1; maxValue := 0 |} in
  Normal (total a / maxValue a).

(** The call with the default parameters
    [octaves = 6, persistence = 0.5, lacunarity = 2.0, scale = 100.0]. *)
Definition generateNoise_default (x y : float) : Completion float :=
  generateNoise x y 6 0.5 2 100.

End GenerateNoise.

(** ** Shared data: vectors, rigid bodies, obstacles *)

Record Vec3 (num : Type) : Type := mkVec3 { vx : num; vy : num; vz : num }.
Arguments mkVec3 {num} vx vy vz.
Arguments vx {num} v.
Arguments vy {num} v.
Arguments vz {num} v.

(** The fields of a [CANNON.Body] that the game reads and writes. *)
Record Body (num : Type) : Type := mkBody {
  position : Vec3 num;
  velocity : Vec3 num;
  angularVelocity : Vec3 num;
  quaternion : num * num * num * num
}.
Arguments mkBody {num} position velocity angularVelocity quaternion.
Arguments position {num} b.
Arguments velocity {num} b.
Arguments angularVelocity {num} b.
Arguments quaternion {num} b.

(** The closed set of [type] strings of [obstacleTypesData], in array order. *)
Inductive ObstacleKind : Type := tree | rock | iceSpike | logPile.

(** An obstacle object: a [THREE.Group] with the properties that
    [createObstacle] writes on it.  [obstacleBody] is the position of its
    static body, [None] when the property is [null]. *)
Record Obstacle (num : Type) : Type := mkObstacle {
  obstacleType : ObstacleKind;
  obstaclePosition : Vec3 num;
  collisionRadius : num;
  damageMultiplier : num;
  isAvoidedCounted : bool;
  obstacleBody : option (Vec3 num)
}.
Arguments mkObstacle {num} _ _ _ _ _ _.
Arguments obstacleType {num} o.
Arguments obstaclePosition {num} o.
Arguments collisionRadius {num} o.
Arguments damageMultiplier {num} o.
Arguments isAvoidedCounted {num} o.
Arguments obstacleBody {num} o.

(** ** player.js: [class Player] *)

Module Player.

(** Calls that leave the class: impulses and forces handed to the physics
    engine for the player's body, and DOM events. *)
Inductive Effect (num : Type) : Type :=
| ApplyImpulse (impulse : Vec3 num)
| ApplyForce (force : Vec3 num)
| DispatchEvent (name : string).
Arguments ApplyImpulse {num} impulse.
Arguments ApplyForce {num} force.
Arguments DispatchEvent {num} name.

(** The mutable fields of [this].  Of the mesh only [rotation.z], written by
    [applyControls], is kept; the rest of the rendering state (mesh position,
    [rotation.x], the limbs) is not part of the embedding. *)
Record state (num : Type) : Type := mkState {
  speed : num;
  health : num;
  isDead : bool;
  moveLeft : bool;
  moveRight : bool;
  isJumping : bool;
  isGrounded : bool;
  body : Body num;
  meshRotationZ : num;
  effects : list (Effect num)
}.
Arguments mkState {num} _ _ _ _ _ _ _ _ _ _.
Arguments speed {num} s.
Arguments health {num} s.
Arguments isDead {num} s.
Arguments moveLeft {num} s.
Arguments moveRight {num} s.
Arguments isJumping {num} s.
Arguments isGrounded {num} s.
Arguments body {num} s.
Arguments meshRotationZ {num} s.
Arguments effects {num} s.

(** The six [Math.random()] values that [applyRagdollEffect] draws. *)
Record RagdollDraws (num : Type) : Type := mkRagdollDraws {
  forceX : num; forceY : num; forceZ : num;
  spinX : num; spinY : num; spinZ : num
}.
Arguments mkRagdollDraws {num} _ _ _ _ _ _.
Arguments forceX {num} r.
Arguments forceY {num} r.
Arguments forceZ {num} r.
Arguments spinX {num} r.
Arguments spinY {num} r.
Arguments spinZ {num} r.

(** The result of [physics.world.raycastClosest]. *)
Record RaycastResult (num : Type) : Type := mkRaycastResult {
  hasHit : bool;
  distance : num
}.
Arguments mkRaycastResult {num} _ _.
Arguments hasHit {num} r.
Arguments distance {num} r.

Inductive KeyCode : Type := KeyA | KeyD | Space | OtherKey.

Section Methods.
Context {num : Type} `{JsNumber num}.
Local Open Scope js_scope.

(** [THREE.Vector3.distanceTo], a function of the rendering library. *)
Variable distanceTo : Vec3 num -> Vec3 num -> num.

(** Player stats: assigned once by the constructor, never written again. *)
Definition maxSpeed : num := lit 300.
Definition initialSpeed : num := lit 50.
Definition acceleration : num := lit 0.2.
Definition lateralSpeed : num := lit 80.
Definition jumpForce : num := lit 15.
Definition mass : num := lit 70.

(** Field writes. *)
Definition set_speed (v : num) (p : state num) : state num :=
  mkState v (health p) (isDead p) (moveLeft p) (moveRight p) (isJumping p)
          (isGrounded p) (body p) (meshRotationZ p) (effects p).
Definition set_health (v : num) (p : state num) : state num :=
  mkState (speed p) v (isDead p) (moveLeft p) (moveRight p) (isJumping p)
          (isGrounded p) (body p) (meshRotationZ p) (effects p).
Definition set_isDead (v : bool) (p : state num) : state num :=
  mkState (speed p) (health p) v (moveLeft p) (moveRight p) (isJumping p)
          (isGrounded p) (body p) (meshRotationZ p) (effects p).
Definition set_moveLeft (v : bool) (p : state num) : state num :=
  mkState (speed p) (health p) (isDead p) v (moveRight p) (isJumping p)
          (isGrounded p) (body p) (meshRotationZ p) (effects p).
Definition set_moveRight (v : bool) (p : state num) : state num :=
  mkState (speed p) (health p) (isDead p) (moveLeft p) v (isJumping p)
          (isGrounded p) (body p) (meshRotationZ p) (effects p).
Definition set_isJumping (v : bool) (p : state num) : state num :=
  mkState (speed p) (health p) (isDead p) (moveLeft p) (moveRight p) v
          (isGrounded p) (body p) (meshRotationZ p) (effects p).
Definition set_isGrounded (v : bool) (p : state num) : state num :=
  mkState (speed p) (health p) (isDead p) (moveLeft p) (moveRight p)
          (isJumping p) v (body p) (meshRotationZ p) (effects p).
Definition set_body (v : Body num) (p : state num) : state num :=
  mkState (speed p) (health p) (isDead p) (moveLeft p) (moveRight p)
          (isJumping p) (isGrounded p) v (meshRotationZ p) (effects p).
Definition set_meshRotationZ (v : num) (p : state num) : state num :=
  mkState (speed p) (health p) (isDead p) (moveLeft p) (moveRight p)
          (isJumping p) (isGrounded p) (body p) v (effects p).
(** An outgoing call, appended to the log. *)
Definition emit (e : Effect num) (p : state num) : state num :=
  mkState (speed p) (health p) (isDead p) (moveLeft p) (moveRight p)
          (isJumping p) (isGrounded p) (body p) (meshRotationZ p)
          (effects p ++ [e]).

Definition set_velocity (v : Vec3 num) (b : Body num) : Body num :=
  mkBody (position b) v (angularVelocity b) (quaternion b).
Definition set_angularVelocity (v : Vec3 num) (b : Body num) : Body num :=
  mkBody (position b) (velocity b) v (quaternion b).

(** [constructor]: the stats, the control state, and the body made by
    [createPlayerBody] (at (0, 5, 0), moving at [-initialSpeed]).
    [isGrounded] is not assigned before the first [updatePhysics]
    ([undefined], which is falsy). *)
Definition constructor : state num :=
  {| speed := lit 0;
     health := lit 100;
     isDead := false;
     moveLeft := false;
     moveRight := false;
     isJumping := false;
     isGrounded := false;
     body := {| position := mkVec3 (lit 0) (lit 5) (lit 0);
                velocity := mkVec3 (lit 0) (lit 0) (- initialSpeed);
                angularVelocity := mkVec3 (lit 0) (lit 0) (lit 0);
                quaternion := (lit 0, lit 0, lit 0, lit 1) |};
     meshRotationZ := lit 0;
     effects := [] |}.

(** [this.body.applyImpulse(impulse, new CANNON.Vec3(0, 0, 0))]: the call
    is logged, and the engine adds [impulse / mass] to the velocity of the
    body at once, before the next physics step.  [createPlayerBody] gives
    the body the mass [this.mass].  The turn that the engine gives the body
    is not part of the embedding: [angularVelocity] is only what the game
    itself writes. *)
Definition applyImpulse (impulse : Vec3 num) (p : state num) : state num :=
  let v := velocity (body p) in
  let p := emit (ApplyImpulse impulse) p in
  set_body
    (set_velocity
       (mkVec3 (vx v + vx impulse / mass) (vy v + vy impulse / mass)
               (vz v + vz impulse / mass))
       (body p)) p.

(** [applyControls(deltaTime)] *)
Definition applyControls (deltaTime : num) (p : state num) : state num :=
  let lateralForce :=
    if moveLeft p then - lateralSpeed * deltaTime
    else if moveRight p then lateralSpeed * deltaTime
    else lit 0 in
  let p :=
    if negb (lateralForce =? lit 0)
    then applyImpulse (mkVec3 lateralForce (lit 0) (lit 0)) p
    else p in
  let targetRotationZ :=
    if moveLeft p then lit 0.2
    else if moveRight p then - lit 0.2 else lit 0 in
  set_meshRotationZ
    (lerp (meshRotationZ p) targetRotationZ (lit 5 * deltaTime)) p.

(** [updatePhysics()]; [ray] is what [raycastClosest] answers for the ray
    from the body one unit down. *)
Definition updatePhysics (ray : RaycastResult num) (p : state num)
  : state num :=
  let v := velocity (body p) in
  let p := set_body (set_velocity (mkVec3 (vx v) (vy v) (- speed p)) (body p)) p in
  let p := emit (ApplyForce (mkVec3 (lit 0) (- lit 9.82 * mass) (lit 0))) p in
  let p := set_isGrounded (hasHit ray && (distance ray <? lit 0.6)) p in
  if isGrounded p && isJumping p then set_isJumping false p else p.

(** [jump()] *)
Definition jump (p : state num) : state num :=
  if negb (isJumping p) && isGrounded p
  then set_isJumping true
         (applyImpulse (mkVec3 (lit 0) jumpForce (lit 0)) p)
  else p.

(** [applyRagdollEffect()] *)
Definition applyRagdollEffect (r : RagdollDraws num) (p : state num)
  : state num :=
  let randomForceX := (forceX r - lit 0.5) * lit 20 in
  let randomForceY := forceY r * lit 10 in
  let randomForceZ := forceZ r * lit 10 in
  let p := applyImpulse (mkVec3 randomForceX randomForceY randomForceZ) p in
  set_body
    (set_angularVelocity
       (mkVec3 ((spinX r - lit 0.5) * lit 5)
               ((spinY r - lit 0.5) * lit 5)
               ((spinZ r - lit 0.5) * lit 5))
       (body p)) p.

(** [die()] *)
Definition die (r : RagdollDraws num) (p : state num) : state num :=
  if negb (isDead p) then
    let p := set_isDead true p in
    let p := set_body (set_velocity (mkVec3 (lit 0) (lit 0) (lit 0)) (body p)) p in
    let p := applyRagdollEffect r p in
    emit (DispatchEvent "player-died") p
  else p.

(** [takeDamage(amount)] *)
Definition takeDamage (r : RagdollDraws num) (amount : num) (p : state num)
  : state num :=
  let p := set_health (health p - amount) p in
  if health p <=? lit 0 then die r p else p.

(** [checkTerrainCollision()] *)
Definition checkTerrainCollision (r : RagdollDraws num) (p : state num)
  : state num :=
  if (jsabs (vx (position (body p))) >? lit 500)
     || (vy (position (body p)) <? - lit 100)
  then die r p else p.

(** [checkObstacleCollision(obstacle)]: the returned boolean and the new
    state; reading [obstacle.body.position] of an obstacle whose body is
    [null] throws a TypeError. *)
Definition checkObstacleCollision (r : RagdollDraws num)
    (obstacle : Obstacle num) (p : state num)
  : Completion (bool * state num) :=
  let playerPos := position (body p) in
  match obstacleBody obstacle with
  | None => Throw TypeError
  | Some obstaclePos =>
      let collisionDistance := collisionRadius obstacle + lit 0.5 in
      if distanceTo playerPos obstaclePos <? collisionDistance then
        let damage := speed p * damageMultiplier obstacle * lit 0.1 in
        Normal (true, takeDamage r damage p)
      else Normal (false, p)
  end.

(** [update(deltaTime)].  [updateMeshFromBody], [animateLimbs] and
    [updateParticles] only touch the rendering state. *)
Definition update (deltaTime : num) (ray : RaycastResult num)
    (r : RagdollDraws num) (p : state num) : state num :=
  if isDead p then p else
  let p := set_speed (jsmin maxSpeed (speed p + acceleration)) p in
  let p := applyControls deltaTime p in
  let p := updatePhysics ray p in
  checkTerrainCollision r p.

(** [reset()] *)
Definition reset (p : state num) : state num :=
  {| speed := initialSpeed;
     health := lit 100;
     isDead := false;
     moveLeft := false;
     moveRight := false;
     isJumping := false;
     isGrounded := isGrounded p;
     body := {| position := mkVec3 (lit 0) (lit 5) (lit 0);
                velocity := mkVec3 (lit 0) (lit 0) (- initialSpeed);
                angularVelocity := mkVec3 (lit 0) (lit 0) (lit 0);
                quaternion := (lit 0, lit 0, lit 0, lit 1) |};
     meshRotationZ := lit 0;
     effects := effects p |}.

(** The [keydown] and [keyup] listeners of [setupControls]. *)
Definition keydown (code : KeyCode) (p : state num) : state num :=
  match code with
  | KeyA => set_moveLeft true p
  | KeyD => set_moveRight true p
  | Space => if negb (isJumping p) then jump p else p
  | OtherKey => p
  end.

Definition keyup (code : KeyCode) (p : state num) : state num :=
  match code with
  | KeyA => set_moveLeft false p
  | KeyD => set_moveRight false p
  | Space | OtherKey => p
  end.

(** Successive calls of [update], each with its elapsed time, raycast answer
    and draws. *)
Definition updates
    (calls : list (num * RaycastResult num * RagdollDraws num))
    (p : state num) : state num :=
  fold_left (fun q c => update (fst (fst c)) (snd (fst c)) (snd c) q) calls p.

(** One frame as the player sees it: the physics engine has stepped and
    left the body in [stepped], then [update] runs. *)
Record Frame : Type := mkFrame {
  stepped : Body num;
  deltaTime : num;
  ray : RaycastResult num;
  draws : RagdollDraws num
}.

Definition frame (f : Frame) (p : state num) : state num :=
  update (deltaTime f) (ray f) (draws f) (set_body (stepped f) p).

Definition frames (fs : list Frame) (p : state num) : state num :=
  fold_left (fun q f => frame f q) fs p.

End Methods.

Arguments Frame num : clear implicits.

End Player.

(** ** obstacles.js: [class ObstacleManager] *)

Module ObstacleManager.

(** Obstacle objects are shared between [activeObstacles] and
    [obstaclePool] by reference: they live in a store, and the two arrays
    hold references (indices into the store). *)
Abbreviation ObjRef := nat (only parsing).

(** Calls that leave the class.  [ScoreText o n] is the write of [n] to the
    score element, recorded with the obstacle [o] whose counting caused it;
    [ScoreZero] is the write of ["0"] by [reset]. *)
Inductive Effect : Type :=
| SceneAdd (o : ObjRef)
| SceneRemove (o : ObjRef)
| AddBody (o : ObjRef)
| RemoveBody (o : ObjRef)
| ScoreText (o : ObjRef) (n : Z)
| ScoreZero.

(** An entry of [obstacleTypesData] (geometry, material and [createFunc]
    build the mesh and are left out). *)
Record TypeData (num : Type) : Type := mkTypeData {
  type : ObstacleKind;
  typeCollisionRadius : num;
  typeDamageMultiplier : num
}.
Arguments mkTypeData {num} _ _ _.
Arguments type {num} t.
Arguments typeCollisionRadius {num} t.
Arguments typeDamageMultiplier {num} t.

Record state (num : Type) : Type := mkState {
  objects : list (Obstacle num);
  activeObstacles : list ObjRef;
  obstaclePool : list ObjRef;
  obstacleSpawnFrequency : num;
  maxObstaclesOnScreen : num;
  obstaclesAvoided : Z;
  nextObstacleZ : num;
  obstacleSpread : num;
  difficultyLevel : num;
  effects : list Effect
}.
Arguments mkState {num} _ _ _ _ _ _ _ _ _ _.
Arguments objects {num} s.
Arguments activeObstacles {num} s.
Arguments obstaclePool {num} s.
Arguments obstacleSpawnFrequency {num} s.
Arguments maxObstaclesOnScreen {num} s.
Arguments obstaclesAvoided {num} s.
Arguments nextObstacleZ {num} s.
Arguments obstacleSpread {num} s.
Arguments difficultyLevel {num} s.
Arguments effects {num} s.

(** What [generateObstacle] draws from [Math.random()], in program order.
    [typeDraw] is the value of
    [Math.floor(Math.random() * this.obstacleTypesData.length)], one of the
    four indices, given as the kind at that index. *)
Record Draws (num : Type) : Type := mkDraws {
  spawnDraw : num;
  xDraw : num;
  typeDraw : ObstacleKind;
  escalateDraw : num;
  gapDraw : num
}.
Arguments mkDraws {num} _ _ _ _ _.
Arguments spawnDraw {num} d.
Arguments xDraw {num} d.
Arguments typeDraw {num} d.
Arguments escalateDraw {num} d.
Arguments gapDraw {num} d.

Definition kind_eqb (a b : ObstacleKind) : bool :=
  match a, b with
  | tree, tree | rock, rock | iceSpike, iceSpike | logPile, logPile => true
  | _, _ => false
  end.

Definition kind_index (k : ObstacleKind) : nat :=
  match k with tree => 0 | rock => 1 | iceSpike => 2 | logPile => 3 end.

Section Methods.
Context {num : Type} `{JsNumber num}.
Local Open Scope js_scope.

Definition minDistanceBetweenObstacles : num := lit 20.

(** [initObstacleTypes()] *)
Definition obstacleTypesData : list (TypeData num) :=
  [ mkTypeData tree (lit 1.2) (lit 1.0);
    mkTypeData rock (lit 1.8) (lit 1.2);
    mkTypeData iceSpike (lit 1.0) (lit 1.5);
    mkTypeData logPile (lit 2.0) (lit 0.8) ].

(** [this.obstacleTypesData[typeIndex]]; [typeIndex] is at most 3. *)
Definition typeData_at (typeIndex : nat) : TypeData num :=
  nth typeIndex obstacleTypesData (mkTypeData tree (lit 1.2) (lit 1.0)).

(** Field writes. *)
Definition set_objects (v : list (Obstacle num)) (m : state num) : state num :=
  mkState v (activeObstacles m) (obstaclePool m) (obstacleSpawnFrequency m)
          (maxObstaclesOnScreen m) (obstaclesAvoided m) (nextObstacleZ m)
          (obstacleSpread m) (difficultyLevel m) (effects m).
Definition set_activeObstacles (v : list ObjRef) (m : state num) : state num :=
  mkState (objects m) v (obstaclePool m) (obstacleSpawnFrequency m)
          (maxObstaclesOnScreen m) (obstaclesAvoided m) (nextObstacleZ m)
          (obstacleSpread m) (difficultyLevel m) (effects m).
Definition set_obstaclePool (v : list ObjRef) (m : state num) : state num :=
  mkState (objects m) (activeObstacles m) v (obstacleSpawnFrequency m)
          (maxObstaclesOnScreen m) (obstaclesAvoided m) (nextObstacleZ m)
          (obstacleSpread m) (difficultyLevel m) (effects m).
Definition set_obstaclesAvoided (v : Z) (m : state num) : state num :=
  mkState (objects m) (activeObstacles m) (obstaclePool m)
          (obstacleSpawnFrequency m) (maxObstaclesOnScreen m) v
          (nextObstacleZ m) (obstacleSpread m) (difficultyLevel m) (effects m).
Definition set_nextObstacleZ (v : num) (m : state num) : state num :=
  mkState (objects m) (activeObstacles m) (obstaclePool m)
          (obstacleSpawnFrequency m) (maxObstaclesOnScreen m)
          (obstaclesAvoided m) v (obstacleSpread m) (difficultyLevel m)
          (effects m).
Definition set_difficulty (level frequency maxOnScreen spread : num)
    (m : state num) : state num :=
  mkState (objects m) (activeObstacles m) (obstaclePool m) frequency
          maxOnScreen (obstaclesAvoided m) (nextObstacleZ m) spread level
          (effects m).
Definition emit (e : Effect) (m : state num) : state num :=
  mkState (objects m) (activeObstacles m) (obstaclePool m)
          (obstacleSpawnFrequency m) (maxObstaclesOnScreen m)
          (obstaclesAvoided m) (nextObstacleZ m) (obstacleSpread m)
          (difficultyLevel m) (effects m ++ [e]).

(** A write to a property of the object behind a reference. *)
Definition modify (o : ObjRef) (f : Obstacle num -> Obstacle num)
    (m : state num) : state num :=
  match objects m !! o with
  | Some ob => set_objects (<[o := f ob]> (objects m)) m
  | None => m
  end.

(** [constructor] *)
Definition constructor : state num :=
  {| objects := [];
     activeObstacles := [];
     obstaclePool := [];
     obstacleSpawnFrequency := lit 0.2;
     maxObstaclesOnScreen := lit 20;
     obstaclesAvoided := 0;
     nextObstacleZ := - lit 100;
     obstacleSpread := lit 30;
     difficultyLevel := lit 1;
     effects := [] |}.

(** The difficulty curve of [updateDifficulty]. *)
Definition level (distanceTraveled : num) : num :=
  lit 1 + jsfloor (distanceTraveled / lit 500).
Definition spawnFrequency (difficultyLevel : num) : num :=
  lit 0.2 + difficultyLevel * lit 0.05.
Definition maxObstacles (difficultyLevel : num) : num :=
  lit 20 + difficultyLevel * lit 2.
Definition spread (difficultyLevel : num) : num :=
  lit 30 + difficultyLevel * lit 5.

(** [updateDifficulty(playerPosition)] *)
Definition updateDifficulty (playerPosition : Vec3 num) (m : state num)
  : state num :=
  let distanceTraveled := jsabs (vz playerPosition) in
  let difficultyLevel := level distanceTraveled in
  set_difficulty difficultyLevel (spawnFrequency difficultyLevel)
    (maxObstacles difficultyLevel) (spread difficultyLevel) m.

(** [recycleObstacle(obstacle)] *)
Definition recycleObstacle (o : ObjRef) (m : state num) : state num :=
  let m := emit (SceneRemove o) m in
  let m :=
    match objects m !! o with
    | Some ob =>
        match obstacleBody ob with
        | Some _ =>
            modify o (fun ob =>
                        mkObstacle (obstacleType ob) (obstaclePosition ob)
                          (collisionRadius ob) (damageMultiplier ob)
                          (isAvoidedCounted ob) None)
                   (emit (RemoveBody o) m)
        | None => m
        end
    | None => m
    end in
  set_obstaclePool (obstaclePool m ++ [o]) m.

(** The callback of the [filter] in [removeDistantObstacles], run over the
    array in order: the references that are kept, and the state after the
    recycling that the callback does on the way. *)
Fixpoint filterDistant (playerPosition : Vec3 num) (os : list ObjRef)
    (m : state num) : list ObjRef * state num :=
  match os with
  | [] => ([], m)
  | o :: rest =>
      let removalDistance := lit 50 in
      let far :=
        match objects m !! o with
        | Some ob =>
            vz (obstaclePosition ob) >? vz playerPosition + removalDistance
        | None => false
        end in
      if far then filterDistant playerPosition rest (recycleObstacle o m)
      else
        let '(kept, m') := filterDistant playerPosition rest m in
        (o :: kept, m')
  end.

(** [removeDistantObstacles(playerPosition)] *)
Definition removeDistantObstacles (playerPosition : Vec3 num)
    (m : state num) : state num :=
  let '(kept, m') := filterDistant playerPosition (activeObstacles m) m in
  set_activeObstacles kept m'.

(** [this.obstaclePool.findIndex(obj => obj.type === type)] *)
Fixpoint findIndex (objs : list (Obstacle num)) (type : ObstacleKind)
    (pool : list ObjRef) : option nat :=
  match pool with
  | [] => None
  | o :: rest =>
      let matches :=
        match objs !! o with
        | Some ob => kind_eqb (obstacleType ob) type
        | None => false
        end in
      if matches then Some 0%nat
      else option_map S (findIndex objs type rest)
  end.

(** [getObstacleFromPool(type)]: [None] is the [null] result. *)
Definition getObstacleFromPool (type : ObstacleKind) (m : state num)
  : option ObjRef * state num :=
  match findIndex (objects m) type (obstaclePool m) with
  | Some index =>
      match obstaclePool m !! index with
      | Some o =>
          let m := set_obstaclePool (delete index (obstaclePool m)) m in
          (Some o, emit (SceneAdd o) m)
      | None => (None, m)
      end
  | None => (None, m)
  end.

(** [typeData.createFunc()]: a new group, added to the scene.  The
    properties that [createObstacle] sets next are not there yet; the
    record holds the values that are about to be written. *)
Definition createFunc (typeData : TypeData num) (x z : num) (m : state num)
  : ObjRef * state num :=
  let o := length (objects m) in
  let ob := mkObstacle (type typeData) (mkVec3 x (lit 0) z)
              (typeCollisionRadius typeData) (typeDamageMultiplier typeData)
              false None in
  (o, emit (SceneAdd o) (set_objects (objects m ++ [ob]) m)).

(** [addObstaclePhysics(obstacle, typeData)]: a static body at the
    obstacle's position.  The physics engine has no [CANNON.Cone]: for an
    ice spike [new CANNON.Cone(0.8, 3)] throws a TypeError (not a
    constructor) before a body is made, added to the world or linked to the
    obstacle.  The shapes of the other types are constructors of the
    engine. *)
Definition addObstaclePhysics (o : ObjRef) (typeData : TypeData num)
    (m : state num) : state num * option JsError :=
  match type typeData with
  | iceSpike => (m, Some TypeError)
  | tree | rock | logPile =>
      let m := emit (AddBody o) m in
      (modify o (fun ob =>
                   mkObstacle (obstacleType ob) (obstaclePosition ob)
                     (collisionRadius ob) (damageMultiplier ob)
                     (isAvoidedCounted ob) (Some (obstaclePosition ob))) m,
       None)
  end.

(** [createObstacle(typeData, x, z)]: the state it leaves, and the obstacle
    it returns or the error it throws.  When [addObstaclePhysics] throws,
    the obstacle has been taken from the pool or created, added to the
    scene and written to, and is returned to nobody. *)
Definition createObstacle (typeData : TypeData num) (x z : num)
    (m : state num) : state num * Completion ObjRef :=
  let '(o, m) :=
    match getObstacleFromPool (type typeData) m with
    | (Some o, m) => (o, m)
    | (None, m) => createFunc typeData x z m
    end in
  let m :=
    modify o (fun ob =>
                mkObstacle (type typeData) (mkVec3 x (lit 0) z)
                  (typeCollisionRadius typeData)
                  (typeDamageMultiplier typeData)
                  false (obstacleBody ob)) m in
  match addObstaclePhysics o typeData m with
  | (m, None) => (m, Normal o)
  | (m, Some e) => (m, Throw e)
  end.

(** [generateObstacle(playerPosition)]: an error of [createObstacle] leaves
    before the [push] and before [nextObstacleZ] moves on. *)
Definition generateObstacle (playerPosition : Vec3 num) (d : Draws num)
    (m : state num) : state num * option JsError :=
  if spawnDraw d >? obstacleSpawnFrequency m then (m, None) else
  let zDistance := vz playerPosition - nextObstacleZ m in
  if jsabs zDistance <? minDistanceBetweenObstacles then (m, None) else
  let xPosition := (xDraw d * lit 2 - lit 1) * obstacleSpread m in
  let typeIndex := kind_index (typeDraw d) in
  let typeIndex :=
    if escalateDraw d <? lit 0.2 * difficultyLevel m
    then Nat.min (typeIndex + 1) (length obstacleTypesData - 1)
    else typeIndex in
  let obstacleType := typeData_at typeIndex in
  match createObstacle obstacleType xPosition (nextObstacleZ m) m with
  | (m, Throw e) => (m, Some e)
  | (m, Normal obstacle) =>
      let m := set_activeObstacles (activeObstacles m ++ [obstacle]) m in
      (set_nextObstacleZ
         (nextObstacleZ m
          - minDistanceBetweenObstacles * (lit 1 + gapDraw d * lit 0.5)) m,
       None)
  end.

(** The callback of the [forEach] in [checkObstaclesPassed]. *)
Definition checkPassed (playerPosition : Vec3 num) (m : state num)
    (o : ObjRef) : state num :=
  match objects m !! o with
  | Some ob =>
      if negb (isAvoidedCounted ob)
         && (vz (obstaclePosition ob) >? vz playerPosition + lit 5)
      then
        let m :=
          modify o (fun ob =>
                      mkObstacle (obstacleType ob) (obstaclePosition ob)
                        (collisionRadius ob) (damageMultiplier ob)
                        true (obstacleBody ob)) m in
        let m := set_obstaclesAvoided (obstaclesAvoided m + 1) m in
        emit (ScoreText o (obstaclesAvoided m)) m
      else m
  | None => m
  end.

(** [checkObstaclesPassed(playerPosition)] *)
Definition checkObstaclesPassed (playerPosition : Vec3 num)
    (m : state num) : state num :=
  fold_left (checkPassed playerPosition) (activeObstacles m) m.

(** [update(playerPosition, deltaTime)]: the state it leaves, and the
    error if [generateObstacle] threw; [checkObstaclesPassed] is then not
    run. *)
Definition update (playerPosition : Vec3 num) (d : Draws num)
    (m : state num) : state num * option JsError :=
  let m := updateDifficulty playerPosition m in
  let m := removeDistantObstacles playerPosition m in
  let '(m, thrown) :=
    if ofZ (Z.of_nat (length (activeObstacles m))) <? maxObstaclesOnScreen m
    then generateObstacle playerPosition d m
    else (m, None) in
  match thrown with
  | Some e => (m, Some e)
  | None => (checkObstaclesPassed playerPosition m, None)
  end.

(** [reset()] *)
Definition reset (m : state num) : state num :=
  let m := fold_left (fun m o => recycleObstacle o m) (activeObstacles m) m in
  let m := set_activeObstacles [] m in
  let m := set_nextObstacleZ (- lit 100) m in
  let m := set_obstaclesAvoided 0 m in
  let m :=
    set_difficulty (lit 1) (obstacleSpawnFrequency m)
      (maxObstaclesOnScreen m) (obstacleSpread m) m in
  emit ScoreZero m.

(** [getObstaclesAvoided()] *)
Definition getObstaclesAvoided (m : state num) : Z := obstaclesAvoided m.

(** The index of the entry of [obstacleTypesData] that [generateObstacle]
    picks at the difficulty level [difficultyLevel]: the drawn one, or the
    next one, up to the last, when the second draw falls below
    [0.2 * difficultyLevel]. *)
Definition chosenIndex (difficultyLevel : num) (d : Draws num) : nat :=
  let typeIndex := kind_index (typeDraw d) in
  if escalateDraw d <? lit 0.2 * difficultyLevel
  then Nat.min (typeIndex + 1) (length obstacleTypesData - 1)
  else typeIndex.

(** A run of the manager: one [update] per frame, each with the player's
    position and the frame's draws.  An [update] that throws stops the game
    loop, not the manager: the next game goes on from the state that the
    call has left. *)
Definition updates (ticks : list (Vec3 num * Draws num)) (m : state num)
  : state num :=
  fold_left (fun m t => fst (update (fst t) (snd t) m)) ticks m.

End Methods.

End ObstacleManager.

(** ** terrain.js: [class Terrain], the chunk streamer *)

Module Terrain.

Inductive Material : Type := snowMaterial | iceMaterial.

(** A chunk mesh: the index it was generated for (its position is
    [(0, 0, -chunkIndex * chunkSize)]) and its material.  The vertex heights
    come from [generateNoise] and only feed the geometry. *)
Record Chunk : Type := mkChunk {
  chunkIndex : Z;
  material : Material
}.

(** Calls that leave the class: the scene graph, the physics world and the
    console. *)
Inductive Effect : Type :=
| SceneAdd (chunkIndex : Z)
| SceneRemove (chunkIndex : Z)
| AddBody (chunkIndex : Z)
| RemoveBody (chunkIndex : Z)
| ConsoleError (chunkIndex : Z).

(** [terrainBodies] holds one [{body, chunkIndex}] record per body that was
    built; the list keeps the [chunkIndex] of each. *)
Record state : Type := mkState {
  terrainChunks : list Chunk;
  terrainBodies : list Z;
  currentChunkIndex : Z;
  effects : list Effect
}.

(** What the generation of one chunk takes from outside: the
    [Math.random()] value compared with [iceFactor], and whether the body of
    the [try] block of [addTerrainPhysics] ran to its end. *)
Record ChunkDraws (num : Type) : Type := mkChunkDraws {
  materialDraw : num;
  physicsBuilt : bool
}.
Arguments mkChunkDraws {num} _ _.
Arguments materialDraw {num} c.
Arguments physicsBuilt {num} c.

Definition visibleChunks : Z := 5.

Section Methods.
Context {num : Type} `{JsNumber num}.
Local Open Scope js_scope.

(** A chunk index is generated at most once, so the draws of a run are a
    function of the index. *)
Variable oracle : Z -> ChunkDraws num.

Definition chunkSize : num := lit 500.

Definition emit (e : Effect) (t : state) : state :=
  mkState (terrainChunks t) (terrainBodies t) (currentChunkIndex t)
          (effects t ++ [e]).

(** [const iceFactor = Math.min(0.8, chunkIndex * 0.1)] *)
Definition iceFactor (chunkIndex : num) : num :=
  jsmin (lit 0.8) (chunkIndex * lit 0.1).

(** [addTerrainPhysics(mesh, heightData, chunkIndex)]: when the [try]
    block completes the body is in the world and in [terrainBodies]; when
    it throws the [catch] logs the error. *)
Definition addTerrainPhysics (chunkIndex : Z) (t : state) : state :=
  if physicsBuilt (oracle chunkIndex) then
    let t := emit (AddBody chunkIndex) t in
    mkState (terrainChunks t) (terrainBodies t ++ [chunkIndex])
            (currentChunkIndex t) (effects t)
  else emit (ConsoleError chunkIndex) t.

(** [generateChunk(chunkIndex)]: the mesh and the state after
    [addTerrainPhysics]. *)
Definition generateChunk (chunkIndex : Z) (t : state) : Chunk * state :=
  let material :=
    if materialDraw (oracle chunkIndex) <? iceFactor (ofZ chunkIndex)
    then iceMaterial else snowMaterial in
  (mkChunk chunkIndex material, addTerrainPhysics chunkIndex t).

(** [this.scene.add(chunk); this.terrainChunks.push(chunk)] *)
Definition addChunk (chunkIndex : Z) (t : state) : state :=
  let '(chunk, t) := generateChunk chunkIndex t in
  let t := emit (SceneAdd chunkIndex) t in
  mkState (terrainChunks t ++ [chunk]) (terrainBodies t)
          (currentChunkIndex t) (effects t).

(** [generateInitialChunks()]: [for (let i = 0; i < this.visibleChunks; i++)] *)
Definition generateInitialChunks (t : state) : state :=
  fold_left (fun t i => addChunk i t) (seqZ 0 visibleChunks) t.

(** [constructor] *)
Definition constructor : state :=
  generateInitialChunks
    {| terrainChunks := []; terrainBodies := [];
       currentChunkIndex := 0; effects := [] |}.

(** [generateNextChunk()] *)
Definition generateNextChunk (t : state) : state :=
  let newChunkIndex :=
    (currentChunkIndex t + Z.of_nat (length (terrainChunks t)))%Z in
  addChunk newChunkIndex t.

(** [removeOldestChunk()]: when [terrainBodies] is empty [shift()] gives
    [undefined], and reading [oldestBody.body] throws a TypeError before
    [currentChunkIndex] is incremented. *)
Definition removeOldestChunk (t : state) : Completion state :=
  let t :=
    match terrainChunks t with
    | oldestChunk :: rest =>
        emit (SceneRemove (chunkIndex oldestChunk))
             (mkState rest (terrainBodies t) (currentChunkIndex t) (effects t))
    | [] => t
    end in
  match terrainBodies t with
  | oldestBody :: rest =>
      let t := emit (RemoveBody oldestBody) t in
      Normal (mkState (terrainChunks t) rest (currentChunkIndex t + 1)%Z
                      (effects t))
  | [] => Throw TypeError
  end.

(** [update(playerPosition)] *)
Definition update (playerPosition : Vec3 num) (t : state)
  : Completion state :=
  let playerChunkIndex := jsfloor (- vz playerPosition / chunkSize) in
  let t :=
    if playerChunkIndex + lit 3
       >=? ofZ (currentChunkIndex t)
           + ofZ (Z.of_nat (length (terrainChunks t)))
    then generateNextChunk t else t in
  if (Z.of_nat (length (terrainChunks t)) >? visibleChunks)%Z
     && (playerChunkIndex >? ofZ (currentChunkIndex t) + lit 2)
  then removeOldestChunk t
  else Normal t.

(** A run of the streamer: one [update] per frame, until one throws. *)
Fixpoint updates (playerPositions : list (Vec3 num)) (t : state)
  : Completion state :=
  match playerPositions with
  | [] => Normal t
  | playerPosition :: rest =>
      match update playerPosition t with
      | Normal t' => updates rest t'
      | Throw e => Throw e
      end
  end.

End Methods.

End Terrain.

(** ** player.js: the [noise] object, [seed] *)

Module SimplexNoise.
Local Open Scope Z_scope.

(** ToInt32, which the bit operators apply to their operands: the integer
    part modulo 2^32, in the signed range; NaN and the infinities give 0. *)
Definition wrap32 (n : Z) : Z := (n + 2 ^ 31) mod 2 ^ 32 - 2 ^ 31.

Definition toInt32 (x : float) : Z :=
  match Prim2SF x with
  | S754_finite s m e => wrap32 (cond_Zopp s (Z.shiftl (Zpos m) e))
  | _ => 0
  end.

(** The value of [seed] after [if (seed < 256) seed |= seed << 8], as the
    bit operators of the loop see it. *)
Definition seedBits (seed : float) : Z :=
  let seed :=
    if ((0 <? seed) && (seed <? 1))%float then (seed * 65536)%float
    else seed in
  let seed := Binary64.floor seed in
  if (seed <? 256)%float
  then Z.lor (toInt32 seed) (wrap32 (Z.shiftl (toInt32 seed) 8))
  else toInt32 seed.

(** One pass through the body of the first loop.  The array is filled in
    index order, so [this.p[i] = v] appends; [this.p[i - 1]] is [undefined]
    for [i = 0], and [undefined ^ n] is [n]. *)
Definition p_step (seed : Z) (p : list Z) (i : Z) : list Z :=
  let prev :=
    if i - 1 <? 0 then 0 else default 0 (p !! Z.to_nat (i - 1)) in
  let v :=
    if negb (Z.land i 1 =? 0)
    then Z.lxor prev (Z.land seed 255)
    else Z.lxor prev (Z.land (Z.shiftr seed 8) 255) in
  p ++ [v].

(** [this.p] after [for (let i = 0; i < 256; i++)]. *)
Definition p_table (seed : Z) : list Z :=
  fold_left (p_step seed) (seqZ 0 256) [].

(** [this.perm] after [for (let i = 0; i < 512; i++)]:
    [this.perm[i] = this.p[i & 255]]. *)
Definition perm_table (seed : Z) : list Z :=
  map (fun i => default 0 (p_table seed !! Z.to_nat (Z.land i 255)))
      (seqZ 0 512).

(** [seed(seed)]: the new [this.p] and [this.perm]. *)
Definition seed (seed : float) : list Z * list Z :=
  (p_table (seedBits seed), perm_table (seedBits seed)).

End SimplexNoise.

(** ** game.js: what [class Game] does to the player *)

Module Game.

Section Methods.
Context {num : Type} `{JsNumber num}.

(** [THREE.Vector3.distanceTo], as in [Player.checkObstacleCollision]. *)
Variable distanceTo : Vec3 num -> Vec3 num -> num.

(** [checkObstacleCollisions()]: the loop over
    [this.obstacles.activeObstacles] ends at the first obstacle that is hit
    ([break]); the snow explosion it triggers is rendering. *)
Fixpoint checkObstacleCollisions (r : Player.RagdollDraws num)
    (obstacles : list (Obstacle num)) (p : Player.state num)
  : Completion (Player.state num) :=
  match obstacles with
  | [] => Normal p
  | obstacle :: rest =>
      match Player.checkObstacleCollision distanceTo r obstacle p with
      | Normal (true, p') => Normal p'
      | Normal (false, p') => checkObstacleCollisions r rest p'
      | Throw e => Throw e
      end
  end.

(** What reaches the player while the game runs: the key listeners; the
    player's part of [updateGame] ([physics.update], then [player.update]);
    the collision check of [updateGame], which is skipped for a dead player;
    and [player.reset()], called by [resetGame]. *)
Inductive Event : Type :=
| KeyDown (code : Player.KeyCode)
| KeyUp (code : Player.KeyCode)
| PlayerUpdate (f : Player.Frame num)
| ObstacleCollisions (r : Player.RagdollDraws num)
    (activeObstacles : list (Obstacle num))
| ResetGame.

(** A TypeError in the collision check leaves the player as it was: the
    obstacles before the one without a body were all missed. *)
Definition handle (e : Event) (p : Player.state num) : Player.state num :=
  match e with
  | KeyDown code => Player.keydown code p
  | KeyUp code => Player.keyup code p
  | PlayerUpdate f => Player.frame f p
  | ObstacleCollisions r activeObstacles =>
      if negb (Player.isDead p) then
        match checkObstacleCollisions r activeObstacles p with
        | Normal p' => p'
        | Throw _ => p
        end
      else p
  | ResetGame => Player.reset p
  end.

Definition play (events : list Event) (p : Player.state num)
  : Player.state num :=
  fold_left (fun q e => handle e q) events p.

End Methods.

End Game.

(** ** utils.js: [clamp] *)

(** [Math.max], which [clamp] uses besides the arithmetic of [JsNumber]. *)
Class JsMath (num : Type) : Type := {
  jsmax : num -> num -> num
}.

Module Binary64Math.

(** [Math.max]: NaN if an argument is NaN, and [+0] is above [-0]. *)
Definition max (a b : float) : float :=
  if is_nan a || is_nan b then nan
  else if (a <? b)%float then b
  else if (b <? a)%float then a
  else if is_zero a && get_sign a then b else a.

End Binary64Math.

#[export] Instance binary64_math : JsMath float := {|
  jsmax := Binary64Math.max
|}.

Section UtilsHelpers.
Context {num : Type} `{JsNumber num} `{JsMath num}.

(** [function clamp(value, min, max)] *)
Definition clamp (value min max : num) : num :=
  jsmin (jsmax value min) max.

End UtilsHelpers.

(** ** The order of binary64 *)

Module Binary64Order.

(** The place of a binary64 value in the order of the numbers: [None] for
    NaN, which compares with nothing; both zeros share a place. *)
Definition rank (x : spec_float) : option (Z * Z * Z) :=
  match x with
  | S754_nan => None
  | S754_infinity s => Some (if s then (-2) else 2, 0, 0)%Z
  | S754_zero _ => Some (0, 0, 0)%Z
  | S754_finite s m e =>
      Some (if s then (-1, - e, - Zpos m) else (1, e, Zpos m))%Z
  end.

Definition lex_lt (a b : Z * Z * Z) : Prop :=
  (fst (fst a) < fst (fst b)
   \/ (fst (fst a) = fst (fst b)
       /\ (snd (fst a) < snd (fst b)
           \/ (snd (fst a) = snd (fst b) /\ snd a < snd b))))%Z.

(** [a < b], [a <= b] and [a == b] as the program's comparisons decide
    them. *)
Definition lt (x y : float) : Prop :=
  match rank (Prim2SF x), rank (Prim2SF y) with
  | Some a, Some b => lex_lt a b
  | _, _ => False
  end.

Definition le (x y : float) : Prop :=
  match rank (Prim2SF x), rank (Prim2SF y) with
  | Some a, Some b => lex_lt a b \/ a = b
  | _, _ => False
  end.

Definition number (x : float) : Prop := is_Some (rank (Prim2SF x)).

End Binary64Order.


(** ** Observations on the logs, and concrete inputs *)

(** Whether an effect is the dispatch of the [player-died] event. *)
Definition is_player_died {num : Type} (e : Player.Effect num) : bool :=
  match e with
  | Player.DispatchEvent name => String.eqb name "player-died"
  | _ => false
  end.

(** The number of [player-died] events in a log of the player. *)
Definition died_signals {num : Type} (es : list (Player.Effect num)) : nat :=
  length (List.filter is_player_died es).

(** The impulses that a log of the player hands to the physics engine. *)
Definition impulses {num : Type} (es : list (Player.Effect num))
  : list (Vec3 num) :=
  omap (fun e => match e with
                 | Player.ApplyImpulse v => Some v
                 | _ => None
                 end) es.

(** The indices of the chunks that the streamer holds, oldest first, and
    their number. *)
Definition chunkIndices (t : Terrain.state) : list Z :=
  map Terrain.chunkIndex (Terrain.terrainChunks t).

Definition chunkCount (t : Terrain.state) : Z :=
  Z.of_nat (length (Terrain.terrainChunks t)).

(** How one [Terrain.update] may change the window: [added] joins at the
    leading edge, with the next index; [evicted] leaves at the trailing edge,
    and [currentChunkIndex] moves up by its length. *)
Definition streamed (t t' : Terrain.state) : Prop :=
  exists added evicted,
    Terrain.terrainChunks t ++ added = evicted ++ Terrain.terrainChunks t'
    /\ (added = []
        \/ exists material,
             added = [Terrain.mkChunk
                        (Terrain.currentChunkIndex t + chunkCount t) material])
    /\ (evicted = []
        \/ exists material,
             evicted = [Terrain.mkChunk (Terrain.currentChunkIndex t) material])
    /\ Terrain.currentChunkIndex t'
       = (Terrain.currentChunkIndex t + Z.of_nat (length evicted))%Z.

(** The invariant of the streamer: the window is a contiguous ascending
    range that starts at [currentChunkIndex] and holds [visibleChunks] or
    [visibleChunks + 1] chunks; the bodies are in step with the chunks unless
    the construction of some body failed. *)
Definition streamer_inv {num : Type} (oracle : Z -> Terrain.ChunkDraws num)
    (t : Terrain.state) : Prop :=
  chunkIndices t = seqZ (Terrain.currentChunkIndex t) (chunkCount t)
  /\ (chunkCount t = Terrain.visibleChunks
      \/ chunkCount t = (Terrain.visibleChunks + 1)%Z)
  /\ (length (Terrain.terrainBodies t) = length (Terrain.terrainChunks t)
      \/ exists i, Terrain.physicsBuilt (oracle i) = false).

(** How often the obstacle behind [o] has been counted as avoided since
    [createObstacle] last took it up: [SceneAdd o] is logged by every
    [createObstacle] that takes [o] from the pool or creates it, whether
    the call returns or throws; [ScoreText o _] by every increment of
    [obstaclesAvoided] for [o]. *)
Definition countedSinceSpawn (o : ObstacleManager.ObjRef)
    (es : list ObstacleManager.Effect) : nat :=
  fold_left
    (fun n e =>
       match e with
       | ObstacleManager.SceneAdd o' => if Nat.eqb o' o then 0%nat else n
       | ObstacleManager.ScoreText o' _ => if Nat.eqb o' o then S n else n
       | _ => n
       end) es 0%nat.

(** How often the obstacle behind [o] has been counted in all. *)
Definition timesCounted (o : ObstacleManager.ObjRef)
    (es : list ObstacleManager.Effect) : nat :=
  length (List.filter
            (fun e => match e with
                      | ObstacleManager.ScoreText o' _ => Nat.eqb o' o
                      | _ => false
                      end) es).

(** The number of writes of a count to the score element since [reset]
    last wrote ["0"] to it. *)
Definition writesSinceReset (es : list ObstacleManager.Effect) : nat :=
  fold_left
    (fun n e =>
       match e with
       | ObstacleManager.ScoreText _ _ => S n
       | ObstacleManager.ScoreZero => 0%nat
       | _ => n
       end) es 0%nat.

(** Effects that neither take up nor count an obstacle, nor reset the
    score. *)
Definition quiet_effect (e : ObstacleManager.Effect) : Prop :=
  match e with
  | ObstacleManager.SceneRemove _ | ObstacleManager.AddBody _
  | ObstacleManager.RemoveBody _ => True
  | ObstacleManager.SceneAdd _ | ObstacleManager.ScoreText _ _
  | ObstacleManager.ScoreZero => False
  end.

(** A step of the manager that neither takes up nor counts an obstacle: the
    counter and every [isAvoidedCounted] flag are left alone. *)
Definition quiet {num : Type} (m m' : ObstacleManager.state num) : Prop :=
  ObstacleManager.obstaclesAvoided m' = ObstacleManager.obstaclesAvoided m
  /\ (exists es, ObstacleManager.effects m' = ObstacleManager.effects m ++ es
                 /\ Forall quiet_effect es)
  /\ (forall o, isAvoidedCounted <$> (ObstacleManager.objects m' !! o)
                = isAvoidedCounted <$> (ObstacleManager.objects m !! o)).

(** What a step that takes up the object [o] does to the counter, the log
    and the flags. *)
Definition takes_up {num : Type} (o : nat)
    (m m' : ObstacleManager.state num) : Prop :=
  ObstacleManager.obstaclesAvoided m' = ObstacleManager.obstaclesAvoided m
  /\ (exists es,
        ObstacleManager.effects m'
        = ObstacleManager.effects m ++ ObstacleManager.SceneAdd o :: es
        /\ Forall quiet_effect es)
  /\ forall o', o' <> o ->
       isAvoidedCounted <$> (ObstacleManager.objects m' !! o')
       = isAvoidedCounted <$> (ObstacleManager.objects m !! o').

(** The invariant behind the avoided counter: it equals the number of score
    writes since the last reset, no obstacle has been counted twice since
    [createObstacle] last took it up, and an obstacle whose flag is clear
    has not been counted since. *)
Definition counted_once_inv {num : Type} (m : ObstacleManager.state num)
  : Prop :=
  ObstacleManager.obstaclesAvoided m
  = Z.of_nat (writesSinceReset (ObstacleManager.effects m))
  /\ forall o,
       (countedSinceSpawn o (ObstacleManager.effects m) <= 1)%nat
       /\ forall ob,
            ObstacleManager.objects m !! o = Some ob ->
            isAvoidedCounted ob = false ->
            countedSinceSpawn o (ObstacleManager.effects m) = 0%nat.

(** Over exact arithmetic: the obstacles of a collision check all have a
    non-negative damage multiplier (those of [obstacleTypesData] are 1.0,
    1.2, 1.5 and 0.8). *)
Definition nonneg_damage (e : Game.Event (num := Q)) : Prop :=
  match e with
  | Game.ObstacleCollisions _ activeObstacles =>
      Forall (fun obstacle => (0 <= damageMultiplier obstacle)%Q) activeObstacles
  | _ => True
  end.

(** Over exact arithmetic: the speed is not negative, health is at most 100,
    and a living player has positive health. *)
Definition player_inv (p : Player.state Q) : Prop :=
  (0 <= Player.speed p)%Q
  /\ (Player.health p <= 100)%Q
  /\ (Player.isDead p = false -> (0 < Player.health p)%Q).

(** The first assignment of [Player.update]:
    [this.speed = Math.min(this.maxSpeed, this.speed + this.acceleration)]. *)
Definition ramp {num : Type} `{JsNumber num} (speed : num) : num :=
  jsmin Player.maxSpeed (speed + Player.acceleration)%js.

(** Whether the binary64 ramp stays at or below 300 for [n] more updates
    from the speed [s]. *)
Fixpoint ramp_bounded (n : nat) (s : float) : bool :=
  match n with
  | O => PrimFloat.leb s 300
  | S k => PrimFloat.leb s 300 && ramp_bounded k (ramp s)
  end.

Module Sample.
Local Open Scope float_scope.

Definition ragdoll : Player.RagdollDraws float :=
  Player.mkRagdollDraws 0.5 0.5 0.5 0.5 0.5 0.5.

Definition onSnow : Player.RaycastResult float :=
  Player.mkRaycastResult true 0.5.

(** A player after [reset()], as [startGame] leaves it. *)
Definition fresh : Player.state float := Player.reset Player.constructor.

(** Both [KeyA] and [KeyD] held down. *)
Definition bothKeys : Player.state float :=
  Player.keydown Player.KeyD (Player.keydown Player.KeyA fresh).

(** A frame at 62.5 Hz in which the engine leaves the body at the start
    point, on the snow. *)
Definition idle : Player.Frame float :=
  Player.mkFrame
    (mkBody (mkVec3 0 5 0) (mkVec3 0 0 (-50)) (mkVec3 0 0 0) (0, 0, 0, 1))
    0.016 onSnow ragdoll.

Definition at_z (z : float) : Vec3 float := mkVec3 0 0 z.

(** Draws of [generateObstacle]: [spawnDraw], and a tree in the middle of
    the slope, not escalated, at the smallest gap. *)
Definition treeDraws (spawnDraw : float) : ObstacleManager.Draws float :=
  ObstacleManager.mkDraws spawnDraw 0.5 tree 0.9 0.

(** Seven frames of the obstacle manager, the player moving 30 units per
    frame: at z = 0 a tree is spawned at z = -100; in the next five frames
    the spawn draw fails; at z = -180 a tree is spawned again. *)
Definition sevenFrames : list (Vec3 float * ObstacleManager.Draws float) :=
  [ (at_z 0, treeDraws 0.1);
    (at_z (-30), treeDraws 0.9);
    (at_z (-60), treeDraws 0.9);
    (at_z (-90), treeDraws 0.9);
    (at_z (-120), treeDraws 0.9);
    (at_z (-150), treeDraws 0.9);
    (at_z (-180), treeDraws 0.1) ].

(** The player in chunk 0, in chunk 1, then entering chunk 2. *)
Definition downTheSlope : list (Vec3 float) :=
  [at_z (-30); at_z (-600); at_z (-1000)].

(** Every terrain body is built, and every chunk draws 0.5 for its
    material. *)
Definition allBuilt (chunkIndex : Z) : Terrain.ChunkDraws float :=
  Terrain.mkChunkDraws 0.5 true.

End Sample.

Module SampleExact.
Local Open Scope Q_scope.

Definition ragdoll : Player.RagdollDraws Q :=
  Player.mkRagdollDraws 0.5 0.5 0.5 0.5 0.5 0.5.

Definition idle : Player.Frame Q :=
  Player.mkFrame
    (mkBody (mkVec3 0 5 0) (mkVec3 0 0 (-50)) (mkVec3 0 0 0) (0, 0, 0, 1))
    0.016 (Player.mkRaycastResult true 0.5) ragdoll.

(** An obstacle with the collision radius and the damage multiplier of the
    ice-spike entry of [obstacleTypesData], where the player stands. *)
Definition spike : Obstacle Q :=
  mkObstacle iceSpike (mkVec3 0 0 0) 1.0 1.5 false (Some (mkVec3 0 5 0)).

(** A distance that [checkObstacleCollision] always finds below the
    collision distance. *)
Definition touching (a b : Vec3 Q) : Q := 0.

(** A game: reset, one frame, and a collision check against the spike. *)
Definition oneHit : list Game.Event :=
  [Game.ResetGame; Game.PlayerUpdate idle; Game.ObstacleCollisions ragdoll [spike]].

End SampleExact.

(** ** Further observations *)

(** Whether an event is a call of one of the key listeners; whether [Space]
    goes down in a list of events; whether an event is [resetGame]; the
    number of collision checks in a list of events. *)
Definition is_key_event {num : Type} (e : Game.Event (num := num)) : bool :=
  match e with
  | Game.KeyDown _ | Game.KeyUp _ => true
  | _ => false
  end.

Definition space_pressed {num : Type} (events : list (Game.Event (num := num)))
  : bool :=
  existsb (fun e => match e with
                    | Game.KeyDown Player.Space => true
                    | _ => false
                    end) events.

Definition is_reset {num : Type} (e : Game.Event (num := num)) : bool :=
  match e with
  | Game.ResetGame => true
  | _ => false
  end.

Definition collision_checks {num : Type}
    (events : list (Game.Event (num := num))) : nat :=
  length (List.filter (fun e => match e with
                                | Game.ObstacleCollisions _ _ => true
                                | _ => false
                                end) events).

(** The lateral force that [applyControls] computes from the keys. *)
Definition lateralForce {num : Type} `{JsNumber num} (deltaTime : num)
    (p : Player.state num) : num :=
  if Player.moveLeft p then (- Player.lateralSpeed * deltaTime)%js
  else if Player.moveRight p then (Player.lateralSpeed * deltaTime)%js
  else lit 0.

(** A step of the player that dispatches [player-died] exactly when it
    kills, and never revives. *)
Definition signalled {num : Type} (p p' : Player.state num) : Prop :=
  died_signals (Player.effects p')
  = (died_signals (Player.effects p)
     + (if negb (Player.isDead p) && Player.isDead p' then 1 else 0))%nat
  /\ (Player.isDead p = true -> Player.isDead p' = true).

(** Over exact arithmetic: the damage multipliers of a collision check are
    between 0 and 1.5, the largest of [obstacleTypesData]. *)
Definition table_damage (e : Game.Event (num := Q)) : Prop :=
  match e with
  | Game.ObstacleCollisions _ activeObstacles =>
      Forall (fun obstacle => (0 <= damageMultiplier obstacle <= 1.5)%Q)
             activeObstacles
  | _ => True
  end.

Module Scene.
Local Open Scope float_scope.

(** A frame in which the engine leaves the body beyond the side boundary. *)
Definition offPiste : Player.Frame float :=
  Player.mkFrame
    (mkBody (mkVec3 600 5 0) (mkVec3 0 0 (-50)) (mkVec3 0 0 0) (0, 0, 0, 1))
    0.016 Sample.onSnow Sample.ragdoll.

(** A distance at which nothing collides. *)
Definition apart (a b : Vec3 float) : float := 100.

End Scene.

Module SceneExact.
Local Open Scope Q_scope.

(** A player after [reset()]. *)
Definition fresh : Player.state Q := Player.reset Player.constructor.

(** A frame in which the engine leaves the body beyond the side boundary. *)
Definition offPiste : Player.Frame Q :=
  Player.mkFrame
    (mkBody (mkVec3 600 5 0) (mkVec3 0 0 (-50)) (mkVec3 0 0 0) (0, 0, 0, 1))
    0.016 (Player.mkRaycastResult true 0.5) SampleExact.ragdoll.

(** A game with two collision checks against the spike. *)
Definition twoHits : list Game.Event :=
  [Game.PlayerUpdate SampleExact.idle;
   Game.ObstacleCollisions SampleExact.ragdoll [SampleExact.spike];
   Game.KeyDown Player.KeyA;
   Game.PlayerUpdate SampleExact.idle;
   Game.ObstacleCollisions SampleExact.ragdoll [SampleExact.spike]].

End SceneExact.

(** The obstacle objects behind [activeObstacles], in array order: what
    the loop of [Game.checkObstacleCollisions] runs through. *)
Definition activeRecords {num : Type} (m : ObstacleManager.state num)
  : list (Obstacle num) :=
  omap (fun o => ObstacleManager.objects m !! o)
       (ObstacleManager.activeObstacles m).

(** An object after [obstacle.body = null], and after a write to
    [isAvoidedCounted]. *)
Definition without_body {num : Type} (ob : Obstacle num) : Obstacle num :=
  mkObstacle (obstacleType ob) (obstaclePosition ob) (collisionRadius ob)
    (damageMultiplier ob) (isAvoidedCounted ob) None.

Definition with_flag {num : Type} (b : bool) (ob : Obstacle num)
  : Obstacle num :=
  mkObstacle (obstacleType ob) (obstaclePosition ob) (collisionRadius ob)
    (damageMultiplier ob) b (obstacleBody ob).

(** An object as [createObstacle] leaves it. *)
Definition placed {num : Type} `{JsNumber num}
    (typeData : ObstacleManager.TypeData num) (x z : num) : Obstacle num :=
  mkObstacle (ObstacleManager.type typeData) (mkVec3 x (lit 0) z)
    (ObstacleManager.typeCollisionRadius typeData)
    (ObstacleManager.typeDamageMultiplier typeData)
    false (Some (mkVec3 x (lit 0) z)).

(** The test of the [filter] callback of [removeDistantObstacles] for the
    object behind [o]. *)
Definition far {num : Type} `{JsNumber num} (playerPosition : Vec3 num)
    (m : ObstacleManager.state num) (o : nat) : bool :=
  match ObstacleManager.objects m !! o with
  | Some ob => (vz (obstaclePosition ob) >? vz playerPosition + lit 50)%js
  | None => false
  end.

(** The calls that [Game] makes on the manager. *)
Inductive ManagerCall (num : Type) : Type :=
| CallUpdate (playerPosition : Vec3 num) (d : ObstacleManager.Draws num)
| CallReset.
Arguments CallUpdate {num} playerPosition d.
Arguments CallReset {num}.

Definition call {num : Type} `{JsNumber num} (c : ManagerCall num)
    (m : ObstacleManager.state num) : ObstacleManager.state num :=
  match c with
  | CallUpdate playerPosition d =>
      fst (ObstacleManager.update playerPosition d m)
  | CallReset => ObstacleManager.reset m
  end.

Definition calls {num : Type} `{JsNumber num} (cs : list (ManagerCall num))
    (m : ObstacleManager.state num) : ObstacleManager.state num :=
  fold_left (fun m c => call c m) cs m.

(** The invariant of the pool: no object is referenced twice from
    [activeObstacles] and [obstaclePool], and every reference is to an
    object; the active objects have a body, at their own position, and the
    pooled ones have none; neither array holds an ice spike; and the
    objects that neither array holds are the ice spikes, left without a
    body by the [createObstacle] that threw. *)
Definition pool_inv {num : Type} (m : ObstacleManager.state num) : Prop :=
  NoDup (ObstacleManager.activeObstacles m ++ ObstacleManager.obstaclePool m)
  /\ (forall o ob,
        ObstacleManager.objects m !! o = Some ob ->
        (o ∈ ObstacleManager.activeObstacles m ++ ObstacleManager.obstaclePool m
         <-> obstacleType ob <> iceSpike)
        /\ (o ∈ ObstacleManager.activeObstacles m ->
            obstacleBody ob = Some (obstaclePosition ob))
        /\ (o ∉ ObstacleManager.activeObstacles m -> obstacleBody ob = None))
  /\ (forall o,
        o ∈ ObstacleManager.activeObstacles m ++ ObstacleManager.obstaclePool m
        -> is_Some (ObstacleManager.objects m !! o)).

(** Every object carries the collision radius and the damage multiplier
    that [obstacleTypesData] gives for its type, and stands at height 0. *)
Definition table_inv {num : Type} `{JsNumber num}
    (m : ObstacleManager.state num) : Prop :=
  forall o ob,
    ObstacleManager.objects m !! o = Some ob ->
    collisionRadius ob
    = ObstacleManager.typeCollisionRadius
        (ObstacleManager.typeData_at
           (ObstacleManager.kind_index (obstacleType ob)))
    /\ damageMultiplier ob
       = ObstacleManager.typeDamageMultiplier
           (ObstacleManager.typeData_at
              (ObstacleManager.kind_index (obstacleType ob)))
    /\ vy (obstaclePosition ob) = lit 0.

(** A step of the manager that frees no object and changes the type of
    none. *)
Definition keeps_kinds {num : Type} (m m' : ObstacleManager.state num)
  : Prop :=
  forall o ob,
    ObstacleManager.objects m !! o = Some ob ->
    exists ob',
      ObstacleManager.objects m' !! o = Some ob'
      /\ obstacleType ob' = obstacleType ob.

Module ManagerScene.
Local Open Scope float_scope.

(** A run of the manager: a tree is spawned, left 60 units behind and
    recycled, the game is reset, and a tree is spawned again. *)
Definition run : list (ManagerCall float) :=
  [ CallUpdate (Sample.at_z 0) (Sample.treeDraws 0.1);
    CallUpdate (Sample.at_z (-160)) (Sample.treeDraws 0.9);
    CallReset;
    CallUpdate (Sample.at_z 0) (Sample.treeDraws 0.1) ].

End ManagerScene.

Module ManagerSceneExact.
Local Open Scope Q_scope.

(** Draws that spawn a tree, half way to the right, at a gap of 25. *)
Definition draws : ObstacleManager.Draws Q :=
  ObstacleManager.mkDraws 0.1 0.75 tree 0.9 0.5.

(** Draws that pick the ice spike, at the same spawn draw. *)
Definition spikeDraws : ObstacleManager.Draws Q :=
  ObstacleManager.mkDraws 0.1 0.75 iceSpike 0.9 0.5.

(** The player 200 units down the slope, past the place of the first
    obstacle. *)
Definition downhill : Vec3 Q := mkVec3 0 0 (-200).

End ManagerSceneExact.

(** The chunk indices that the streamer has added to the scene, and those
    it has removed, in the order of the calls. *)
Definition sceneAdds (es : list Terrain.Effect) : list Z :=
  omap (fun e => match e with
                 | Terrain.SceneAdd i => Some i
                 | _ => None
                 end) es.

Definition sceneRemoves (es : list Terrain.Effect) : list Z :=
  omap (fun e => match e with
                 | Terrain.SceneRemove i => Some i
                 | _ => None
                 end) es.

(** The invariant of the scene log: the window is contiguous, every index
    below its leading edge has been added once, in order, and every index
    below its trailing edge has been removed once, in order. *)
Definition scene_inv (t : Terrain.state) : Prop :=
  chunkIndices t = seqZ (Terrain.currentChunkIndex t) (chunkCount t)
  /\ sceneAdds (Terrain.effects t)
     = seqZ 0 (Terrain.currentChunkIndex t + chunkCount t)
  /\ sceneRemoves (Terrain.effects t) = seqZ 0 (Terrain.currentChunkIndex t)
  /\ (0 <= Terrain.currentChunkIndex t)%Z.

Module TerrainSceneExact.
Local Open Scope Q_scope.

(** Every terrain body is built, and every chunk draws 0.5 for its
    material. *)
Definition allBuilt (chunkIndex : Z) : Terrain.ChunkDraws Q :=
  Terrain.mkChunkDraws 0.5 true.

(** The player in chunk 0, in chunk 1, in chunk 3, then in chunk 4. *)
Definition downTheSlope : list (Vec3 Q) :=
  [mkVec3 0 0 (-30); mkVec3 0 0 (-600); mkVec3 0 0 (-1600);
   mkVec3 0 0 (-2100)].

End TerrainSceneExact.

(** ** game.js: the frame *)

Module GameLoop.

(** The fields of [Game] that the frame reads and writes, with the text of
    the two score elements ([None] until the game has written it). *)
Record state (num : Type) : Type := mkState {
  player : Player.state num;
  terrain : Terrain.state;
  obstacles : ObstacleManager.state num;
  score : Z;
  scoreElement : option Z;
  finalScoreElement : option Z;
  isRunning : bool;
  isPaused : bool;
  lastTime : num
}.
Arguments mkState {num} _ _ _ _ _ _ _ _ _.
Arguments player {num} s.
Arguments terrain {num} s.
Arguments obstacles {num} s.
Arguments score {num} s.
Arguments scoreElement {num} s.
Arguments finalScoreElement {num} s.
Arguments isRunning {num} s.
Arguments isPaused {num} s.
Arguments lastTime {num} s.

(** What one call of [animate] takes from outside: the clock, the body as
    the physics engine leaves it, the answer of the raycast, the draws of a
    death in [player.update] and of one in the collision check, the draws
    of the obstacle manager and those of the chunk that the terrain may
    generate. *)
Record Tick (num : Type) : Type := mkTick {
  elapsedTime : num;
  stepped : Body num;
  ray : Player.RaycastResult num;
  draws : Player.RagdollDraws num;
  hitDraws : Player.RagdollDraws num;
  obstacleDraws : ObstacleManager.Draws num;
  chunkDraws : Terrain.ChunkDraws num
}.
Arguments mkTick {num} _ _ _ _ _ _ _.
Arguments elapsedTime {num} t.
Arguments stepped {num} t.
Arguments ray {num} t.
Arguments draws {num} t.
Arguments hitDraws {num} t.
Arguments obstacleDraws {num} t.
Arguments chunkDraws {num} t.

Section Methods.
Context {num : Type} `{JsNumber num}.

(** [THREE.Vector3.distanceTo], as in [Player.checkObstacleCollision]. *)
Variable distanceTo : Vec3 num -> Vec3 num -> num.

(** Field writes. *)
Definition set_player (v : Player.state num) (g : state num) : state num :=
  mkState v (terrain g) (obstacles g) (score g) (scoreElement g)
          (finalScoreElement g) (isRunning g) (isPaused g) (lastTime g).
Definition set_terrain (v : Terrain.state) (g : state num) : state num :=
  mkState (player g) v (obstacles g) (score g) (scoreElement g)
          (finalScoreElement g) (isRunning g) (isPaused g) (lastTime g).
Definition set_obstacles (v : ObstacleManager.state num) (g : state num)
  : state num :=
  mkState (player g) (terrain g) v (score g) (scoreElement g)
          (finalScoreElement g) (isRunning g) (isPaused g) (lastTime g).
Definition set_score (v : Z) (g : state num) : state num :=
  mkState (player g) (terrain g) (obstacles g) v (scoreElement g)
          (finalScoreElement g) (isRunning g) (isPaused g) (lastTime g).
Definition set_scoreElement (v : option Z) (g : state num) : state num :=
  mkState (player g) (terrain g) (obstacles g) (score g) v
          (finalScoreElement g) (isRunning g) (isPaused g) (lastTime g).
Definition set_finalScoreElement (v : option Z) (g : state num)
  : state num :=
  mkState (player g) (terrain g) (obstacles g) (score g) (scoreElement g)
          v (isRunning g) (isPaused g) (lastTime g).
Definition set_isRunning (v : bool) (g : state num) : state num :=
  mkState (player g) (terrain g) (obstacles g) (score g) (scoreElement g)
          (finalScoreElement g) v (isPaused g) (lastTime g).
Definition set_isPaused (v : bool) (g : state num) : state num :=
  mkState (player g) (terrain g) (obstacles g) (score g) (scoreElement g)
          (finalScoreElement g) (isRunning g) v (lastTime g).
Definition set_lastTime (v : num) (g : state num) : state num :=
  mkState (player g) (terrain g) (obstacles g) (score g) (scoreElement g)
          (finalScoreElement g) (isRunning g) (isPaused g) v.

(** The game after [init()]: the components as their constructors leave
    them; [initialDraws] are the draws of the first chunks. *)
Definition init (initialDraws : Z -> Terrain.ChunkDraws num) : state num :=
  {| player := Player.constructor;
     terrain := Terrain.constructor initialDraws;
     obstacles := ObstacleManager.constructor;
     score := 0;
     scoreElement := None;
     finalScoreElement := None;
     isRunning := false;
     isPaused := false;
     lastTime := lit 0 |}.

(** [onPlayerDied()]: the final score is the score of the moment (the game
    over screen is rendering). *)
Definition onPlayerDied (g : state num) : state num :=
  set_finalScoreElement (Some (score g)) g.

(** The listener that the constructor registers for [player-died] runs,
    synchronously, once for every event that the player dispatches: once
    for every [player-died] that a call has added to the player's log. *)
Definition deliver (before after : Player.state num) (g : state num)
  : state num :=
  Nat.iter (died_signals (Player.effects after)
            - died_signals (Player.effects before))
           onPlayerDied g.

(** [updateScoreDisplay()] *)
Definition updateScoreDisplay (g : state num) : state num :=
  set_scoreElement (Some (score g)) g.

(** The score element after the writes that the obstacle manager has made
    to it. *)
Definition scoreWritten (es : list ObstacleManager.Effect) (text : option Z)
  : option Z :=
  fold_left (fun text e =>
               match e with
               | ObstacleManager.ScoreText _ n => Some n
               | ObstacleManager.ScoreZero => Some 0%Z
               | _ => text
               end) es text.

(** A call into the obstacle manager, with its writes to the score
    element. *)
Definition withObstacles (m : ObstacleManager.state num) (g : state num)
  : state num :=
  set_scoreElement
    (scoreWritten
       (drop (length (ObstacleManager.effects (obstacles g)))
             (ObstacleManager.effects m))
       (scoreElement g))
    (set_obstacles m g).

(** [updateGame(deltaTime)]: the state it leaves, and the error if a call
    threw (the statements after the call are then not run).  The
    environment and the particles are rendering. *)
Definition updateGame (deltaTime : num) (i : Tick num) (g : state num)
  : state num * option JsError :=
  let p :=
    Player.frame (Player.mkFrame (stepped i) deltaTime (ray i) (draws i))
                 (player g) in
  let g := deliver (player g) p (set_player p g) in
  match Terrain.update (fun _ => chunkDraws i) (position (Player.body p))
                       (terrain g) with
  | Throw e => (g, Some e)
  | Normal t =>
      let g := set_terrain t g in
      let '(m, thrown) :=
        ObstacleManager.update (position (Player.body p)) (obstacleDraws i)
                               (obstacles g) in
      let g := withObstacles m g in
      match thrown with
      | Some e => (g, Some e)
      | None =>
          let collided :=
            if negb (Player.isDead p)
            then Game.checkObstacleCollisions distanceTo (hitDraws i)
                   (activeRecords m) p
            else Normal p in
          match collided with
          | Throw e => (g, Some e)
          | Normal p' =>
              let g := deliver p p' (set_player p' g) in
              if negb (Player.isDead p')
              then
                (updateScoreDisplay
                   (set_score (ObstacleManager.getObstaclesAvoided m) g),
                 None)
              else (g, None)
          end
      end
  end.

(** [animate()]: the [catch] stops the loop. *)
Definition animate (i : Tick num) (g : state num) : state num :=
  if negb (isRunning g) then g else
  if isPaused g then g else
  let deltaTime := sub (elapsedTime i) (lastTime g) in
  let g := set_lastTime (elapsedTime i) g in
  let cappedDelta := jsmin deltaTime (lit 0.1) in
  match updateGame cappedDelta i g with
  | (g, None) => g
  | (g, Some _) => set_isRunning false g
  end.

(** [resetGame()]: [initialDraws] are the draws of the first chunks of the
    new terrain. *)
Definition resetGame (initialDraws : Z -> Terrain.ChunkDraws num)
    (g : state num) : state num :=
  let g := updateScoreDisplay (set_score 0 g) in
  let g := set_player (Player.reset (player g)) g in
  let g := withObstacles (ObstacleManager.reset (obstacles g)) g in
  set_terrain (Terrain.constructor initialDraws) g.

(** [startGame()], for a game that is initialized: the call of [animate]
    at its end runs the first frame. *)
Definition startGame (initialDraws : Z -> Terrain.ChunkDraws num)
    (i : Tick num) (g : state num) : state num :=
  let g := resetGame initialDraws g in
  let g := set_isPaused false (set_isRunning true g) in
  animate i g.

(** [togglePause()] *)
Definition togglePause (g : state num) : state num :=
  if negb (isRunning g) then g else set_isPaused (negb (isPaused g)) g.

(** What happens to a game: the start and restart buttons, a frame, a key
    of the player, and Escape. *)
Inductive Event : Type :=
| Start (initialDraws : Z -> Terrain.ChunkDraws num) (i : Tick num)
| Frame (i : Tick num)
| KeyDown (code : Player.KeyCode)
| KeyUp (code : Player.KeyCode)
| Escape.

Definition handle (e : Event) (g : state num) : state num :=
  match e with
  | Start initialDraws i => startGame initialDraws i g
  | Frame i => animate i g
  | KeyDown code => set_player (Player.keydown code (player g)) g
  | KeyUp code => set_player (Player.keyup code (player g)) g
  | Escape => togglePause g
  end.

Definition run (events : list Event) (g : state num) : state num :=
  fold_left (fun g e => handle e g) events g.

End Methods.

Arguments Event num : clear implicits.

End GameLoop.

(** Whether an event starts the game; and that the body of every chunk
    that an event lets the terrain generate is built. *)
Definition is_start {num : Type} (e : GameLoop.Event num) : bool :=
  match e with
  | GameLoop.Start _ _ => true
  | _ => false
  end.

Definition built_event {num : Type} (e : GameLoop.Event num) : Prop :=
  match e with
  | GameLoop.Start initialDraws i =>
      (forall chunkIndex,
         Terrain.physicsBuilt (initialDraws chunkIndex) = true)
      /\ Terrain.physicsBuilt (GameLoop.chunkDraws i) = true
  | GameLoop.Frame i => Terrain.physicsBuilt (GameLoop.chunkDraws i) = true
  | _ => True
  end.

(** The type of the entry of [obstacleTypesData] that an [update] at
    [playerPosition] picks with the draws [d], if it comes to spawn:
    [updateDifficulty] has set [difficultyLevel] from the player's [z]
    before. *)
Definition pickedType {num : Type} `{JsNumber num} (playerPosition : Vec3 num)
    (d : ObstacleManager.Draws num) : ObstacleKind :=
  ObstacleManager.type
    (ObstacleManager.typeData_at (num := num)
       (ObstacleManager.chosenIndex
          (ObstacleManager.level (jsabs (vz playerPosition))) d)).

(** That the draws of the frame of an event do not pick the ice spike. *)
Definition spikeless_event {num : Type} `{JsNumber num}
    (e : GameLoop.Event num) : Prop :=
  match e with
  | GameLoop.Start _ i | GameLoop.Frame i =>
      pickedType (position (GameLoop.stepped i)) (GameLoop.obstacleDraws i)
      <> iceSpike
  | _ => True
  end.

(** What the frames of a game that never throws keep: the terrain bodies
    are those of the window, and the obstacle pool is in order. *)
Definition loop_inv {num : Type} (g : GameLoop.state num) : Prop :=
  Terrain.terrainBodies (GameLoop.terrain g) = chunkIndices (GameLoop.terrain g)
  /\ pool_inv (GameLoop.obstacles g).

Module GameScene.
Local Open Scope float_scope.

(** A frame at 62.5 Hz, [n] frames after the start, with the body left on
    the snow at the start point and an obstacle spawned if possible. *)
Definition tick (elapsed : float) : GameLoop.Tick float :=
  GameLoop.mkTick elapsed
    (mkBody (mkVec3 0 5 0) (mkVec3 0 0 (-50)) (mkVec3 0 0 0) (0, 0, 0, 1))
    Sample.onSnow Sample.ragdoll Sample.ragdoll (Sample.treeDraws 0.1)
    (Terrain.mkChunkDraws 0.5 true).

(** A frame in which the engine leaves the body beyond the side
    boundary. *)
Definition fall (elapsed : float) : GameLoop.Tick float :=
  GameLoop.mkTick elapsed
    (mkBody (mkVec3 600 5 0) (mkVec3 0 0 (-50)) (mkVec3 0 0 0) (0, 0, 0, 1))
    Sample.onSnow Sample.ragdoll Sample.ragdoll (Sample.treeDraws 0.1)
    (Terrain.mkChunkDraws 0.5 true).

(** A frame in which the engine leaves the body beyond the side boundary,
    120 units down the slope. *)
Definition fatal : GameLoop.Tick float :=
  GameLoop.mkTick 0.032
    (mkBody (mkVec3 600 5 (-120)) (mkVec3 0 0 (-50)) (mkVec3 0 0 0)
            (0, 0, 0, 1))
    Sample.onSnow Sample.ragdoll Sample.ragdoll (Sample.treeDraws 0.1)
    (Terrain.mkChunkDraws 0.5 true).

(** A frame, 0.032 s after the start, whose draws pick the ice spike. *)
Definition spike : GameLoop.Tick float :=
  GameLoop.mkTick 0.032
    (mkBody (mkVec3 0 5 0) (mkVec3 0 0 (-50)) (mkVec3 0 0 0) (0, 0, 0, 1))
    Sample.onSnow Sample.ragdoll Sample.ragdoll
    (ObstacleManager.mkDraws 0.1 0.5 iceSpike 0.9 0)
    (Terrain.mkChunkDraws 0.5 true).

(** The game after its first two frames. *)
Definition beforeFall : GameLoop.state float :=
  GameLoop.run Scene.apart
    [GameLoop.Start Sample.allBuilt (tick 0); GameLoop.Frame (tick 0.016)]
    (GameLoop.init Sample.allBuilt).

(** A game: started, one frame, a fall, two more frames, and a restart. *)
Definition game : list (GameLoop.Event float) :=
  [ GameLoop.Start Sample.allBuilt (tick 0);
    GameLoop.Frame (tick 0.016);
    GameLoop.KeyDown Player.KeyA;
    GameLoop.Frame (fall 0.032);
    GameLoop.Frame (tick 0.048);
    GameLoop.Escape;
    GameLoop.Frame (tick 0.064);
    GameLoop.Start Sample.allBuilt (tick 0) ].

End GameScene.

(** * Properties *)

(** ** The noise accessor *)

Section NoiseProperties.
Local Open Scope float_scope.

Lemma octaves_loop_none x y persistence lacunarity scale octaves a :
  (octaves <= 0)%Z ->
  octaves_loop x y persistence lacunarity scale (Z.to_nat octaves) a = a.
Proof.
  intros Hle. replace (Z.to_nat octaves) with 0%nat by lia. reflexivity.
Qed.

(** C3, as the code has it: for [octaves <= 0] the loop body never runs,
    [generateNoise] completes normally and its value is [0 / 0], NaN; no
    error is raised. *)
Theorem generateNoise_nonpositive_octaves_is_nan
    x y octaves persistence lacunarity scale :
  (octaves <= 0)%Z ->
  generateNoise x y octaves persistence lacunarity scale = Normal nan.
Proof.
  intros Hle. unfold generateNoise.
  rewrite octaves_loop_none by assumption. reflexivity.
Qed.

Lemma generateNoise_nonpositive_octaves_is_nan_witness :
  (-3 <= 0)%Z /\ generateNoise 10 20 (-3) 0.5 2 100 = Normal nan.
Proof.
  split; [lia | apply (generateNoise_nonpositive_octaves_is_nan 10 20 (-3)); lia].
Defined.

(** C3 refuted: called with zero octaves, [generateNoise] is not rejected
    with InvalidArgument; it returns NaN. *)
Lemma generateNoise_zero_octaves_not_rejected :
  generateNoise 10 20 0 0.5 2 100 = Normal nan
  /\ generateNoise 10 20 0 0.5 2 100 <> Throw InvalidArgument.
Proof.
  split; [reflexivity | discriminate].
Qed.

(** C4, the failing input: one octave at (50, 50) with scale 100 samples
    the noise at (0.5, 0.5, 0), and the result is -0.25, below 0; with the
    default parameters the result at the same point is negative too. *)
Theorem generateNoise_negative_at_50_50 :
  generateNoise 50 50 1 0.5 2 100 = Normal (-0.25)
  /\ generateNoise_default 50 50 = Normal (-0.12698412698412698).
Proof.
  split; vm_compute; reflexivity.
Qed.

End NoiseProperties.

(** ** The player *)

Section PlayerProperties.
Context {num : Type} `{JsNumber num}.
Local Open Scope js_scope.

Lemma die_dead r (p : Player.state num) :
  Player.isDead p = true -> Player.die r p = p.
Proof.
  intros Hd. unfold Player.die. rewrite Hd. reflexivity.
Qed.

Lemma die_isDead r (p : Player.state num) :
  Player.isDead (Player.die r p) = true.
Proof.
  unfold Player.die. destruct (Player.isDead p) eqn:Hd; simpl; auto.
Qed.

Lemma die_effects_alive r (p : Player.state num) :
  Player.isDead p = false ->
  exists impulse,
    Player.effects (Player.die r p)
    = Player.effects p
        ++ [Player.ApplyImpulse impulse; Player.DispatchEvent "player-died"].
Proof.
  intros Hd. unfold Player.die. rewrite Hd. simpl.
  eexists. rewrite <- app_assoc. reflexivity.
Qed.

Lemma died_signals_app (es1 es2 : list (Player.Effect num)) :
  died_signals (es1 ++ es2) = (died_signals es1 + died_signals es2)%nat.
Proof.
  unfold died_signals. rewrite List.filter_app, length_app. reflexivity.
Qed.

(** C7: from a living player, two calls of [die()] in succession dispatch
    exactly one [player-died] event, and the second call changes nothing:
    health, the dead flag, the body and the log are those left by the
    first. *)
Theorem die_twice_signals_once r1 r2 (p : Player.state num) :
  Player.isDead p = false ->
  died_signals (Player.effects (Player.die r2 (Player.die r1 p)))
  = S (died_signals (Player.effects p))
  /\ Player.die r2 (Player.die r1 p) = Player.die r1 p
  /\ Player.isDead (Player.die r1 p) = true.
Proof.
  intros Hd.
  assert (Hsame : Player.die r2 (Player.die r1 p) = Player.die r1 p)
    by (apply die_dead, die_isDead).
  split; [| split; [exact Hsame | apply die_isDead]].
  rewrite Hsame.
  destruct (die_effects_alive r1 p Hd) as [impulse ->].
  rewrite died_signals_app. unfold died_signals at 2. simpl. lia.
Qed.

(** C10: on a dead player [update] returns at its first statement: the
    state, with its speed, health and flags, and the log of calls to the
    physics engine are unchanged, after one call and after any number of
    calls; [reset()] clears the flag. *)
Theorem update_dead_noop deltaTime ray r calls (p : Player.state num) :
  Player.isDead p = true ->
  Player.update deltaTime ray r p = p
  /\ Player.updates calls p = p
  /\ Player.isDead (Player.reset p) = false.
Proof.
  intros Hd.
  assert (Hone : forall deltaTime ray r, Player.update deltaTime ray r p = p)
    by (intros; unfold Player.update; rewrite Hd; reflexivity).
  split; [apply Hone |]. split; [| reflexivity].
  induction calls as [| c calls IH]; [reflexivity |].
  unfold Player.updates in *. simpl. rewrite Hone. exact IH.
Qed.

(** C2, as the code has it: [moveLeft] is tested first, so with both flags
    set [applyControls] does what it does for left alone (the state differs
    only in the [moveRight] flag itself), and the impulse
    [(-lateralSpeed * deltaTime, 0, 0)] goes to the body whenever that
    product is not 0. *)
Theorem applyControls_left_wins deltaTime (p : Player.state num) :
  Player.moveLeft p = true ->
  Player.applyControls deltaTime p
  = Player.set_moveRight (Player.moveRight p)
      (Player.applyControls deltaTime (Player.set_moveRight false p))
  /\ Player.effects (Player.applyControls deltaTime p)
     = Player.effects p
         ++ (if - Player.lateralSpeed * deltaTime =? lit 0 then []
             else [Player.ApplyImpulse
                     (mkVec3 (- Player.lateralSpeed * deltaTime)
                             (lit 0) (lit 0))]).
Proof.
  intros Hl. destruct p as [sp he de ml mr ju gr bo rz es].
  simpl in Hl. subst ml. unfold Player.applyControls. simpl.
  destruct (- Player.lateralSpeed * deltaTime =? lit 0); simpl.
  - rewrite app_nil_r. split; reflexivity.
  - split; reflexivity.
Qed.

End PlayerProperties.

Section PlayerBinary64.
Local Open Scope float_scope.

Lemma die_twice_signals_once_witness :
  Player.isDead Sample.fresh = false
  /\ died_signals
       (Player.effects
          (Player.die Sample.ragdoll (Player.die Sample.ragdoll Sample.fresh)))
     = 1%nat.
Proof.
  split; [reflexivity |].
  exact (proj1 (die_twice_signals_once Sample.ragdoll Sample.ragdoll
                  Sample.fresh eq_refl)).
Defined.

Lemma update_dead_noop_witness :
  Player.isDead (Player.die Sample.ragdoll Sample.fresh) = true
  /\ Player.update 0.016 Sample.onSnow Sample.ragdoll
       (Player.die Sample.ragdoll Sample.fresh)
     = Player.die Sample.ragdoll Sample.fresh.
Proof.
  split; [reflexivity |].
  exact (proj1 (update_dead_noop 0.016 Sample.onSnow Sample.ragdoll []
                  (Player.die Sample.ragdoll Sample.fresh) eq_refl)).
Defined.

Lemma applyControls_left_wins_witness :
  Player.moveLeft Sample.bothKeys = true
  /\ Player.effects (Player.applyControls 0.016 Sample.bothKeys)
     = Player.effects Sample.bothKeys
         ++ [Player.ApplyImpulse (mkVec3 (-1.28) 0 0)].
Proof.
  split; [reflexivity |].
  exact (proj2 (applyControls_left_wins 0.016 Sample.bothKeys eq_refl)).
Defined.

(** C2 refuted: with both keys held, one [update] of 16 ms hands the
    leftward impulse (-1.28, 0, 0) to the body. *)
Lemma both_keys_lateral_impulse :
  Player.moveLeft Sample.bothKeys = true
  /\ Player.moveRight Sample.bothKeys = true
  /\ impulses
       (Player.effects
          (Player.update 0.016 Sample.onSnow Sample.ragdoll Sample.bothKeys))
     = [mkVec3 (-1.28) 0 0].
Proof.
  repeat split; vm_compute; reflexivity.
Qed.

End PlayerBinary64.

(** *** The speed ramp *)

Section SpeedRamp.
Context {num : Type} `{JsNumber num}.
Local Open Scope js_scope.

Lemma die_speed r (p : Player.state num) :
  Player.speed (Player.die r p) = Player.speed p.
Proof.
  unfold Player.die. destruct (Player.isDead p); reflexivity.
Qed.

Lemma die_health r (p : Player.state num) :
  Player.health (Player.die r p) = Player.health p.
Proof.
  unfold Player.die. destruct (Player.isDead p); reflexivity.
Qed.

Lemma update_speed_alive deltaTime ray r (p : Player.state num) :
  Player.isDead p = false ->
  Player.speed (Player.update deltaTime ray r p) = ramp (Player.speed p).
Proof.
  intros Hd. unfold Player.update. rewrite Hd.
  unfold Player.checkTerrainCollision.
  match goal with |- context [if ?c then _ else _] => destruct c end;
    rewrite ?die_speed; unfold Player.updatePhysics;
    match goal with |- context [if ?c then _ else _] => destruct c end;
    unfold Player.applyControls; simpl;
    match goal with |- context [if negb ?c then _ else _] => destruct c end;
    reflexivity.
Qed.

Lemma update_health deltaTime ray r (p : Player.state num) :
  Player.health (Player.update deltaTime ray r p) = Player.health p.
Proof.
  unfold Player.update. destruct (Player.isDead p); [reflexivity |].
  unfold Player.checkTerrainCollision.
  match goal with |- context [if ?c then _ else _] => destruct c end;
    rewrite ?die_health; unfold Player.updatePhysics;
    match goal with |- context [if ?c then _ else _] => destruct c end;
    unfold Player.applyControls; simpl;
    match goal with |- context [if negb ?c then _ else _] => destruct c end;
    reflexivity.
Qed.

Lemma keydown_fields code (p : Player.state num) :
  Player.speed (Player.keydown code p) = Player.speed p
  /\ Player.health (Player.keydown code p) = Player.health p
  /\ Player.isDead (Player.keydown code p) = Player.isDead p.
Proof.
  destruct code; simpl; auto.
  destruct (negb (Player.isJumping p)); auto.
  unfold Player.jump.
  destruct (negb (Player.isJumping p) && Player.isGrounded p); auto.
Qed.

Lemma keyup_fields code (p : Player.state num) :
  Player.speed (Player.keyup code p) = Player.speed p
  /\ Player.health (Player.keyup code p) = Player.health p
  /\ Player.isDead (Player.keyup code p) = Player.isDead p.
Proof.
  destruct code; simpl; auto.
Qed.

Lemma frame_health (f : Player.Frame num) (p : Player.state num) :
  Player.health (Player.frame f p) = Player.health p.
Proof.
  unfold Player.frame. rewrite update_health. reflexivity.
Qed.

Lemma frame_dead (f : Player.Frame num) (p : Player.state num) :
  Player.isDead p = true -> Player.isDead (Player.frame f p) = true.
Proof.
  intros Hd. unfold Player.frame, Player.update. simpl. rewrite Hd. exact Hd.
Qed.

Lemma frames_dead (fs : list (Player.Frame num)) (p : Player.state num) :
  Player.isDead p = true -> Player.isDead (Player.frames fs p) = true.
Proof.
  revert p. induction fs as [| f fs IH]; intros p Hd; [exact Hd |].
  apply IH, frame_dead, Hd.
Qed.

Lemma iter_ramp_shift (n : nat) (s : num) :
  Nat.iter n ramp (ramp s) = ramp (Nat.iter n ramp s).
Proof.
  induction n as [| n IH]; simpl; [reflexivity | now rewrite IH].
Qed.

(** While the player lives, [n] frames apply the ramp [n] times. *)
Lemma frames_speed (fs : list (Player.Frame num)) (p : Player.state num) :
  Player.isDead (Player.frames fs p) = false ->
  Player.speed (Player.frames fs p) = Nat.iter (length fs) ramp (Player.speed p).
Proof.
  revert p. induction fs as [| f fs IH]; intros p Halive; [reflexivity |].
  assert (Hp : Player.isDead p = false).
  { destruct (Player.isDead p) eqn:Hd; [| reflexivity].
    rewrite (frames_dead (f :: fs) p Hd) in Halive. discriminate. }
  change (Player.frames (f :: fs) p) with (Player.frames fs (Player.frame f p)) in *.
  rewrite (IH _ Halive). unfold Player.frame.
  rewrite update_speed_alive by exact Hp.
  simpl. apply iter_ramp_shift.
Qed.

End SpeedRamp.

Section SpeedRampBinary64.
Local Open Scope float_scope.

Lemma ramp_1250 : Nat.iter 1250 ramp 50 = 299.99999999999136.
Proof. vm_compute. reflexivity. Qed.

Lemma ramp_1251 : Nat.iter 1251 ramp 50 = 300.
Proof. vm_compute. reflexivity. Qed.

Lemma ramp_from_1251 (n : nat) : Nat.iter (n + 1251) ramp 50 = 300.
Proof.
  induction n as [| n IH]; [exact ramp_1251 |].
  simpl. rewrite IH. vm_compute. reflexivity.
Qed.

Lemma ramp_bounded_spec (n k : nat) (s : float) :
  ramp_bounded n s = true -> (k <= n)%nat ->
  (Nat.iter k ramp s <=? 300) = true.
Proof.
  revert k s. induction n as [| n IH]; intros k s Hb Hk.
  - replace k with 0%nat by lia. exact Hb.
  - simpl in Hb. apply andb_true_iff in Hb as [Hs Hb].
    destruct k as [| k]; [exact Hs |].
    change (Nat.iter (S k) ramp s) with (ramp (Nat.iter k ramp s)).
    rewrite <- iter_ramp_shift. apply IH; [exact Hb | lia].
Qed.

Lemma ramp_bounded_1250 : ramp_bounded 1250 50 = true.
Proof. vm_compute. reflexivity. Qed.

Lemma ramp_at_most_300 (n : nat) : (Nat.iter n ramp 50 <=? 300) = true.
Proof.
  destruct (Nat.lt_ge_cases n 1251) as [Hlt | Hge].
  - apply (ramp_bounded_spec 1250); [exact ramp_bounded_1250 | lia].
  - replace n with (n - 1251 + 1251)%nat by lia.
    rewrite ramp_from_1251. reflexivity.
Qed.

(** C9, as the code has it: starting from the speed 50 that [reset()] sets,
    a player that is still alive after 1250 updates has the binary64 speed
    299.99999999999136, because the rounding errors of adding 0.2 add up; the
    clamp gives exactly 300 at the 1251st update and at every later one; and
    at no update is the speed above 300. *)
Theorem speed_ramp_reaches_300_at_1251
    (fs : list (Player.Frame float)) (p : Player.state float) :
  Player.isDead (Player.frames fs (Player.reset p)) = false ->
  (length fs = 1250%nat ->
   Player.speed (Player.frames fs (Player.reset p)) = 299.99999999999136)
  /\ ((1251 <= length fs)%nat ->
      Player.speed (Player.frames fs (Player.reset p)) = 300)
  /\ (Player.speed (Player.frames fs (Player.reset p)) <=? 300) = true.
Proof.
  intros Halive. rewrite (frames_speed fs _ Halive).
  change (Player.speed (Player.reset p)) with 50.
  split; [| split].
  - intros ->. exact ramp_1250.
  - intros Hlen. replace (length fs) with (length fs - 1251 + 1251)%nat by lia.
    apply ramp_from_1251.
  - apply ramp_at_most_300.
Qed.

Lemma speed_ramp_reaches_300_at_1251_witness :
  Player.isDead (Player.frames (repeat Sample.idle 1251) Sample.fresh) = false
  /\ Player.speed (Player.frames (repeat Sample.idle 1251) Sample.fresh) = 300.
Proof.
  assert (Halive :
    Player.isDead (Player.frames (repeat Sample.idle 1251) Sample.fresh) = false)
    by (vm_compute; reflexivity).
  split; [exact Halive |].
  apply (proj1 (proj2 (speed_ramp_reaches_300_at_1251
                         (repeat Sample.idle 1251) Player.constructor Halive))).
  rewrite repeat_length. lia.
Defined.

(** C9 refuted: after exactly 1250 updates from the initial speed the player
    is alive and its speed is 299.99999999999136, not 300. *)
Lemma speed_after_1250_updates_is_not_300 :
  Player.isDead (Player.frames (repeat Sample.idle 1250) Sample.fresh) = false
  /\ Player.speed (Player.frames (repeat Sample.idle 1250) Sample.fresh)
     = 299.99999999999136
  /\ (Player.speed (Player.frames (repeat Sample.idle 1250) Sample.fresh)
      =? 300) = false.
Proof.
  repeat split; vm_compute; reflexivity.
Qed.

End SpeedRampBinary64.

(** *** Health, over exact arithmetic *)

Section Health.
Local Open Scope Q_scope.

Lemma leb_exact (a b : Q) : leb a b = true <-> a <= b.
Proof. apply Qle_bool_iff. Qed.

Lemma ltb_exact (a b : Q) : ltb a b = true <-> a < b.
Proof.
  simpl. rewrite negb_true_iff. split.
  - intros Hb. apply Qnot_le_lt. intros Hle.
    apply Qle_bool_iff in Hle. congruence.
  - intros Hlt. destruct (Qle_bool b a) eqn:Hb; [| reflexivity].
    apply Qle_bool_iff in Hb. exfalso. apply (Qlt_not_le _ _ Hlt Hb).
Qed.

Lemma takeDamage_health r (amount : Q) (p : Player.state Q) :
  Player.health (Player.takeDamage r amount p) = Player.health p - amount.
Proof.
  unfold Player.takeDamage.
  match goal with |- context [if ?c then _ else _] => destruct c end;
    rewrite ?die_health; reflexivity.
Qed.

Lemma takeDamage_isDead r (amount : Q) (p : Player.state Q) :
  Player.isDead (Player.takeDamage r amount p) = true
  <-> Player.isDead p = true \/ Player.health p - amount <= 0.
Proof.
  unfold Player.takeDamage.
  destruct (leb (Player.health (Player.set_health (Player.health p - amount)%js p))
                (lit 0)) eqn:Hle.
  - rewrite die_isDead. apply leb_exact in Hle. simpl in Hle. tauto.
  - simpl. split; [tauto |]. intros [Hd | Hneg]; [exact Hd |].
    apply leb_exact in Hneg. simpl in Hle, Hneg. unfold sub in Hle. simpl in Hle.
    congruence.
Qed.

Lemma frame_inv (f : Player.Frame Q) (p : Player.state Q) :
  player_inv p -> player_inv (Player.frame f p).
Proof.
  intros (Hspeed & Hhealth & Halive). unfold player_inv.
  rewrite frame_health. split; [| split; [exact Hhealth |]].
  - unfold Player.frame.
    destruct (Player.isDead p) eqn:Hd.
    + unfold Player.update. simpl. rewrite Hd. exact Hspeed.
    + rewrite update_speed_alive by exact Hd. unfold ramp. simpl.
      apply Q.min_glb; [unfold Qle; simpl; lia | lra].
  - intros Hd. apply Halive.
    destruct (Player.isDead p) eqn:Hp; [| reflexivity].
    rewrite (frame_dead f p Hp) in Hd. discriminate.
Qed.

Lemma takeDamage_inv r (amount : Q) (p : Player.state Q) :
  0 <= amount -> player_inv p ->
  player_inv (Player.takeDamage r amount p)
  /\ Player.health (Player.takeDamage r amount p) <= Player.health p.
Proof.
  intros Hamount (Hspeed & Hhealth & Halive).
  assert (Hs : Player.speed (Player.takeDamage r amount p) = Player.speed p).
  { unfold Player.takeDamage.
    match goal with |- context [if ?c then _ else _] => destruct c end;
      rewrite ?die_speed; reflexivity. }
  unfold player_inv. rewrite Hs, takeDamage_health.
  split; [| lra]. split; [exact Hspeed |]. split; [lra |].
  intros Hd. apply Qnot_le_lt. intros Hle.
  assert (Hdead : Player.isDead (Player.takeDamage r amount p) = true)
    by (apply takeDamage_isDead; right; exact Hle).
  congruence.
Qed.

Lemma checkObstacleCollisions_inv distanceTo r
    (obstacles : list (Obstacle Q)) (p : Player.state Q) :
  Forall (fun obstacle => 0 <= damageMultiplier obstacle) obstacles ->
  player_inv p ->
  match Game.checkObstacleCollisions distanceTo r obstacles p with
  | Normal p' => player_inv p' /\ Player.health p' <= Player.health p
  | Throw _ => True
  end.
Proof.
  intros Hall Hinv. induction Hall as [| obstacle rest Hmult _ IH]; simpl.
  - split; [exact Hinv | lra].
  - unfold Player.checkObstacleCollision.
    destruct (obstacleBody obstacle) as [obstaclePos |]; [| exact I].
    match goal with |- context [if ?c then _ else _] => destruct c end;
      [| exact IH].
    apply takeDamage_inv; [| exact Hinv].
    destruct Hinv as (Hspeed & _). simpl.
    apply Qmult_le_0_compat; [apply Qmult_le_0_compat |]; auto.
    unfold Qle; simpl; lia.
Qed.

Lemma handle_inv distanceTo (e : Game.Event) (p : Player.state Q) :
  nonneg_damage e -> player_inv p ->
  player_inv (Game.handle distanceTo e p)
  /\ (e <> Game.ResetGame ->
      Player.health (Game.handle distanceTo e p) <= Player.health p).
Proof.
  intros He Hinv. destruct e as [code | code | f | r obstacles |]; simpl.
  - destruct (keydown_fields code p) as (Hs & Hh & Hd).
    unfold player_inv. rewrite Hs, Hh, Hd. split; [exact Hinv | lra].
  - destruct (keyup_fields code p) as (Hs & Hh & Hd).
    unfold player_inv. rewrite Hs, Hh, Hd. split; [exact Hinv | lra].
  - split; [apply frame_inv, Hinv | rewrite frame_health; lra].
  - destruct (negb (Player.isDead p)); [| split; [exact Hinv | lra]].
    pose proof (checkObstacleCollisions_inv distanceTo r obstacles p He Hinv)
      as Hc.
    destruct (Game.checkObstacleCollisions distanceTo r obstacles p)
      as [p' | e]; [tauto | split; [exact Hinv | lra]].
  - split; [| congruence]. unfold player_inv. simpl.
    split; [| split; [| intros _; reflexivity]]; unfold Qle; simpl; lia.
Qed.

Lemma play_inv distanceTo (events : list Game.Event) (p : Player.state Q) :
  Forall nonneg_damage events -> player_inv p ->
  player_inv (Game.play distanceTo events p).
Proof.
  intros Hall. revert p. induction Hall as [| e events He _ IH]; intros p Hinv;
    [exact Hinv |].
  apply IH, handle_inv; assumption.
Qed.

Lemma constructor_player_inv : player_inv Player.constructor.
Proof.
  unfold player_inv. simpl.
  split; [| split; [| intros _; reflexivity]]; unfold Qle; simpl; lia.
Qed.

(** C6, as the code has it: in every game from the constructor (keys,
    frames, collision checks, resets; damage multipliers not negative) health
    is at most 100 and positive while the player lives, and no event but a
    reset increases it.  A [takeDamage] call with a non-negative amount
    subtracts the amount, and nothing clamps the result at 0: it is
    [health - amount], negative when the amount exceeds the health left, and
    the player is dead afterwards exactly when it was dead before or the new
    health is at most 0. *)
Theorem health_at_most_100_not_clamped
    (distanceTo : Vec3 Q -> Vec3 Q -> Q) (events : list Game.Event)
    r (amount : Q) :
  Forall nonneg_damage events ->
  0 <= amount ->
  Player.health (Game.play distanceTo events Player.constructor) <= 100
  /\ (Player.isDead (Game.play distanceTo events Player.constructor) = false ->
      0 < Player.health (Game.play distanceTo events Player.constructor))
  /\ (forall e,
        nonneg_damage e -> e <> Game.ResetGame ->
        Player.health
          (Game.handle distanceTo e
             (Game.play distanceTo events Player.constructor))
        <= Player.health (Game.play distanceTo events Player.constructor))
  /\ Player.health
       (Player.takeDamage r amount
          (Game.play distanceTo events Player.constructor))
     == Player.health (Game.play distanceTo events Player.constructor) - amount
  /\ Player.health
       (Player.takeDamage r amount
          (Game.play distanceTo events Player.constructor))
     <= Player.health (Game.play distanceTo events Player.constructor)
  /\ (Player.isDead
        (Player.takeDamage r amount
           (Game.play distanceTo events Player.constructor)) = true
      <-> Player.isDead (Game.play distanceTo events Player.constructor) = true
          \/ Player.health
               (Player.takeDamage r amount
                  (Game.play distanceTo events Player.constructor)) <= 0).
Proof.
  intros Hall Hamount.
  pose proof (play_inv distanceTo events _ Hall constructor_player_inv) as Hinv.
  set (p := Game.play distanceTo events Player.constructor) in *.
  rewrite takeDamage_health, takeDamage_isDead.
  destruct Hinv as (Hspeed & Hhealth & Halive).
  split; [exact Hhealth |]. split; [exact Halive |].
  split; [| split; [reflexivity | split; [lra | tauto]]].
  intros e He Hreset.
  apply (handle_inv distanceTo e p He); [| exact Hreset].
  repeat split; assumption.
Qed.

Lemma health_at_most_100_not_clamped_witness :
  Forall nonneg_damage SampleExact.oneHit
  /\ 0 <= 45
  /\ Player.health
       (Game.play SampleExact.touching SampleExact.oneHit Player.constructor)
     <= 100
  /\ Player.health
       (Player.takeDamage SampleExact.ragdoll 45
          (Game.play SampleExact.touching SampleExact.oneHit Player.constructor))
     == Player.health
          (Game.play SampleExact.touching SampleExact.oneHit Player.constructor)
        - 45.
Proof.
  assert (Hall : Forall nonneg_damage SampleExact.oneHit).
  { repeat constructor. simpl. unfold Qle. simpl. lia. }
  assert (Hamount : 0 <= 45) by (unfold Qle; simpl; lia).
  pose proof (health_at_most_100_not_clamped SampleExact.touching
                SampleExact.oneHit SampleExact.ragdoll 45 Hall Hamount)
    as (Hhealth & _ & _ & Hsub & _).
  repeat (split; [assumption |]). exact Hsub.
Defined.

End Health.

Section HealthBinary64.
Local Open Scope float_scope.

(** C6 refuted: three hits of 45 (an ice spike met at full speed:
    300 * 1.5 * 0.1) take a fresh player from 100 to 55, to 10 and to -35;
    health has left the range 0 to 100. *)
Lemma health_negative_after_three_hits :
  Player.health
    (Player.takeDamage Sample.ragdoll 45
       (Player.takeDamage Sample.ragdoll 45
          (Player.takeDamage Sample.ragdoll 45 Sample.fresh)))
  = -35
  /\ (-35 <? 0) = true.
Proof.
  split; vm_compute; reflexivity.
Qed.

End HealthBinary64.

(** ** The difficulty curve, over exact arithmetic *)

Section Difficulty.
Local Open Scope Q_scope.





End Difficulty.

(** ** The terrain streamer, over exact arithmetic *)

Section TerrainProperties.
Variable oracle : Z -> Terrain.ChunkDraws Q.

Lemma addChunk_spec (i : Z) (t : Terrain.state) :
  exists material,
    Terrain.terrainChunks (Terrain.addChunk oracle i t)
    = Terrain.terrainChunks t ++ [Terrain.mkChunk i material]
    /\ Terrain.currentChunkIndex (Terrain.addChunk oracle i t)
       = Terrain.currentChunkIndex t
    /\ (Terrain.terrainBodies (Terrain.addChunk oracle i t)
        = Terrain.terrainBodies t ++ [i]
        \/ (Terrain.terrainBodies (Terrain.addChunk oracle i t)
            = Terrain.terrainBodies t
            /\ Terrain.physicsBuilt (oracle i) = false)).
Proof.
  unfold Terrain.addChunk, Terrain.generateChunk, Terrain.addTerrainPhysics.
  destruct (Terrain.physicsBuilt (oracle i)) eqn:Hb; simpl;
    eexists; repeat split; auto.
Qed.

Lemma generate_test_exact (a c n : Z) :
  leb (add (ofZ c) (ofZ n)) (add (inject_Z a) (lit 3)) = (c + n <=? a + 3)%Z.
Proof.
  unfold ofZ. cbn [leb add lit exact].
  change 3%Q with (inject_Z 3). rewrite <- !inject_Z_plus.
  destruct (Z.leb_spec (c + n) (a + 3)) as [Hle | Hgt].
  - apply Qle_bool_iff. rewrite <- Zle_Qle. exact Hle.
  - destruct (Qle_bool (inject_Z (c + n)) (inject_Z (a + 3))) eqn:Hq;
      [| reflexivity].
    apply Qle_bool_iff in Hq. rewrite <- Zle_Qle in Hq. lia.
Qed.

Lemma evict_test_exact (a c : Z) :
  ltb (add (ofZ c) (lit 2)) (inject_Z a) = (c + 2 <? a)%Z.
Proof.
  unfold ofZ. cbn [ltb add lit exact].
  change 2%Q with (inject_Z 2). rewrite <- !inject_Z_plus.
  destruct (Z.ltb_spec (c + 2) a) as [Hlt | Hge].
  - destruct (Qle_bool (inject_Z a) (inject_Z (c + 2))) eqn:Hq;
      [| reflexivity].
    apply Qle_bool_iff in Hq. rewrite <- Zle_Qle in Hq. lia.
  - apply negb_false_iff, Qle_bool_iff. rewrite <- Zle_Qle. exact Hge.
Qed.

(** [update] with its two tests written over the integers. *)
Lemma update_exact (playerPosition : Vec3 Q) (t : Terrain.state) :
  Terrain.update oracle playerPosition t
  = let a := Qfloor (- vz playerPosition / 500) in
    let t1 :=
      if (Terrain.currentChunkIndex t + chunkCount t <=? a + 3)%Z
      then Terrain.generateNextChunk oracle t else t in
    if (chunkCount t1 >? Terrain.visibleChunks)%Z
       && (Terrain.currentChunkIndex t1 + 2 <? a)%Z
    then Terrain.removeOldestChunk t1 else Normal t1.
Proof.
  unfold Terrain.update. cbn [jsfloor neg div exact Terrain.chunkSize lit].
  unfold Terrain.chunkSize. cbn [lit exact].
  rewrite generate_test_exact. cbv zeta.
  rewrite evict_test_exact. reflexivity.
Qed.

Lemma contiguous_head (c : Terrain.Chunk) (cs : list Terrain.Chunk) (m n : Z) :
  map Terrain.chunkIndex (c :: cs) = seqZ m n ->
  Terrain.chunkIndex c = m
  /\ map Terrain.chunkIndex cs = seqZ (m + 1) (Z.of_nat (length cs)).
Proof.
  intros Heq.
  assert (Hn : n = Z.of_nat (S (length cs))).
  { apply (f_equal length) in Heq.
    rewrite length_seqZ in Heq. simpl in Heq. rewrite length_map in Heq. lia. }
  subst n. rewrite seqZ_cons in Heq by lia.
  simpl in Heq. inversion Heq as [[Hc Hcs]]. split; [reflexivity |].
  rewrite Hcs. f_equal; lia.
Qed.

Lemma contiguous_snoc (cs : list Terrain.Chunk) (m : Z) material :
  map Terrain.chunkIndex cs = seqZ m (Z.of_nat (length cs)) ->
  map Terrain.chunkIndex
      (cs ++ [Terrain.mkChunk (m + Z.of_nat (length cs)) material])
  = seqZ m (Z.of_nat (length (cs ++ [Terrain.mkChunk (m + Z.of_nat (length cs)) material]))).
Proof.
  intros Heq. rewrite map_app, length_app, Nat.add_1_r, seqZ_S, Heq.
  reflexivity.
Qed.


Lemma removeOldestChunk_spec (c : Terrain.Chunk) (cs : list Terrain.Chunk)
    (t : Terrain.state) :
  Terrain.terrainChunks t = c :: cs ->
  match Terrain.removeOldestChunk t with
  | Normal t' =>
      Terrain.terrainChunks t' = cs
      /\ Terrain.currentChunkIndex t' = (Terrain.currentChunkIndex t + 1)%Z
      /\ length (Terrain.terrainBodies t) = S (length (Terrain.terrainBodies t'))
  | Throw e => e = TypeError /\ Terrain.terrainBodies t = []
  end.
Proof.
  intros Hcs. unfold Terrain.removeOldestChunk. rewrite Hcs. simpl.
  destruct (Terrain.terrainBodies t) as [| b bs]; simpl; auto.
Qed.

(** One [update] keeps the invariant, moves the window only at its two
    edges, and never shrinks a window of [visibleChunks + 1] chunks. *)
Lemma update_step (playerPosition : Vec3 Q) (t : Terrain.state) :
  streamer_inv oracle t ->
  match Terrain.update oracle playerPosition t with
  | Normal t' =>
      streamer_inv oracle t' /\ streamed t t'
      /\ (chunkCount t = (Terrain.visibleChunks + 1)%Z ->
          chunkCount t' = (Terrain.visibleChunks + 1)%Z)
  | Throw e => e = TypeError /\ exists i, Terrain.physicsBuilt (oracle i) = false
  end.
Proof.
  rewrite update_exact. cbv zeta.
  generalize (Qfloor (- vz playerPosition / 500)). intros a.
  unfold streamer_inv, streamed, chunkIndices, chunkCount, Terrain.visibleChunks.
  intros (Hcontig & Hcount & Hbodies).
  destruct (Terrain.currentChunkIndex t
            + Z.of_nat (length (Terrain.terrainChunks t)) <=? a + 3)%Z eqn:Hgen.
  - (* a chunk is generated *)
    unfold Terrain.generateNextChunk.
    destruct (addChunk_spec
                (Terrain.currentChunkIndex t
                 + Z.of_nat (length (Terrain.terrainChunks t))) t)
      as (material & Hchunks & Hcur & Hb).
    set (t1 := Terrain.addChunk oracle _ t) in *. clearbody t1.
    assert (Hcontig1 :
      map Terrain.chunkIndex (Terrain.terrainChunks t1)
      = seqZ (Terrain.currentChunkIndex t1)
             (Z.of_nat (length (Terrain.terrainChunks t1)))).
    { rewrite Hchunks, Hcur. apply contiguous_snoc, Hcontig. }
    assert (Hlen1 : length (Terrain.terrainChunks t1)
                    = S (length (Terrain.terrainChunks t)))
      by (rewrite Hchunks, length_app; simpl; lia).
    assert (Hbodies1 :
      length (Terrain.terrainBodies t1) = length (Terrain.terrainChunks t1)
      \/ exists i, Terrain.physicsBuilt (oracle i) = false).
    { destruct Hb as [Hb | [_ Hb]]; [| right; eauto].
      destruct Hbodies as [Hbodies | Hbodies]; [left | right; exact Hbodies].
      rewrite Hb, length_app, Hlen1, Hbodies. simpl. lia. }
    rewrite Hcur.
    destruct ((Z.of_nat (length (Terrain.terrainChunks t1)) >? 5)%Z
              && (Terrain.currentChunkIndex t + 2 <? a)%Z) eqn:Hev.
    + (* and the oldest one is evicted *)
      destruct (Terrain.terrainChunks t1) as [| c1 cs1] eqn:Hcs1;
        [simpl in Hlen1; lia |].
      pose proof (removeOldestChunk_spec c1 cs1 t1 Hcs1) as Hrem.
      destruct (contiguous_head _ _ _ _ Hcontig1) as [Hc1 Htail1].
      simpl length in Hlen1.
      destruct (Terrain.removeOldestChunk t1) as [t2 | e].
      * destruct Hrem as (Hchunks2 & Hcur2 & Hb2).
        rewrite Hchunks2, Hcur2, Hcur.
        split; [| split].
        -- split; [rewrite <- Hcur; exact Htail1 |].
           split; [lia |].
           destruct Hbodies1 as [Hbodies1 | Hbodies1];
             [left | right; exact Hbodies1].
           simpl length in Hbodies1. lia.
        -- exists [Terrain.mkChunk
                     (Terrain.currentChunkIndex t
                      + Z.of_nat (length (Terrain.terrainChunks t))) material],
                  [c1].
           split; [symmetry; exact Hchunks |].
           split; [right; eauto |]. split; [| reflexivity].
           right. exists (Terrain.material c1). destruct c1; simpl in *.
           congruence.
        -- intros Hsix. lia.
      * destruct Hrem as [-> Hempty]. split; [reflexivity |].
        destruct Hbodies1 as [Hbodies1 | Hbodies1]; [| exact Hbodies1].
        rewrite Hempty in Hbodies1. discriminate.
    + (* and nothing is evicted: the window had [visibleChunks] chunks *)
      apply andb_false_iff in Hev.
      assert (Hfive : Z.of_nat (length (Terrain.terrainChunks t)) = 5%Z) by lia.
      split; [| split].
      * split; [exact Hcontig1 |]. split; [| exact Hbodies1]. lia.
      * exists [Terrain.mkChunk
                  (Terrain.currentChunkIndex t
                   + Z.of_nat (length (Terrain.terrainChunks t))) material], [].
        simpl. split; [symmetry; exact Hchunks |].
        split; [right; eauto |]. split; [left; reflexivity |]. lia.
      * lia.
  - (* no chunk is generated, and then none is evicted *)
    assert (Hev : (Z.of_nat (length (Terrain.terrainChunks t)) >? 5)%Z
                  && (Terrain.currentChunkIndex t + 2 <? a)%Z = false)
      by (apply andb_false_iff; lia).
    rewrite Hev. split; [| split].
    + repeat split; assumption.
    + exists [], []. rewrite app_nil_r. simpl.
      split; [reflexivity |]. split; [left; reflexivity |].
      split; [left; reflexivity |]. lia.
    + tauto.
Qed.

Lemma addChunk_initial (n : Z) (t : Terrain.state) :
  chunkIndices t = seqZ 0 n
  /\ Terrain.currentChunkIndex t = 0%Z
  /\ chunkCount t = n
  /\ (length (Terrain.terrainBodies t) = length (Terrain.terrainChunks t)
      \/ exists i, Terrain.physicsBuilt (oracle i) = false) ->
  chunkIndices (Terrain.addChunk oracle n t) = seqZ 0 (n + 1)
  /\ Terrain.currentChunkIndex (Terrain.addChunk oracle n t) = 0%Z
  /\ chunkCount (Terrain.addChunk oracle n t) = (n + 1)%Z
  /\ (length (Terrain.terrainBodies (Terrain.addChunk oracle n t))
      = length (Terrain.terrainChunks (Terrain.addChunk oracle n t))
      \/ exists i, Terrain.physicsBuilt (oracle i) = false).
Proof.
  unfold chunkIndices, chunkCount. intros (Hcontig & Hcur & Hcount & Hbodies).
  destruct (addChunk_spec n t) as (material & Hchunks & Hcur1 & Hb).
  set (t1 := Terrain.addChunk oracle n t) in *. clearbody t1.
  rewrite Hchunks, Hcur1, length_app, map_app, Hcontig.
  split; [| split; [exact Hcur | split; [simpl; lia |]]].
  - subst n.
    replace (Z.of_nat (length (Terrain.terrainChunks t)) + 1)%Z
      with (Z.of_nat (S (length (Terrain.terrainChunks t)))) by lia.
    rewrite seqZ_S. reflexivity.
  - destruct Hb as [Hb | [_ Hb]]; [| right; eauto].
    destruct Hbodies as [Hbodies | Hbodies]; [left | right; exact Hbodies].
    rewrite Hb, length_app, Hbodies. reflexivity.
Qed.

Lemma constructor_inv : streamer_inv oracle (Terrain.constructor oracle).
Proof.
  unfold Terrain.constructor, Terrain.generateInitialChunks.
  change (seqZ 0 Terrain.visibleChunks) with [0; 1; 2; 3; 4]%Z.
  cbn [fold_left].
  match goal with
  | |- streamer_inv _ ?t =>
      assert (Hfive : chunkIndices t = seqZ 0 5
                      /\ Terrain.currentChunkIndex t = 0%Z
                      /\ chunkCount t = 5%Z
                      /\ (length (Terrain.terrainBodies t)
                          = length (Terrain.terrainChunks t)
                          \/ exists i, Terrain.physicsBuilt (oracle i) = false))
  end.
  { apply (addChunk_initial 4), (addChunk_initial 3), (addChunk_initial 2),
      (addChunk_initial 1), (addChunk_initial 0).
    repeat split; auto. }
  destruct Hfive as (Hcontig & Hcur & Hcount & Hbodies).
  unfold streamer_inv. rewrite Hcontig, Hcur, Hcount.
  split; [reflexivity |]. split; [left; reflexivity | exact Hbodies].
Qed.

Lemma updates_inv (playerPositions : list (Vec3 Q)) (t : Terrain.state) :
  streamer_inv oracle t ->
  match Terrain.updates oracle playerPositions t with
  | Normal t' => streamer_inv oracle t'
  | Throw e => e = TypeError /\ exists i, Terrain.physicsBuilt (oracle i) = false
  end.
Proof.
  revert t. induction playerPositions as [| playerPosition rest IH];
    intros t Hinv; [exact Hinv |].
  simpl. pose proof (update_step playerPosition t Hinv) as Hstep.
  destruct (Terrain.update oracle playerPosition t) as [t' | e];
    [apply IH, Hstep | exact Hstep].
Qed.

(** C1, as the code has it: in every run of the streamer from its
    constructor, after each completed [update] the chunk indices are the
    contiguous ascending range that starts at [currentChunkIndex], and the
    window holds [visibleChunks] or [visibleChunks + 1] chunks; an [update]
    appends at most one chunk, at the leading edge, evicts at most one, at
    the trailing edge, and a window of [visibleChunks + 1] chunks stays that
    long.  A run stops early only with the TypeError of [removeOldestChunk],
    after the construction of some terrain body has failed. *)
Theorem chunks_contiguous_five_or_six (playerPositions : list (Vec3 Q)) :
  match Terrain.updates oracle playerPositions (Terrain.constructor oracle) with
  | Normal t =>
      chunkIndices t = seqZ (Terrain.currentChunkIndex t) (chunkCount t)
      /\ (chunkCount t = Terrain.visibleChunks
          \/ chunkCount t = (Terrain.visibleChunks + 1)%Z)
      /\ (forall playerPosition t',
            Terrain.update oracle playerPosition t = Normal t' ->
            streamed t t'
            /\ (chunkCount t = (Terrain.visibleChunks + 1)%Z ->
                chunkCount t' = (Terrain.visibleChunks + 1)%Z))
  | Throw e => e = TypeError /\ exists i, Terrain.physicsBuilt (oracle i) = false
  end.
Proof.
  pose proof (updates_inv playerPositions _ constructor_inv) as Hrun.
  destruct (Terrain.updates oracle playerPositions (Terrain.constructor oracle))
    as [t | e]; [| exact Hrun].
  destruct Hrun as (Hcontig & Hcount & Hbodies).
  split; [exact Hcontig |]. split; [exact Hcount |].
  intros playerPosition t' Hupdate.
  pose proof (update_step playerPosition t (conj Hcontig (conj Hcount Hbodies)))
    as Hstep.
  rewrite Hupdate in Hstep. tauto.
Qed.

End TerrainProperties.

Section TerrainBinary64.
Local Open Scope float_scope.

(** C1 refuted: while the player is in chunks 0 and 1 the window is the one
    of the constructor; when the player enters chunk 2 (z = -1000) [update]
    appends chunk 5 and evicts nothing: the window holds the six chunks 0 to
    5, not [visibleChunks] = 5. *)
Lemma six_chunks_after_first_update :
  exists t,
    Terrain.updates Sample.allBuilt Sample.downTheSlope
      (Terrain.constructor Sample.allBuilt) = Normal t
    /\ chunkIndices t = [0; 1; 2; 3; 4; 5]%Z
    /\ Terrain.currentChunkIndex t = 0%Z
    /\ chunkCount t = 6%Z.
Proof.
  eexists. split; [vm_compute; reflexivity |].
  repeat split.
Qed.

End TerrainBinary64.

(** ** The avoided counter *)

Section ObstacleProperties.
Context {num : Type} `{JsNumber num}.

Lemma quiet_refl (m : ObstacleManager.state num) : quiet m m.
Proof.
  split; [reflexivity |]. split; [| reflexivity].
  exists []. rewrite app_nil_r. auto.
Qed.

Lemma quiet_trans (m1 m2 m3 : ObstacleManager.state num) :
  quiet m1 m2 -> quiet m2 m3 -> quiet m1 m3.
Proof.
  intros (Ha & (es & He & Hq) & Hf) (Ha' & (es' & He' & Hq') & Hf').
  split; [congruence |]. split; [| intros o; rewrite Hf'; apply Hf].
  exists (es ++ es'). rewrite He', He, app_assoc. split; [reflexivity |].
  apply Forall_app; auto.
Qed.

Lemma countedSinceSpawn_snoc o es e :
  countedSinceSpawn o (es ++ [e])
  = match e with
    | ObstacleManager.SceneAdd o' =>
        if Nat.eqb o' o then 0%nat else countedSinceSpawn o es
    | ObstacleManager.ScoreText o' _ =>
        if Nat.eqb o' o then S (countedSinceSpawn o es)
        else countedSinceSpawn o es
    | _ => countedSinceSpawn o es
    end.
Proof.
  unfold countedSinceSpawn. rewrite fold_left_app. reflexivity.
Qed.

Lemma countedSinceSpawn_quiet o es es' :
  Forall quiet_effect es' ->
  countedSinceSpawn o (es ++ es') = countedSinceSpawn o es.
Proof.
  induction es' as [| e es' IH] using rev_ind; intros Hq.
  - rewrite app_nil_r. reflexivity.
  - apply Forall_app in Hq as [Hq He]. apply Forall_inv in He.
    rewrite app_assoc, countedSinceSpawn_snoc, IH by exact Hq.
    destruct e; simpl in He; tauto.
Qed.

Lemma writesSinceReset_snoc es e :
  writesSinceReset (es ++ [e])
  = match e with
    | ObstacleManager.ScoreText _ _ => S (writesSinceReset es)
    | ObstacleManager.ScoreZero => 0%nat
    | _ => writesSinceReset es
    end.
Proof.
  unfold writesSinceReset. rewrite fold_left_app. reflexivity.
Qed.

Lemma writesSinceReset_quiet es es' :
  Forall quiet_effect es' ->
  writesSinceReset (es ++ es') = writesSinceReset es.
Proof.
  induction es' as [| e es' IH] using rev_ind; intros Hq.
  - rewrite app_nil_r. reflexivity.
  - apply Forall_app in Hq as [Hq He]. apply Forall_inv in He.
    rewrite app_assoc, writesSinceReset_snoc, IH by exact Hq.
    destruct e; simpl in He; tauto.
Qed.

Lemma quiet_inv (m m' : ObstacleManager.state num) :
  quiet m m' -> counted_once_inv m -> counted_once_inv m'.
Proof.
  intros (Ha & (es & He & Hq) & Hf) (Hscore & Hcount).
  split.
  - rewrite Ha, He, writesSinceReset_quiet by exact Hq. exact Hscore.
  - intros o. rewrite He, countedSinceSpawn_quiet by exact Hq.
    destruct (Hcount o) as [Hle Hclear]. split; [exact Hle |].
    intros ob' Hob' Hflag. specialize (Hf o). rewrite Hob' in Hf. simpl in Hf.
    destruct (ObstacleManager.objects m !! o) as [ob |] eqn:Hob;
      [| discriminate].
    apply (Hclear ob eq_refl). simpl in Hf. congruence.
Qed.

(** *** The quiet steps *)

Lemma modify_objects_lookup o f (m : ObstacleManager.state num) o' :
  ObstacleManager.objects (ObstacleManager.modify o f m) !! o'
  = if decide (o' = o) then f <$> (ObstacleManager.objects m !! o)
    else ObstacleManager.objects m !! o'.
Proof.
  unfold ObstacleManager.modify.
  destruct (ObstacleManager.objects m !! o) as [ob |] eqn:Ho; simpl.
  - destruct (decide (o' = o)) as [-> | Hne].
    + rewrite list_lookup_insert_eq by (eapply lookup_lt_Some; eauto).
      reflexivity.
    + rewrite list_lookup_insert_ne by auto. reflexivity.
  - destruct (decide (o' = o)) as [-> | Hne]; [rewrite Ho |]; reflexivity.
Qed.

Lemma modify_rest o f (m : ObstacleManager.state num) :
  ObstacleManager.effects (ObstacleManager.modify o f m)
  = ObstacleManager.effects m
  /\ ObstacleManager.obstaclesAvoided (ObstacleManager.modify o f m)
     = ObstacleManager.obstaclesAvoided m.
Proof.
  unfold ObstacleManager.modify.
  destruct (ObstacleManager.objects m !! o); split; reflexivity.
Qed.

Lemma modify_quiet o f (m : ObstacleManager.state num) :
  (forall ob, isAvoidedCounted (f ob) = isAvoidedCounted ob) ->
  quiet m (ObstacleManager.modify o f m).
Proof.
  intros Hf. destruct (modify_rest o f m) as [He Ha].
  split; [exact Ha |]. split.
  - exists []. rewrite He, app_nil_r. auto.
  - intros o'. rewrite modify_objects_lookup.
    destruct (decide (o' = o)) as [-> | Hne]; [| reflexivity].
    destruct (ObstacleManager.objects m !! o); simpl; [| reflexivity].
    rewrite Hf. reflexivity.
Qed.

Lemma emit_quiet e (m : ObstacleManager.state num) :
  quiet_effect e -> quiet m (ObstacleManager.emit e m).
Proof.
  intros He. split; [reflexivity |]. split; [| reflexivity].
  exists [e]. split; [reflexivity | auto].
Qed.

Lemma fields_quiet (m m' : ObstacleManager.state num) :
  ObstacleManager.obstaclesAvoided m' = ObstacleManager.obstaclesAvoided m ->
  ObstacleManager.effects m' = ObstacleManager.effects m ->
  ObstacleManager.objects m' = ObstacleManager.objects m ->
  quiet m m'.
Proof.
  intros Ha He Ho. split; [exact Ha |]. split; [| intros o; rewrite Ho; auto].
  exists []. rewrite He, app_nil_r. auto.
Qed.

Lemma recycleObstacle_quiet o (m : ObstacleManager.state num) :
  quiet m (ObstacleManager.recycleObstacle o m).
Proof.
  unfold ObstacleManager.recycleObstacle. cbv zeta.
  set (m1 := ObstacleManager.emit (ObstacleManager.SceneRemove o) m).
  assert (H1 : quiet m m1) by (apply emit_quiet; exact I).
  match goal with
  | |- quiet m (ObstacleManager.set_obstaclePool _ ?m2') => set (m2 := m2')
  end.
  assert (H2 : quiet m1 m2).
  { unfold m2. destruct (ObstacleManager.objects m1 !! o) as [ob |];
      [| apply quiet_refl].
    destruct (obstacleBody ob); [| apply quiet_refl].
    eapply quiet_trans;
      [apply (emit_quiet (ObstacleManager.RemoveBody o)); exact I |].
    apply modify_quiet. reflexivity. }
  eapply quiet_trans; [exact H1 |]. eapply quiet_trans; [exact H2 |].
  apply fields_quiet; reflexivity.
Qed.

Lemma filterDistant_quiet playerPosition os (m : ObstacleManager.state num) :
  quiet m (snd (ObstacleManager.filterDistant playerPosition os m)).
Proof.
  revert m. induction os as [| o os IH]; intros m; [apply quiet_refl |].
  simpl.
  match goal with |- context [if ?c then _ else _] => destruct c end.
  - eapply quiet_trans; [apply recycleObstacle_quiet | apply IH].
  - specialize (IH m).
    destruct (ObstacleManager.filterDistant playerPosition os m). exact IH.
Qed.

Lemma removeDistantObstacles_quiet playerPosition (m : ObstacleManager.state num) :
  quiet m (ObstacleManager.removeDistantObstacles playerPosition m).
Proof.
  unfold ObstacleManager.removeDistantObstacles.
  pose proof (filterDistant_quiet playerPosition
                (ObstacleManager.activeObstacles m) m) as Hq.
  destruct (ObstacleManager.filterDistant _ _ m) as [kept m'].
  eapply quiet_trans; [exact Hq | apply fields_quiet; reflexivity].
Qed.

Lemma updateDifficulty_quiet playerPosition (m : ObstacleManager.state num) :
  quiet m (ObstacleManager.updateDifficulty playerPosition m).
Proof. apply fields_quiet; reflexivity. Qed.

Lemma recycle_all_quiet os (m : ObstacleManager.state num) :
  quiet m (fold_left (fun m o => ObstacleManager.recycleObstacle o m) os m).
Proof.
  revert m. induction os as [| o os IH]; intros m; [apply quiet_refl |].
  simpl. eapply quiet_trans; [apply recycleObstacle_quiet | apply IH].
Qed.

(** *** Spawning *)

Lemma getObstacleFromPool_spec type (m : ObstacleManager.state num) :
  match ObstacleManager.getObstacleFromPool type m with
  | (Some o, m') =>
      ObstacleManager.obstaclesAvoided m' = ObstacleManager.obstaclesAvoided m
      /\ ObstacleManager.effects m'
         = ObstacleManager.effects m ++ [ObstacleManager.SceneAdd o]
      /\ ObstacleManager.objects m' = ObstacleManager.objects m
  | (None, m') => m' = m
  end.
Proof.
  unfold ObstacleManager.getObstacleFromPool.
  destruct (ObstacleManager.findIndex _ type _) as [index |]; [| reflexivity].
  destruct (ObstacleManager.obstaclePool m !! index); [| reflexivity].
  repeat split.
Qed.

Lemma addObstaclePhysics_spec o typeData (m : ObstacleManager.state num) :
  quiet m (fst (ObstacleManager.addObstaclePhysics o typeData m)).
Proof.
  unfold ObstacleManager.addObstaclePhysics.
  destruct (ObstacleManager.type typeData); cbn [fst];
    try apply quiet_refl;
    (eapply quiet_trans;
     [apply (emit_quiet (ObstacleManager.AddBody o)); exact I
     | apply modify_quiet; reflexivity]).
Qed.

Lemma takes_up_quiet o (m1 m2 m3 : ObstacleManager.state num) :
  takes_up o m1 m2 -> quiet m2 m3 -> takes_up o m1 m3.
Proof.
  intros (Ha & (es & He & Hq) & Hf) (Ha' & (es' & He' & Hq') & Hf').
  split; [congruence |]. split.
  - exists (es ++ es'). rewrite He', He, <- app_assoc. split; [reflexivity |].
    apply Forall_app; auto.
  - intros o' Hne. rewrite Hf'. apply Hf, Hne.
Qed.

Lemma createObstacle_spec typeData x z (m : ObstacleManager.state num) :
  exists o,
    takes_up o m (fst (ObstacleManager.createObstacle typeData x z m))
    /\ match snd (ObstacleManager.createObstacle typeData x z m) with
       | Normal o' => o' = o
       | Throw _ => True
       end.
Proof.
  unfold ObstacleManager.createObstacle.
  pose proof (getObstacleFromPool_spec (ObstacleManager.type typeData) m) as Hpool.
  assert (Hstep : forall o (m1 : ObstacleManager.state num),
            ObstacleManager.obstaclesAvoided m1
            = ObstacleManager.obstaclesAvoided m ->
            ObstacleManager.effects m1
            = ObstacleManager.effects m ++ [ObstacleManager.SceneAdd o] ->
            (forall o', o' <> o ->
               isAvoidedCounted <$> (ObstacleManager.objects m1 !! o')
               = isAvoidedCounted <$> (ObstacleManager.objects m !! o')) ->
            forall f,
            takes_up o m
              (fst (ObstacleManager.addObstaclePhysics o typeData
                      (ObstacleManager.modify o f m1)))).
  { intros o m1 Ha He Hf f.
    apply takes_up_quiet with (ObstacleManager.modify o f m1);
      [| apply addObstaclePhysics_spec].
    destruct (modify_rest o f m1) as [He1 Ha1].
    split; [congruence |]. split.
    - exists []. rewrite He1, He. split; [reflexivity | constructor].
    - intros o' Hne. rewrite modify_objects_lookup.
      destruct (decide (o' = o)); [contradiction |]. apply Hf, Hne. }
  destruct (ObstacleManager.getObstacleFromPool _ m) as [[o |] m1].
  - destruct Hpool as (Ha & He & Ho). exists o.
    match goal with
    | |- context [ObstacleManager.modify o ?f m1] =>
        specialize (Hstep o m1 Ha He
                      (fun o' _ => f_equal (fun l => isAvoidedCounted <$> l !! o') Ho)
                      f);
        destruct (ObstacleManager.addObstaclePhysics o typeData
                    (ObstacleManager.modify o f m1)) as [m2 [e |]]
    end; cbn [fst snd] in *; split; auto.
  - subst m1. unfold ObstacleManager.createFunc.
    set (o := length (ObstacleManager.objects m)). exists o.
    match goal with
    | |- context [ObstacleManager.modify o ?f ?m1] =>
        assert (Hs := Hstep o m1 eq_refl eq_refl);
        match type of Hs with
        | ?P -> _ =>
            assert (Hf : P);
            [| specialize (Hs Hf f);
               destruct (ObstacleManager.addObstaclePhysics o typeData
                           (ObstacleManager.modify o f m1)) as [m2 [e |]];
               cbn [fst snd] in *; split; auto]
        end
    end.
    intros o' Hne. cbn [ObstacleManager.objects ObstacleManager.emit
                        ObstacleManager.set_objects].
    destruct (Nat.lt_ge_cases o' (length (ObstacleManager.objects m))).
    + rewrite lookup_app_l by assumption. reflexivity.
    + rewrite !lookup_ge_None_2; [reflexivity | lia |].
      rewrite length_app. simpl. unfold o in *. lia.
Qed.

Lemma takes_up_inv o (m m' : ObstacleManager.state num) :
  takes_up o m m' -> counted_once_inv m -> counted_once_inv m'.
Proof.
  intros (Ha & (es & He & Hq) & Hf) (Hscore & Hcount).
  assert (He' : ObstacleManager.effects m'
                = (ObstacleManager.effects m ++ [ObstacleManager.SceneAdd o])
                    ++ es)
    by (rewrite He, <- app_assoc; reflexivity).
  split.
  - rewrite Ha, He', writesSinceReset_quiet, writesSinceReset_snoc
      by exact Hq.
    exact Hscore.
  - intros o'. rewrite He', countedSinceSpawn_quiet, countedSinceSpawn_snoc
      by exact Hq.
    destruct (Nat.eqb_spec o o') as [-> | Hne]; [split; auto |].
    destruct (Hcount o') as [Hle Hclear]. split; [exact Hle |].
    intros ob' Hob' Hflag. specialize (Hf o' (not_eq_sym Hne)).
    rewrite Hob' in Hf. simpl in Hf.
    destruct (ObstacleManager.objects m !! o') as [ob |] eqn:Hob;
      [| discriminate].
    apply (Hclear ob eq_refl). simpl in Hf. congruence.
Qed.

Lemma generateObstacle_spec playerPosition d (m : ObstacleManager.state num) :
  ObstacleManager.obstaclesAvoided
    (fst (ObstacleManager.generateObstacle playerPosition d m))
  = ObstacleManager.obstaclesAvoided m
  /\ (counted_once_inv m ->
      counted_once_inv
        (fst (ObstacleManager.generateObstacle playerPosition d m))).
Proof.
  unfold ObstacleManager.generateObstacle.
  destruct (ltb _ (ObstacleManager.spawnDraw d)); [split; auto |].
  destruct (ltb _ ObstacleManager.minDistanceBetweenObstacles); [split; auto |].
  cbv zeta.
  match goal with
  | |- context [ObstacleManager.createObstacle ?t ?x ?z m] =>
      destruct (createObstacle_spec t x z m) as (o & Hup & _);
      destruct (ObstacleManager.createObstacle t x z m) as [m1 [o' | e]]
  end; cbn [fst snd] in *.
  - split; [apply Hup |].
    intros Hm. apply (takes_up_inv o m m1 Hup) in Hm.
    apply (quiet_inv m1); [apply fields_quiet; reflexivity | exact Hm].
  - split; [apply Hup | apply (takes_up_inv o m m1 Hup)].
Qed.

(** *** Counting *)

Lemma checkPassed_spec playerPosition (m : ObstacleManager.state num) o :
  (ObstacleManager.obstaclesAvoided m
   <= ObstacleManager.obstaclesAvoided
        (ObstacleManager.checkPassed playerPosition m o))%Z
  /\ (counted_once_inv m ->
      counted_once_inv (ObstacleManager.checkPassed playerPosition m o)).
Proof.
  unfold ObstacleManager.checkPassed.
  destruct (ObstacleManager.objects m !! o) as [ob |] eqn:Hob;
    [| split; [lia | auto]].
  destruct (negb (isAvoidedCounted ob) && _) eqn:Hc; [| split; [lia | auto]].
  apply andb_true_iff in Hc as [Hflag _]. apply negb_true_iff in Hflag.
  cbv zeta.
  match goal with
  | |- context [ObstacleManager.modify o ?f m] =>
      destruct (modify_rest o f m) as [He Ha];
      pose proof (modify_objects_lookup o f m) as Hl;
      set (m1 := ObstacleManager.modify o f m) in *; clearbody m1
  end.
  simpl. split; [lia |]. intros (Hscore & Hcount). split; simpl.
  - rewrite Ha, He, writesSinceReset_snoc, Hscore. lia.
  - intros o'. rewrite He, countedSinceSpawn_snoc, Hl.
    destruct (Hcount o') as [Hle Hclear].
    destruct (Nat.eqb_spec o o') as [<- | Hne].
    + rewrite (Hclear ob Hob Hflag). split; [lia |].
      destruct (decide (o = o)); [| contradiction].
      rewrite Hob. simpl. intros ob' [= <-]. discriminate.
    + split; [exact Hle |].
      destruct (decide (o' = o)); [congruence | exact Hclear].
Qed.

Lemma checkPassed_fold playerPosition os (m : ObstacleManager.state num) :
  (ObstacleManager.obstaclesAvoided m
   <= ObstacleManager.obstaclesAvoided
        (fold_left (ObstacleManager.checkPassed playerPosition) os m))%Z
  /\ (counted_once_inv m ->
      counted_once_inv
        (fold_left (ObstacleManager.checkPassed playerPosition) os m)).
Proof.
  revert m. induction os as [| o os IH]; intros m; simpl;
    [split; [lia | auto] |].
  destruct (checkPassed_spec playerPosition m o) as [Hle Hinv].
  destruct (IH (ObstacleManager.checkPassed playerPosition m o)) as [Hle' Hinv'].
  split; [lia | auto].
Qed.

(** *** A frame, a reset, and a run *)

Lemma update_spec playerPosition d (m : ObstacleManager.state num) :
  (ObstacleManager.obstaclesAvoided m
   <= ObstacleManager.obstaclesAvoided
        (fst (ObstacleManager.update playerPosition d m)))%Z
  /\ (counted_once_inv m ->
      counted_once_inv (fst (ObstacleManager.update playerPosition d m))).
Proof.
  unfold ObstacleManager.update, ObstacleManager.checkObstaclesPassed. cbv zeta.
  set (m1 := ObstacleManager.updateDifficulty playerPosition m).
  set (m2 := ObstacleManager.removeDistantObstacles playerPosition m1).
  assert (Hq : quiet m m2).
  { eapply quiet_trans;
      [apply updateDifficulty_quiet | apply removeDistantObstacles_quiet]. }
  match goal with
  | |- context [let '(_, _) := ?g in _] => set (m3 := g)
  end.
  assert (H3 : ObstacleManager.obstaclesAvoided (fst m3)
               = ObstacleManager.obstaclesAvoided m2
               /\ (counted_once_inv m2 -> counted_once_inv (fst m3))).
  { unfold m3. destruct (ltb _ (ObstacleManager.maxObstaclesOnScreen m2));
      [apply generateObstacle_spec | split; auto]. }
  destruct H3 as [Ha3 Hinv3]. destruct Hq as (Ha2 & Hq2).
  assert (Hm2 : counted_once_inv m -> counted_once_inv m2)
    by (apply quiet_inv; split; [exact Ha2 | exact Hq2]).
  destruct m3 as [m3 [e |]]; cbn [fst] in *.
  - split; [lia | auto].
  - destruct (checkPassed_fold playerPosition
                (ObstacleManager.activeObstacles m3) m3) as [Hle Hinv].
    split; [lia | auto].
Qed.

Lemma reset_spec (m : ObstacleManager.state num) :
  counted_once_inv m -> counted_once_inv (ObstacleManager.reset m).
Proof.
  intros Hm. unfold ObstacleManager.reset. cbv zeta.
  pose proof (recycle_all_quiet (ObstacleManager.activeObstacles m) m) as Hq.
  apply (quiet_inv _ _ Hq) in Hm.
  set (m1 := fold_left _ _ m) in *. clearbody m1.
  destruct Hm as (Hscore & Hcount). split.
  - cbn [ObstacleManager.obstaclesAvoided ObstacleManager.effects
         ObstacleManager.emit ObstacleManager.set_difficulty
         ObstacleManager.set_obstaclesAvoided
         ObstacleManager.set_nextObstacleZ
         ObstacleManager.set_activeObstacles].
    rewrite writesSinceReset_snoc. reflexivity.
  - intros o.
    cbn [ObstacleManager.objects ObstacleManager.effects
         ObstacleManager.emit ObstacleManager.set_difficulty
         ObstacleManager.set_obstaclesAvoided
         ObstacleManager.set_nextObstacleZ
         ObstacleManager.set_activeObstacles].
    rewrite countedSinceSpawn_snoc. apply Hcount.
Qed.

Lemma calls_inv_obstacles cs (m : ObstacleManager.state num) :
  counted_once_inv m -> counted_once_inv (calls cs m).
Proof.
  revert m. induction cs as [| c cs IH]; intros m Hm; [exact Hm |].
  apply IH. destruct c as [playerPosition d |]; simpl.
  - apply update_spec, Hm.
  - apply reset_spec, Hm.
Qed.

Lemma constructor_counted_once :
  counted_once_inv (ObstacleManager.constructor (num := num)).
Proof.
  split; [reflexivity |]. intros o.
  change (ObstacleManager.effects (ObstacleManager.constructor (num := num)))
    with (@nil ObstacleManager.Effect).
  split; [unfold countedSinceSpawn; simpl; lia | reflexivity].
Qed.

(** C5, as the code has it: a call of [update], whether it returns or
    throws, never decreases the avoided counter.  In every run of the
    manager from its constructor, through calls of [update] (also those
    that throw) and of [reset], the counter is the number of score writes
    since the last [reset], which sets it back to 0; and from one
    [createObstacle] that takes an obstacle object up to the next (each
    clears the flag of the object) the object is counted at most once. *)
Theorem avoided_monotone_once_per_spawn
    (m : ObstacleManager.state num) (cs : list (ManagerCall num))
    (playerPosition : Vec3 num) (d : ObstacleManager.Draws num)
    (o : ObstacleManager.ObjRef) :
  (ObstacleManager.getObstaclesAvoided m
   <= ObstacleManager.getObstaclesAvoided
        (fst (ObstacleManager.update playerPosition d m)))%Z
  /\ ObstacleManager.getObstaclesAvoided
       (calls cs ObstacleManager.constructor)
     = Z.of_nat
         (writesSinceReset
            (ObstacleManager.effects (calls cs ObstacleManager.constructor)))
  /\ (countedSinceSpawn o
        (ObstacleManager.effects (calls cs ObstacleManager.constructor))
      <= 1)%nat.
Proof.
  split; [apply update_spec |].
  destruct (calls_inv_obstacles cs _ constructor_counted_once)
    as [Hscore Hcount].
  split; [exact Hscore | apply Hcount].
Qed.

End ObstacleProperties.

Section ObstacleBinary64.
Local Open Scope float_scope.

(** C5 refuted: in seven frames the manager creates one obstacle object and
    counts it twice.  The tree spawned at z = -100 is counted when the player
    is at z = -120; with the player at z = -180 it is recycled, drawn from
    the pool again, placed at z = -120 with its flag cleared, and counted a
    second time. *)
Lemma same_obstacle_counted_twice :
  length (ObstacleManager.objects
            (ObstacleManager.updates Sample.sevenFrames
               ObstacleManager.constructor)) = 1%nat
  /\ ObstacleManager.getObstaclesAvoided
       (ObstacleManager.updates Sample.sevenFrames ObstacleManager.constructor)
     = 2%Z
  /\ timesCounted 0
       (ObstacleManager.effects
          (ObstacleManager.updates Sample.sevenFrames
             ObstacleManager.constructor)) = 2%nat.
Proof.
  repeat split; vm_compute; reflexivity.
Qed.

End ObstacleBinary64.

(** ** [clamp], over binary64 *)

Section Binary64OrderProperties.
Import Binary64Order.

Lemma SFcompare_rank (x y : spec_float) :
  match SFcompare x y with
  | Some Lt =>
      exists a b, rank x = Some a /\ rank y = Some b /\ lex_lt a b
  | Some Eq => exists a, rank x = Some a /\ rank y = Some a
  | Some Gt =>
      exists a b, rank x = Some a /\ rank y = Some b /\ lex_lt b a
  | None => rank x = None \/ rank y = None
  end.
Proof.
  assert (Hfin : forall mx my ex ey : Z,
             (0 < mx)%Z -> (0 < my)%Z ->
             forall c, c = (mx ?= my)%Z ->
             match
               match (ex ?= ey)%Z with Eq => c | Lt => Lt | Gt => Gt end
             with
             | Lt => lex_lt (1, ex, mx)%Z (1, ey, my)%Z
             | Eq => (1, ex, mx)%Z = (1, ey, my)%Z
             | Gt => lex_lt (1, ey, my)%Z (1, ex, mx)%Z
             end).
  { intros mx my ex ey _ _ c ->. unfold lex_lt. simpl.
    destruct (Z.compare_spec ex ey); [| lia | lia].
    destruct (Z.compare_spec mx my); [subst; reflexivity | lia | lia]. }
  destruct x as [sx | sx | | sx mx ex], y as [sy | sy | | sy my ey];
    try destruct sx; try destruct sy; cbn [SFcompare rank]; auto;
    try (eexists _, _; split; [reflexivity |]; split; [reflexivity |];
         unfold lex_lt; simpl; lia);
    try (eexists; split; reflexivity).
  - specialize (Hfin (Zpos my) (Zpos mx) ey ex eq_refl eq_refl
                  (CompOpp (Pos.compare_cont Eq mx my))).
    rewrite (Z.compare_antisym ex ey) in Hfin.
    change (Pos.compare_cont Eq mx my) with (Pos.compare mx my) in *.
    rewrite <- Pos.compare_antisym in Hfin. specialize (Hfin eq_refl).
    rewrite Pos.compare_antisym in Hfin.
    destruct (ex ?= ey)%Z; cbn [CompOpp] in *.
    + destruct (mx ?= my)%positive; cbn [CompOpp] in *.
      * injection Hfin as -> ->. eexists. split; reflexivity.
      * eexists _, _. split; [reflexivity |]. split; [reflexivity |].
        unfold lex_lt in *. simpl in *. lia.
      * eexists _, _. split; [reflexivity |]. split; [reflexivity |].
        unfold lex_lt in *. simpl in *. lia.
    + eexists _, _. split; [reflexivity |]. split; [reflexivity |].
      unfold lex_lt in *. simpl in *. lia.
    + eexists _, _. split; [reflexivity |]. split; [reflexivity |].
      unfold lex_lt in *. simpl in *. lia.
  - specialize (Hfin (Zpos mx) (Zpos my) ex ey eq_refl eq_refl
                  (Pos.compare_cont Eq mx my) eq_refl).
    destruct (ex ?= ey)%Z.
    + destruct (Pos.compare_cont Eq mx my).
      * injection Hfin as -> ->. eexists. split; reflexivity.
      * eexists _, _. split; [reflexivity |]. split; [reflexivity |].
        exact Hfin.
      * eexists _, _. split; [reflexivity |]. split; [reflexivity |].
        exact Hfin.
    + eexists _, _. split; [reflexivity |]. split; [reflexivity |].
      exact Hfin.
    + eexists _, _. split; [reflexivity |]. split; [reflexivity |].
      exact Hfin.
Qed.

Lemma lex_lt_irrefl a : ~ lex_lt a a.
Proof. unfold lex_lt. lia. Qed.

Lemma lex_lt_asym a b : lex_lt a b -> ~ lex_lt b a.
Proof. unfold lex_lt. lia. Qed.

Lemma lex_lt_trans a b c : lex_lt a b -> lex_lt b c -> lex_lt a c.
Proof. unfold lex_lt. lia. Qed.

Lemma lex_total a b : lex_lt a b \/ a = b \/ lex_lt b a.
Proof.
  destruct a as [[a1 a2] a3], b as [[b1 b2] b3]. unfold lex_lt. simpl.
  destruct (Z.lt_total a1 b1) as [? | [-> | ?]]; [lia | | lia].
  destruct (Z.lt_total a2 b2) as [? | [-> | ?]]; [lia | | lia].
  destruct (Z.lt_total a3 b3) as [? | [-> | ?]]; [lia | | lia].
  right. left. reflexivity.
Qed.

Lemma b64_ltb_lt (x y : float) : PrimFloat.ltb x y = true <-> lt x y.
Proof.
  rewrite FloatAxioms.ltb_spec. unfold SFltb, lt.
  pose proof (SFcompare_rank (Prim2SF x) (Prim2SF y)) as Hc.
  destruct (SFcompare (Prim2SF x) (Prim2SF y)) as [[| |] |].
  - destruct Hc as (a & -> & ->). split; [discriminate |].
    intros Hlt. exfalso. apply (lex_lt_irrefl a Hlt).
  - destruct Hc as (a & b & -> & -> & Hlt). tauto.
  - destruct Hc as (a & b & -> & -> & Hgt). split; [discriminate |].
    intros Hlt. exfalso. apply (lex_lt_asym _ _ Hlt Hgt).
  - split; [discriminate |]. destruct Hc as [-> | ->]; [tauto |].
    destruct (rank (Prim2SF x)); tauto.
Qed.

Lemma b64_leb_le (x y : float) : PrimFloat.leb x y = true <-> le x y.
Proof.
  rewrite FloatAxioms.leb_spec. unfold SFleb, le.
  pose proof (SFcompare_rank (Prim2SF x) (Prim2SF y)) as Hc.
  destruct (SFcompare (Prim2SF x) (Prim2SF y)) as [[| |] |].
  - destruct Hc as (a & -> & ->). tauto.
  - destruct Hc as (a & b & -> & -> & Hlt). tauto.
  - destruct Hc as (a & b & -> & -> & Hgt). split; [discriminate |].
    intros [Hlt | ->]; exfalso.
    + apply (lex_lt_asym _ _ Hlt Hgt).
    + apply (lex_lt_irrefl _ Hgt).
  - split; [discriminate |]. destruct Hc as [-> | ->]; [tauto |].
    destruct (rank (Prim2SF x)); tauto.
Qed.

Lemma b64_eqb_eq (x y : float) :
  PrimFloat.eqb x y = true <-> le x y /\ le y x.
Proof.
  rewrite FloatAxioms.eqb_spec. unfold SFeqb, le.
  pose proof (SFcompare_rank (Prim2SF x) (Prim2SF y)) as Hc.
  destruct (SFcompare (Prim2SF x) (Prim2SF y)) as [[| |] |].
  - destruct Hc as (a & -> & ->). tauto.
  - destruct Hc as (a & b & -> & -> & Hlt). split; [discriminate |].
    intros [_ [Hgt | ->]]; exfalso.
    + apply (lex_lt_asym _ _ Hlt Hgt).
    + apply (lex_lt_irrefl _ Hlt).
  - destruct Hc as (a & b & -> & -> & Hgt). split; [discriminate |].
    intros [[Hlt | ->] _]; exfalso.
    + apply (lex_lt_asym _ _ Hlt Hgt).
    + apply (lex_lt_irrefl _ Hgt).
  - split; [discriminate |]. destruct Hc as [-> | ->]; [tauto |].
    destruct (rank (Prim2SF x)); tauto.
Qed.

Lemma is_nan_number (x : float) : is_nan x = false <-> number x.
Proof.
  unfold is_nan, number. rewrite negb_false_iff, b64_eqb_eq. unfold le.
  destruct (rank (Prim2SF x)) as [a |].
  - split; [eexists; reflexivity | tauto].
  - split; [tauto | intros [a Ha]; discriminate].
Qed.

Lemma b64_lt_le (x y : float) : lt x y -> le x y.
Proof.
  unfold lt, le. destruct (rank (Prim2SF x)), (rank (Prim2SF y)); tauto.
Qed.

Lemma b64_le_refl (x : float) : number x -> le x x.
Proof. intros [a Ha]. unfold le. rewrite Ha. right. reflexivity. Qed.

Lemma b64_not_lt_le (x y : float) : number x -> number y -> ~ lt x y -> le y x.
Proof.
  intros [a Ha] [b Hb]. unfold lt, le. rewrite Ha, Hb.
  destruct (lex_total a b) as [? | [-> | ?]]; tauto.
Qed.

Lemma b64_le_trans (x y z : float) : le x y -> le y z -> le x z.
Proof.
  unfold le.
  destruct (rank (Prim2SF x)) as [a |], (rank (Prim2SF y)) as [b |],
    (rank (Prim2SF z)) as [c |]; try tauto.
  intros [Hab | ->] [Hbc | ->]; auto.
  left. eapply lex_lt_trans; eassumption.
Qed.

Lemma b64_lt_le_trans (x y z : float) : lt x y -> le y z -> lt x z.
Proof.
  unfold lt, le.
  destruct (rank (Prim2SF x)) as [a |], (rank (Prim2SF y)) as [b |],
    (rank (Prim2SF z)) as [c |]; try tauto.
  intros Hab [Hbc | ->]; auto.
  eapply lex_lt_trans; eassumption.
Qed.

Lemma b64_le_number (x y : float) : le x y -> number x /\ number y.
Proof.
  unfold le, number.
  destruct (rank (Prim2SF x)), (rank (Prim2SF y)); try tauto.
  intros _. split; eexists; reflexivity.
Qed.

Lemma b64_lt_irrefl (x : float) : ~ lt x x.
Proof.
  unfold lt. destruct (rank (Prim2SF x)); [apply lex_lt_irrefl | tauto].
Qed.

End Binary64OrderProperties.

Section Binary64Clamp.
Import Binary64Order.
Local Open Scope float_scope.

Lemma min_cases (a b : float) :
  number a -> number b ->
  (Binary64.min a b = a /\ le a b) \/ (Binary64.min a b = b /\ le b a).
Proof.
  intros Ha Hb. unfold Binary64.min.
  rewrite (proj2 (is_nan_number a) Ha), (proj2 (is_nan_number b) Hb).
  cbn [orb].
  destruct (a <? b) eqn:Hab.
  { left. split; [reflexivity |]. apply b64_lt_le, b64_ltb_lt, Hab. }
  destruct (b <? a) eqn:Hba.
  { right. split; [reflexivity |]. apply b64_lt_le, b64_ltb_lt, Hba. }
  assert (Hle : le a b).
  { apply b64_not_lt_le; try assumption. rewrite <- b64_ltb_lt. congruence. }
  assert (Hge : le b a).
  { apply b64_not_lt_le; try assumption. rewrite <- b64_ltb_lt. congruence. }
  destruct (is_zero a && get_sign a); [left | right]; split;
    try reflexivity; assumption.
Qed.

Lemma max_cases (a b : float) :
  number a -> number b ->
  (Binary64Math.max a b = b /\ le a b) \/ (Binary64Math.max a b = a /\ le b a).
Proof.
  intros Ha Hb. unfold Binary64Math.max.
  rewrite (proj2 (is_nan_number a) Ha), (proj2 (is_nan_number b) Hb).
  cbn [orb].
  destruct (a <? b) eqn:Hab.
  { left. split; [reflexivity |]. apply b64_lt_le, b64_ltb_lt, Hab. }
  destruct (b <? a) eqn:Hba.
  { right. split; [reflexivity |]. apply b64_lt_le, b64_ltb_lt, Hba. }
  assert (Hle : le a b).
  { apply b64_not_lt_le; try assumption. rewrite <- b64_ltb_lt. congruence. }
  assert (Hge : le b a).
  { apply b64_not_lt_le; try assumption. rewrite <- b64_ltb_lt. congruence. }
  destruct (is_zero a && get_sign a); [left | right]; split;
    try reflexivity; assumption.
Qed.

Lemma clamp_order (value min max : float) :
  number value -> number min -> number max -> le min max ->
  le min (clamp value min max) /\ le (clamp value min max) max
  /\ (le min value -> le value max ->
      le (clamp value min max) value /\ le value (clamp value min max)).
Proof.
  intros Hv Hlo Hhi Hle. unfold clamp. cbn [jsmin jsmax binary64 binary64_math].
  destruct (max_cases value min Hv Hlo) as [[-> Hx] | [-> Hx]].
  - destruct (min_cases min max Hlo Hhi) as [[-> Hr] | [-> Hr]].
    + split; [apply b64_le_refl, Hlo |]. split; [exact Hle |].
      intros Hin _. split; assumption.
    + split; [exact Hle |]. split; [apply b64_le_refl, Hhi |].
      intros Hin Hout. split.
      * apply b64_le_trans with min; assumption.
      * exact Hout.
  - destruct (min_cases value max Hv Hhi) as [[-> Hr] | [-> Hr]].
    + split; [exact Hx |]. split; [exact Hr |].
      intros _ _. split; apply b64_le_refl, Hv.
    + split; [exact Hle |]. split; [apply b64_le_refl, Hhi |].
      intros _ Hout. split; assumption.
Qed.

(** X2: [clamp] on the numbers of the program: for arguments that are not NaN,
    with [min <= max], the result is between [min] and [max]; a value
    that is between them already comes back as a number equal to it (with
    [clamp(-0, 0, 1)] the result is [+0]); and clamping twice gives a
    number equal to clamping once. *)
Theorem clamp_within (value min max : float) :
  is_nan value = false -> is_nan min = false -> is_nan max = false ->
  (min <=? max) = true ->
  (min <=? clamp value min max) = true
  /\ (clamp value min max <=? max) = true
  /\ ((min <=? value) = true -> (value <=? max) = true ->
      (clamp value min max =? value) = true)
  /\ (clamp (clamp value min max) min max =? clamp value min max) = true.
Proof.
  rewrite !is_nan_number, !b64_leb_le, !b64_eqb_eq. intros Hv Hlo Hhi Hle.
  destruct (clamp_order value min max Hv Hlo Hhi Hle) as (H1 & H2 & H3).
  split; [exact H1 |]. split; [exact H2 |]. split; [exact H3 |].
  apply (clamp_order (clamp value min max) min max); try assumption.
  apply (b64_le_number _ _ H1).
Qed.

(** X3: [clamp] does not order its bounds: for arguments that are not NaN,
    with [max < min], the result is [max], whatever the value. *)
Theorem clamp_inverted_bounds (value min max : float) :
  is_nan value = false -> is_nan min = false -> is_nan max = false ->
  (max <? min) = true ->
  clamp value min max = max.
Proof.
  rewrite !is_nan_number, b64_ltb_lt. intros Hv Hlo Hhi Hlt.
  unfold clamp. cbn [jsmin jsmax binary64 binary64_math].
  assert (Hx : number (Binary64Math.max value min)
               /\ lt max (Binary64Math.max value min)).
  { destruct (max_cases value min Hv Hlo) as [[-> Hx] | [-> Hx]].
    - split; assumption.
    - split; [exact Hv |]. apply b64_lt_le_trans with min; assumption. }
  destruct Hx as [Hx Hbelow]. set (x := Binary64Math.max value min) in *.
  clearbody x. unfold Binary64.min.
  rewrite (proj2 (is_nan_number x) Hx), (proj2 (is_nan_number max) Hhi).
  cbn [orb].
  assert (Hno : (x <? max) = false).
  { apply not_true_is_false. rewrite b64_ltb_lt. intros Hxm.
    apply (b64_lt_irrefl max). apply b64_lt_le_trans with x; [exact Hbelow |].
    apply b64_lt_le, Hxm. }
  rewrite Hno, (proj2 (b64_ltb_lt max x) Hbelow). reflexivity.
Qed.

(** X31: [clamp] returns NaN exactly when one of its arguments is NaN. *)
Theorem clamp_nan (value min max : float) :
  is_nan (clamp value min max) = is_nan value || is_nan min || is_nan max.
Proof.
  unfold clamp. cbn [jsmin jsmax binary64 binary64_math].
  assert (Hnan : forall b, is_nan (Binary64.min nan b) = true)
    by reflexivity.
  destruct (is_nan value) eqn:Hv.
  { unfold Binary64Math.max. rewrite Hv. apply Hnan. }
  destruct (is_nan min) eqn:Hlo.
  { unfold Binary64Math.max. rewrite Hv, Hlo. apply Hnan. }
  destruct (is_nan max) eqn:Hhi.
  { unfold Binary64.min. rewrite Hhi, orb_true_r. reflexivity. }
  cbn [orb]. apply is_nan_number.
  apply is_nan_number in Hv, Hlo, Hhi.
  assert (Hx : number (Binary64Math.max value min))
    by (destruct (max_cases value min Hv Hlo) as [[-> _] | [-> _]];
        assumption).
  destruct (min_cases _ max Hx Hhi) as [[-> _] | [-> _]]; assumption.
Qed.

End Binary64Clamp.

Lemma clamp_within_witness :
  is_nan (-0)%float = false /\ is_nan 0%float = false
  /\ is_nan 1%float = false /\ (0 <=? 1)%float = true
  /\ (clamp (-0) 0 1 <=? 1)%float = true
  /\ (clamp (-0) 0 1 =? -0)%float = true.
Proof.
  do 4 (split; [reflexivity |]).
  destruct (clamp_within (-0) 0 1 eq_refl eq_refl eq_refl eq_refl)
    as (_ & Hle & Hid & _).
  split; [exact Hle | exact (Hid eq_refl eq_refl)].
Defined.

Lemma clamp_inverted_bounds_witness :
  is_nan 3%float = false /\ is_nan 5%float = false
  /\ is_nan 1%float = false /\ (1 <? 5)%float = true
  /\ clamp 3%float 5%float 1%float = 1%float.
Proof.
  do 4 (split; [reflexivity |]).
  exact (clamp_inverted_bounds 3 5 1 eq_refl eq_refl eq_refl eq_refl).
Defined.

(** ** The permutation tables *)

Section NoiseTables.
Local Open Scope Z_scope.

Lemma land_255_range (n : Z) : 0 <= Z.land n 255 <= 255.
Proof.
  change 255 with (Z.ones 8) at 1 2. rewrite Z.land_ones by lia.
  pose proof (Z.mod_pos_bound n (2 ^ 8) ltac:(lia)). lia.
Qed.

Lemma floor_and_255_range (x : float) : 0 <= Binary64.floor_and_255 x <= 255.
Proof.
  unfold Binary64.floor_and_255. destruct (Binary64.floorZ x).
  - apply land_255_range.
  - lia.
Qed.

Lemma p_read_in_range (i : Z) :
  0 <= i < 512 ->
  ImprovedNoise.p_read i = Some (ImprovedNoise.p_at i)
  /\ 0 <= ImprovedNoise.p_at i <= 255.
Proof.
  intros Hi. unfold ImprovedNoise.p_read, ImprovedNoise.p_at.
  destruct (Z.ltb_spec i 0) as [Hneg | _]; [lia |].
  assert (Hlen : (Z.to_nat i < length ImprovedNoise.p)%nat).
  { change (length ImprovedNoise.p) with 512%nat. lia. }
  destruct (lookup_lt_is_Some_2 _ _ Hlen) as [v Hv].
  rewrite nth_lookup, Hv. split; [reflexivity |]. simpl.
  assert (Hall : Forall (fun v => 0 <= v <= 255) ImprovedNoise.p).
  { apply List.Forall_forall. intros w Hw.
    assert (Hb : forallb (fun v => (0 <=? v) && (v <=? 255)) ImprovedNoise.p
                 = true) by (vm_compute; reflexivity).
    rewrite forallb_forall in Hb.
    specialize (Hb w Hw). lia. }
  rewrite Forall_lookup in Hall. exact (Hall _ _ Hv).
Qed.

(** X8: [ImprovedNoise.noise] never reads [this.p] outside its 512 entries,
    whatever the arguments (NaN and the infinities included): the doubled
    table covers every index that the hashing forms. *)
Theorem noise_reads_inside_table (x y z : float) :
  ImprovedNoise.noise_reads x y z = Some (ImprovedNoise.noise x y z).
Proof.
  unfold ImprovedNoise.noise_reads, ImprovedNoise.noise. cbv zeta.
  pose proof (floor_and_255_range x) as HX.
  pose proof (floor_and_255_range y) as HY.
  pose proof (floor_and_255_range z) as HZ.
  set (X := Binary64.floor_and_255 x) in *.
  set (Y := Binary64.floor_and_255 y) in *.
  set (Z_ := Binary64.floor_and_255 z) in *.
  clearbody X Y Z_.
  repeat match goal with
  | |- context [ImprovedNoise.p_read ?i] =>
      let Hr := fresh "Hr" in
      let Hb := fresh "Hb" in
      assert (Hi : 0 <= i < 512) by lia;
      destruct (p_read_in_range i Hi) as [Hr Hb];
      rewrite Hr; clear Hr Hi; cbn [mbind option_bind]
  end.
  reflexivity.
Qed.

End NoiseTables.

Section SeedTable.
Local Open Scope Z_scope.

Lemma land_1_parity (k r : Z) :
  0 <= r < 4 -> Z.land (4 * k + r) 1 = r mod 2.
Proof.
  intros Hr. change 1 with (Z.ones 1). rewrite Z.land_ones by lia.
  change (2 ^ 1) with 2.
  replace (4 * k + r) with (r + (2 * k) * 2) by lia.
  apply Z.mod_add. lia.
Qed.

Lemma p_step_first (n : Z) :
  SimplexNoise.p_step n [] 0 = [Z.land (Z.shiftr n 8) 255].
Proof. unfold SimplexNoise.p_step. simpl. reflexivity. Qed.

Lemma p_step_snoc (n : Z) (P : list Z) (a i : Z) :
  i = Z.of_nat (length (P ++ [a])) ->
  SimplexNoise.p_step n (P ++ [a]) i
  = (P ++ [a])
      ++ [if negb (Z.land i 1 =? 0) then Z.lxor a (Z.land n 255)
          else Z.lxor a (Z.land (Z.shiftr n 8) 255)].
Proof.
  intros Hi. rewrite length_app in Hi. simpl in Hi.
  unfold SimplexNoise.p_step.
  destruct (Z.ltb_spec (i - 1) 0) as [Hneg | _]; [lia |].
  replace (Z.to_nat (i - 1)) with (length P) by lia.
  rewrite (list_lookup_middle P [] a (length P) eq_refl). reflexivity.
Qed.

Lemma p_block (n k : Z) (P : list Z) :
  0 <= k -> Z.of_nat (length P) = 4 * k ->
  (P = [] \/ exists Q, P = Q ++ [0]) ->
  fold_left (SimplexNoise.p_step n) (seqZ (4 * k) 4) P
  = P ++ [Z.land (Z.shiftr n 8) 255;
          Z.lxor (Z.land (Z.shiftr n 8) 255) (Z.land n 255);
          Z.land n 255; 0].
Proof.
  intros Hk Hlen Hlast.
  set (hi := Z.land (Z.shiftr n 8) 255). set (lo := Z.land n 255).
  change (seqZ (4 * k) 4)
    with [0 + 4 * k; 1 + 4 * k; 2 + 4 * k; 3 + 4 * k].
  cbn [fold_left].
  assert (H0 : SimplexNoise.p_step n P (0 + 4 * k) = P ++ [hi]).
  { destruct Hlast as [-> | [Q ->]].
    - simpl in Hlen. replace k with 0 by lia. apply p_step_first.
    - rewrite p_step_snoc by lia.
      replace (0 + 4 * k) with (4 * k + 0) by lia.
      rewrite land_1_parity by lia. simpl. rewrite Z.lxor_0_l. reflexivity. }
  rewrite H0.
  rewrite p_step_snoc by (rewrite length_app; simpl; lia).
  replace (1 + 4 * k) with (4 * k + 1) by lia.
  rewrite land_1_parity by lia. cbn [Z.modulo Z.eqb negb].
  change (1 mod 2 =? 0) with false. cbn [negb].
  rewrite p_step_snoc by (rewrite !length_app; simpl; lia).
  replace (2 + 4 * k) with (4 * k + 2) by lia.
  rewrite land_1_parity by lia. change (2 mod 2 =? 0) with true. cbn [negb].
  rewrite p_step_snoc by (rewrite !length_app; simpl; lia).
  replace (3 + 4 * k) with (4 * k + 3) by lia.
  rewrite land_1_parity by lia. change (3 mod 2 =? 0) with false. cbn [negb].
  fold hi lo.
  replace (Z.lxor (Z.lxor hi lo) hi) with lo.
  2:{ rewrite (Z.lxor_comm hi lo), Z.lxor_assoc, Z.lxor_nilpotent,
        Z.lxor_0_r. reflexivity. }
  rewrite Z.lxor_nilpotent. rewrite <- !app_assoc. reflexivity.
Qed.

Lemma p_blocks (n : Z) (k : nat) :
  fold_left (SimplexNoise.p_step n) (seqZ 0 (4 * Z.of_nat k)) []
  = concat (replicate k [Z.land (Z.shiftr n 8) 255;
                         Z.lxor (Z.land (Z.shiftr n 8) 255) (Z.land n 255);
                         Z.land n 255; 0]).
Proof.
  induction k as [| k IH]; [reflexivity |].
  replace (4 * Z.of_nat (S k)) with (4 * Z.of_nat k + 4) by lia.
  rewrite seqZ_app by lia. rewrite fold_left_app, IH, Z.add_0_l.
  rewrite p_block.
  - replace (S k) with (k + 1)%nat by lia.
    rewrite replicate_add, concat_app. reflexivity.
  - lia.
  - clear IH. induction k as [| k IH]; [reflexivity |].
    simpl in *. lia.
  - destruct k as [| k]; [left; reflexivity | right].
    replace (S k) with (k + 1)%nat by lia.
    rewrite replicate_add, concat_app. simpl.
    eexists (_ ++ [_; _; _]). rewrite <- app_assoc. reflexivity.
Qed.

(** X9: Whatever the seed, the table that [noise.seed] builds is no
    permutation: [this.p] and [this.perm] repeat the four values
    [hi, hi ^ lo, lo, 0], where [lo] and [hi] are the two low bytes of the
    seed, so every fourth entry is 0. *)
Theorem seed_table_repeats_four_values (s : float) :
  SimplexNoise.seed s
  = (concat
       (replicate 64
          [Z.land (Z.shiftr (SimplexNoise.seedBits s) 8) 255;
           Z.lxor (Z.land (Z.shiftr (SimplexNoise.seedBits s) 8) 255)
                  (Z.land (SimplexNoise.seedBits s) 255);
           Z.land (SimplexNoise.seedBits s) 255; 0]),
     concat
       (replicate 128
          [Z.land (Z.shiftr (SimplexNoise.seedBits s) 8) 255;
           Z.lxor (Z.land (Z.shiftr (SimplexNoise.seedBits s) 8) 255)
                  (Z.land (SimplexNoise.seedBits s) 255);
           Z.land (SimplexNoise.seedBits s) 255; 0])).
Proof.
  unfold SimplexNoise.seed, SimplexNoise.perm_table, SimplexNoise.p_table.
  generalize (SimplexNoise.seedBits s). intros n.
  change 256 with (4 * Z.of_nat 64). rewrite p_blocks.
  generalize (Z.lxor (Z.land (Z.shiftr n 8) 255) (Z.land n 255)).
  generalize (Z.land (Z.shiftr n 8) 255). generalize (Z.land n 255).
  intros lo hi x. vm_compute. reflexivity.
Qed.

End SeedTable.

(** ** The player: keys, velocity, death *)

Section PlayerMoves.
Context {num : Type} `{JsNumber num}.
Variable distanceTo : Vec3 num -> Vec3 num -> num.

Lemma key_event_effects (e : Game.Event) (p : Player.state num) :
  is_key_event e = true ->
  Player.effects (Game.handle distanceTo e p)
  = Player.effects p
      ++ (if space_pressed [e] && negb (Player.isJumping p)
             && Player.isGrounded p
          then [Player.ApplyImpulse
                  (mkVec3 (lit 0) Player.jumpForce (lit 0))]
          else [])
  /\ Player.isGrounded (Game.handle distanceTo e p) = Player.isGrounded p
  /\ Player.isJumping (Game.handle distanceTo e p)
     = Player.isJumping p
       || (space_pressed [e] && Player.isGrounded p).
Proof.
  destruct e as [code | code | f | r obs |]; try discriminate; intros _.
  - destruct code; simpl;
      rewrite ?app_nil_r, ?orb_false_r; try (repeat split; reflexivity).
    unfold Player.jump.
    destruct (Player.isJumping p) eqn:Hj, (Player.isGrounded p) eqn:Hg;
      simpl; rewrite ?Hj, ?Hg, ?app_nil_r; simpl;
      rewrite ?Hj, ?Hg, ?app_nil_r; repeat split; reflexivity.
  - destruct code; simpl;
      rewrite ?app_nil_r, ?orb_false_r; repeat split; reflexivity.
Qed.

(** X10: Key events alone make the player jump at most once: however often
    [Space] goes down, one impulse [(0, jumpForce, 0)] is applied if the
    player was on the ground and not jumping when the first one came, and
    none otherwise; nothing else reaches the physics engine.  [jump] does
    not look at [isDead]. *)
Theorem keys_jump_at_most_once
    (events : list Game.Event) (p : Player.state num) :
  forallb is_key_event events = true ->
  Player.effects (Game.play distanceTo events p)
  = Player.effects p
      ++ (if space_pressed events && negb (Player.isJumping p)
             && Player.isGrounded p
          then [Player.ApplyImpulse
                  (mkVec3 (lit 0) Player.jumpForce (lit 0))]
          else []).
Proof.
  revert p. induction events as [| e events IH]; intros p Hkeys.
  - simpl. rewrite app_nil_r. reflexivity.
  - simpl in Hkeys. apply andb_true_iff in Hkeys as [He Hrest].
    change (Game.play distanceTo (e :: events) p)
      with (Game.play distanceTo events (Game.handle distanceTo e p)).
    rewrite (IH _ Hrest).
    destruct (key_event_effects e p He) as (-> & -> & ->).
    assert (Hsp : space_pressed (e :: events)
                  = space_pressed [e] || space_pressed events)
      by (unfold space_pressed; simpl; rewrite orb_false_r; reflexivity).
    rewrite Hsp.
    destruct (space_pressed [e]), (space_pressed events),
      (Player.isJumping p), (Player.isGrounded p);
      simpl; rewrite ?app_nil_r, <- ?app_assoc; reflexivity.
Qed.

Lemma applyControls_fields deltaTime (p : Player.state num) :
  Player.speed (Player.applyControls deltaTime p) = Player.speed p
  /\ Player.isDead (Player.applyControls deltaTime p) = Player.isDead p
  /\ position (Player.body (Player.applyControls deltaTime p))
     = position (Player.body p)
  /\ velocity (Player.body (Player.applyControls deltaTime p))
     = if negb (eqb (lateralForce deltaTime p) (lit 0))
       then mkVec3
              (add (vx (velocity (Player.body p)))
                   (div (lateralForce deltaTime p) Player.mass))
              (add (vy (velocity (Player.body p))) (div (lit 0) Player.mass))
              (add (vz (velocity (Player.body p))) (div (lit 0) Player.mass))
       else velocity (Player.body p).
Proof.
  unfold Player.applyControls, lateralForce. cbv zeta.
  destruct (negb _); repeat split; reflexivity.
Qed.

Lemma updatePhysics_fields ray (p : Player.state num) :
  Player.speed (Player.updatePhysics ray p) = Player.speed p
  /\ Player.isDead (Player.updatePhysics ray p) = Player.isDead p
  /\ Player.body (Player.updatePhysics ray p)
     = Player.set_velocity
         (mkVec3 (vx (velocity (Player.body p)))
                 (vy (velocity (Player.body p))) (neg (Player.speed p)))
         (Player.body p).
Proof.
  unfold Player.updatePhysics. cbv zeta.
  destruct (_ && _); repeat split; reflexivity.
Qed.

Lemma die_position r (p : Player.state num) :
  position (Player.body (Player.die r p)) = position (Player.body p).
Proof.
  unfold Player.die. destruct (negb (Player.isDead p)); reflexivity.
Qed.

Lemma update_position deltaTime ray r (p : Player.state num) :
  position (Player.body (Player.update deltaTime ray r p))
  = position (Player.body p).
Proof.
  unfold Player.update. destruct (Player.isDead p); [reflexivity |].
  cbv zeta. set (p1 := Player.set_speed _ p).
  destruct (applyControls_fields deltaTime p1) as (_ & _ & Hb2 & _).
  destruct (updatePhysics_fields ray (Player.applyControls deltaTime p1))
    as (_ & _ & Hb3).
  unfold Player.checkTerrainCollision.
  destruct (_ || _); rewrite ?die_position, Hb3; exact Hb2.
Qed.

Lemma frame_position (f : Player.Frame num) (p : Player.state num) :
  position (Player.body (Player.frame f p)) = position (Player.stepped f).
Proof. unfold Player.frame. rewrite update_position. reflexivity. Qed.

(** X11: A call of [update] on a living player leaves the body where it
    is.  If the player survives the boundary check, the speed is the ramped
    one and the forward velocity of the body is [-speed]: the lateral
    impulse of [applyControls], which the engine turns into velocity at
    once, has no forward part, and [updatePhysics] writes [velocity.z]
    after it.  With no lateral force there is no impulse, and the body
    moves sideways and upwards as before. *)
Theorem update_forward_velocity deltaTime ray r (p : Player.state num) :
  Player.isDead p = false ->
  position (Player.body (Player.update deltaTime ray r p))
  = position (Player.body p)
  /\ (Player.isDead (Player.update deltaTime ray r p) = false ->
      Player.speed (Player.update deltaTime ray r p) = ramp (Player.speed p)
      /\ vz (velocity (Player.body (Player.update deltaTime ray r p)))
         = neg (Player.speed (Player.update deltaTime ray r p))
      /\ (eqb (lateralForce deltaTime p) (lit 0) = true ->
          vx (velocity (Player.body (Player.update deltaTime ray r p)))
          = vx (velocity (Player.body p))
          /\ vy (velocity (Player.body (Player.update deltaTime ray r p)))
             = vy (velocity (Player.body p)))).
Proof.
  intros Halive. split; [apply update_position |].
  unfold Player.update. rewrite Halive. cbv zeta.
  set (p1 := Player.set_speed _ p).
  destruct (applyControls_fields deltaTime p1) as (Hs2 & Hd2 & Hb2 & Hv2).
  destruct (updatePhysics_fields ray (Player.applyControls deltaTime p1))
    as (Hs3 & Hd3 & Hb3).
  set (p3 := Player.updatePhysics ray (Player.applyControls deltaTime p1))
    in *.
  assert (Hd : Player.isDead p3 = false)
    by (rewrite Hd3, Hd2; exact Halive).
  change (lateralForce deltaTime p1) with (lateralForce deltaTime p) in Hv2.
  unfold Player.checkTerrainCollision. destruct (_ || _).
  - rewrite die_isDead. discriminate.
  - intros _. rewrite Hb3, Hs3, Hs2.
    cbn [velocity Player.set_velocity vx vy vz].
    split; [reflexivity |]. split; [reflexivity |].
    intros Hnone. rewrite Hv2, Hnone. split; reflexivity.
Qed.

Lemma signalled_refl (p : Player.state num) : signalled p p.
Proof.
  split; [| tauto]. destruct (Player.isDead p); simpl; lia.
Qed.

Lemma signalled_trans (p1 p2 p3 : Player.state num) :
  signalled p1 p2 -> signalled p2 p3 -> signalled p1 p3.
Proof.
  intros [H12 D12] [H23 D23]. split; [| tauto].
  rewrite H23, H12.
  destruct (Player.isDead p1) eqn:H1, (Player.isDead p2) eqn:H2,
    (Player.isDead p3) eqn:H3; simpl; try lia;
    try (specialize (D12 eq_refl)); try (specialize (D23 eq_refl));
    congruence.
Qed.

Lemma signalled_same (p p' : Player.state num) :
  Player.isDead p' = Player.isDead p ->
  died_signals (Player.effects p') = died_signals (Player.effects p) ->
  signalled p p'.
Proof.
  intros Hd He. split; [| congruence]. rewrite He, Hd.
  destruct (Player.isDead p); simpl; lia.
Qed.

Lemma die_signalled r (p : Player.state num) : signalled p (Player.die r p).
Proof.
  destruct (Player.isDead p) eqn:Hd.
  - rewrite die_dead by exact Hd. apply signalled_refl.
  - split; [| intros; apply die_isDead].
    rewrite Hd, die_isDead.
    destruct (die_effects_alive r p Hd) as [impulse ->].
    rewrite died_signals_app. reflexivity.
Qed.

Lemma takeDamage_signalled r amount (p : Player.state num) :
  signalled p (Player.takeDamage r amount p).
Proof.
  unfold Player.takeDamage. cbv zeta.
  destruct (leb _ _).
  - apply signalled_trans with (Player.set_health (sub (Player.health p) amount) p).
    + apply signalled_same; reflexivity.
    + apply die_signalled.
  - apply signalled_same; reflexivity.
Qed.

Lemma applyControls_signals deltaTime (p : Player.state num) :
  died_signals (Player.effects (Player.applyControls deltaTime p))
  = died_signals (Player.effects p).
Proof.
  unfold Player.applyControls, Player.applyImpulse. cbv zeta.
  destruct (negb _);
    cbn [Player.effects Player.set_meshRotationZ Player.emit Player.set_body];
    [| reflexivity].
  rewrite died_signals_app. unfold died_signals. simpl. lia.
Qed.

Lemma updatePhysics_signals ray (p : Player.state num) :
  died_signals (Player.effects (Player.updatePhysics ray p))
  = died_signals (Player.effects p).
Proof.
  unfold Player.updatePhysics. cbv zeta.
  destruct (_ && _);
    cbn [Player.effects Player.set_isJumping Player.set_isGrounded
         Player.emit Player.set_body];
    rewrite died_signals_app; unfold died_signals; simpl; lia.
Qed.

Lemma update_signalled deltaTime ray r (p : Player.state num) :
  signalled p (Player.update deltaTime ray r p).
Proof.
  unfold Player.update. destruct (Player.isDead p) eqn:Hd;
    [apply signalled_refl |].
  cbv zeta. unfold Player.checkTerrainCollision.
  set (p1 := Player.set_speed _ p).
  assert (Hq : signalled p
                 (Player.updatePhysics ray (Player.applyControls deltaTime p1))).
  { apply signalled_same.
    - destruct (applyControls_fields deltaTime p1) as (_ & Hd2 & _).
      destruct (updatePhysics_fields ray (Player.applyControls deltaTime p1))
        as (_ & Hd3 & _).
      rewrite Hd3, Hd2. reflexivity.
    - rewrite updatePhysics_signals, applyControls_signals. reflexivity. }
  destruct (_ || _); [| exact Hq].
  eapply signalled_trans; [exact Hq | apply die_signalled].
Qed.

Lemma frame_signalled (f : Player.Frame num) (p : Player.state num) :
  signalled p (Player.frame f p).
Proof.
  unfold Player.frame.
  apply signalled_trans with (Player.set_body (Player.stepped f) p).
  - apply signalled_same; reflexivity.
  - apply update_signalled.
Qed.

Lemma checkObstacleCollisions_signalled r obstacles (p : Player.state num) :
  match Game.checkObstacleCollisions distanceTo r obstacles p with
  | Normal p' => signalled p p'
  | Throw _ => True
  end.
Proof.
  revert p. induction obstacles as [| obstacle rest IH]; intros p; simpl.
  - apply signalled_refl.
  - unfold Player.checkObstacleCollision.
    destruct (obstacleBody obstacle); [| exact I].
    destruct (ltb _ _).
    + apply takeDamage_signalled.
    + apply IH.
Qed.

Lemma keys_signalled (e : Game.Event) (p : Player.state num) :
  is_key_event e = true -> signalled p (Game.handle distanceTo e p).
Proof.
  intros He. apply signalled_same.
  - destruct e as [code | code | | |]; try discriminate; simpl.
    + apply keydown_fields.
    + apply keyup_fields.
  - destruct (key_event_effects e p He) as (-> & _).
    rewrite died_signals_app.
    destruct (_ && _); unfold died_signals; simpl; lia.
Qed.

Lemma handle_signalled (e : Game.Event) (p : Player.state num) :
  is_reset e = false -> signalled p (Game.handle distanceTo e p).
Proof.
  intros He. destruct e as [code | code | f | r obs |]; try discriminate.
  - apply keys_signalled. reflexivity.
  - apply keys_signalled. reflexivity.
  - apply frame_signalled.
  - simpl. destruct (Player.isDead p) eqn:Hd; simpl;
      [apply signalled_refl |].
    pose proof (checkObstacleCollisions_signalled r obs p) as Hc.
    destruct (Game.checkObstacleCollisions distanceTo r obs p);
      [exact Hc | apply signalled_refl].
Qed.

(** X12: Between two resets the [player-died] event is dispatched exactly once
    if the player dies and not at all otherwise, whatever the key presses,
    frames and collision checks; and a dead player stays dead until
    [resetGame]. *)
Theorem one_death_signal_per_life
    (events : list Game.Event) (p : Player.state num) :
  existsb is_reset events = false ->
  died_signals (Player.effects (Game.play distanceTo events p))
  = (died_signals (Player.effects p)
     + (if negb (Player.isDead p)
           && Player.isDead (Game.play distanceTo events p)
        then 1 else 0))%nat
  /\ (Player.isDead p = true ->
      Player.isDead (Game.play distanceTo events p) = true).
Proof.
  intros Hno. change (signalled p (Game.play distanceTo events p)).
  revert p. induction events as [| e events IH]; intros p.
  - apply signalled_refl.
  - simpl in Hno. apply orb_false_iff in Hno as [He Hrest].
    apply signalled_trans with (Game.handle distanceTo e p).
    + apply handle_signalled, He.
    + apply (IH Hrest).
Qed.

End PlayerMoves.

Lemma update_forward_velocity_witness :
  Player.isDead (Player.keydown Player.KeyA Sample.fresh) = false
  /\ Player.isDead
       (Player.update 0.016%float Sample.onSnow Sample.ragdoll
          (Player.keydown Player.KeyA Sample.fresh)) = false
  /\ vz (velocity
           (Player.body
              (Player.update 0.016%float Sample.onSnow Sample.ragdoll
                 (Player.keydown Player.KeyA Sample.fresh))))
     = neg (Player.speed
              (Player.update 0.016%float Sample.onSnow Sample.ragdoll
                 (Player.keydown Player.KeyA Sample.fresh))).
Proof.
  split; [reflexivity |]. split; [reflexivity |].
  exact (proj1 (proj2 (proj2 (update_forward_velocity 0.016%float
                                Sample.onSnow Sample.ragdoll
                                (Player.keydown Player.KeyA Sample.fresh)
                                eq_refl) eq_refl))).
Defined.

Lemma one_death_signal_per_life_witness :
  existsb is_reset
    [Game.PlayerUpdate Sample.idle; Game.PlayerUpdate Scene.offPiste;
     Game.KeyDown Player.Space; Game.PlayerUpdate Scene.offPiste] = false
  /\ died_signals
       (Player.effects
          (Game.play Scene.apart
             [Game.PlayerUpdate Sample.idle; Game.PlayerUpdate Scene.offPiste;
              Game.KeyDown Player.Space; Game.PlayerUpdate Scene.offPiste]
             Sample.fresh))
     = (died_signals (Player.effects Sample.fresh)
        + (if negb (Player.isDead Sample.fresh)
              && Player.isDead
                   (Game.play Scene.apart
                      [Game.PlayerUpdate Sample.idle;
                       Game.PlayerUpdate Scene.offPiste;
                       Game.KeyDown Player.Space;
                       Game.PlayerUpdate Scene.offPiste]
                      Sample.fresh)
           then 1 else 0))%nat.
Proof.
  split; [reflexivity |].
  exact (proj1 (one_death_signal_per_life Scene.apart
                  [Game.PlayerUpdate Sample.idle;
                   Game.PlayerUpdate Scene.offPiste;
                   Game.KeyDown Player.Space;
                   Game.PlayerUpdate Scene.offPiste]
                  Sample.fresh eq_refl)).
Defined.

Lemma keys_jump_at_most_once_witness :
  forallb is_key_event
    [Game.KeyDown Player.Space; Game.KeyUp Player.Space;
     Game.KeyDown (num := float) Player.Space] = true
  /\ impulses
       (Player.effects
          (Game.play (fun _ _ => 0%float)
             [Game.KeyDown Player.Space; Game.KeyUp Player.Space;
              Game.KeyDown Player.Space]
             (Player.frame Sample.idle Sample.fresh)))
     = [mkVec3 0 15 0]%float.
Proof.
  split; [reflexivity |].
  rewrite (keys_jump_at_most_once (fun _ _ => 0%float)
             [Game.KeyDown Player.Space; Game.KeyUp Player.Space;
              Game.KeyDown Player.Space]
             (Player.frame Sample.idle Sample.fresh) eq_refl).
  vm_compute. reflexivity.
Defined.

(** *** Over exact arithmetic: the boundary, the damage *)

Section PlayerExact.
Local Open Scope Q_scope.
Variable distanceTo : Vec3 Q -> Vec3 Q -> Q.

(** X13: A frame kills a living player exactly when the physics engine has left
    the body more than 500 units to either side or more than 100 units
    below the origin. *)
Theorem boundary_kill (f : Player.Frame Q) (p : Player.state Q) :
  Player.isDead p = false ->
  (Player.isDead (Player.frame f p) = true
   <-> 500 < Qabs (vx (position (Player.stepped f)))
       \/ vy (position (Player.stepped f)) < -100).
Proof.
  intros Halive. unfold Player.frame, Player.update.
  cbn [Player.isDead Player.set_body]. rewrite Halive. cbv zeta.
  set (p1 := Player.set_speed _ _).
  destruct (applyControls_fields (Player.deltaTime f) p1)
    as (_ & Hd2 & Hb2 & _).
  destruct (updatePhysics_fields (Player.ray f)
              (Player.applyControls (Player.deltaTime f) p1))
    as (_ & Hd3 & Hb3).
  set (p3 := Player.updatePhysics _ _) in *.
  assert (Hpos : position (Player.body p3) = position (Player.stepped f))
    by (rewrite Hb3; cbn [position Player.set_velocity]; rewrite Hb2;
        reflexivity).
  assert (Hd : Player.isDead p3 = false)
    by (rewrite Hd3, Hd2; exact Halive).
  unfold Player.checkTerrainCollision. rewrite Hpos.
  destruct (_ || _) eqn:Hout.
  - rewrite die_isDead. split; [intros _ | reflexivity].
    apply orb_true_iff in Hout as [Hx | Hy].
    + left. apply ltb_exact in Hx. exact Hx.
    + right. apply ltb_exact in Hy. exact Hy.
  - rewrite Hd. split; [discriminate |]. intros Hor. exfalso.
    apply orb_false_iff in Hout as [Hx Hy].
    destruct Hor as [Hx' | Hy'].
    + apply ltb_exact in Hx'. cbn [lit exact jsabs] in *. congruence.
    + apply (ltb_exact _ (- (100))) in Hy'. cbn [lit exact neg] in *.
      congruence.
Qed.

Lemma takeDamage_speed r amount (p : Player.state Q) :
  Player.speed (Player.takeDamage r amount p) = Player.speed p.
Proof.
  unfold Player.takeDamage. cbv zeta. destruct (leb _ _); [| reflexivity].
  rewrite die_speed. reflexivity.
Qed.

Lemma checkObstacleCollisions_damage r obstacles (p : Player.state Q) :
  Forall (fun obstacle => 0 <= damageMultiplier obstacle <= 1.5) obstacles ->
  0 <= Player.speed p <= 300 ->
  match Game.checkObstacleCollisions distanceTo r obstacles p with
  | Normal p' =>
      Player.speed p' = Player.speed p
      /\ Player.health p - 45 <= Player.health p'
  | Throw _ => True
  end.
Proof.
  intros Hall Hs. revert p Hs.
  induction Hall as [| obstacle rest Hm _ IH]; intros p Hs; simpl.
  - split; [reflexivity | lra].
  - unfold Player.checkObstacleCollision.
    destruct (obstacleBody obstacle); [| exact I].
    destruct (ltb _ _); [| apply IH, Hs].
    rewrite takeDamage_speed, takeDamage_health.
    split; [reflexivity |]. cbn [mul lit exact].
    set (s := Player.speed p) in *. set (m := damageMultiplier obstacle) in *.
    clearbody s m. nra.
Qed.

Lemma handle_damage (e : Game.Event) (p : Player.state Q) :
  is_reset e = false -> table_damage e ->
  0 <= Player.speed p <= 300 ->
  0 <= Player.speed (Game.handle distanceTo e p) <= 300
  /\ Player.health p - 45 * inject_Z (Z.of_nat (collision_checks [e]))
     <= Player.health (Game.handle distanceTo e p).
Proof.
  intros He Hm Hs.
  destruct e as [code | code | f | r obs |]; try discriminate;
    cbn [Game.handle].
  - destruct (keydown_fields code p) as (-> & -> & _).
    split; [exact Hs | change (inject_Z (Z.of_nat (collision_checks [_]))) with 0; lra].
  - destruct (keyup_fields code p) as (-> & -> & _).
    split; [exact Hs | change (inject_Z (Z.of_nat (collision_checks [_]))) with 0; lra].
  - rewrite frame_health. split; [| change (inject_Z (Z.of_nat (collision_checks [_]))) with 0; lra].
    unfold Player.frame.
    destruct (Player.isDead (Player.set_body (Player.stepped f) p)) eqn:Hd.
    + unfold Player.update. rewrite Hd. exact Hs.
    + rewrite update_speed_alive by exact Hd.
      cbn [Player.speed Player.set_body]. unfold ramp, Player.maxSpeed,
        Player.acceleration. cbn [jsmin add lit exact].
      split; [apply Q.min_glb; lra | apply Q.le_min_l].
  - change (inject_Z (Z.of_nat (collision_checks [_]))) with 1.
    destruct (negb _); [| split; [exact Hs | lra]].
    pose proof (checkObstacleCollisions_damage r obs p Hm Hs) as Hc.
    destruct (Game.checkObstacleCollisions distanceTo r obs p) as [p' |];
      [| split; [exact Hs | lra]].
    destruct Hc as [-> Hh]. split; [exact Hs | lra].
Qed.

(** X15: Between two resets every collision check costs at most 45 health
    points (the top speed 300 times the largest damage multiplier 1.5 times
    0.1), and nothing else costs any: a player at full health is still
    above 0 after two checks that hit. *)
Theorem health_lower_bound (events : list Game.Event) (p : Player.state Q) :
  existsb is_reset events = false ->
  Forall table_damage events ->
  0 <= Player.speed p <= 300 ->
  Player.health p - 45 * inject_Z (Z.of_nat (collision_checks events))
  <= Player.health (Game.play distanceTo events p).
Proof.
  intros Hno Hall. revert p Hno.
  induction Hall as [| e events He _ IH]; intros p Hno Hs.
  - change (inject_Z (Z.of_nat (collision_checks []))) with 0.
    change (Game.play distanceTo [] p) with p. lra.
  - simpl in Hno. apply orb_false_iff in Hno as [Hr Hrest].
    destruct (handle_damage e p Hr He Hs) as [Hs' Hh].
    specialize (IH (Game.handle distanceTo e p) Hrest Hs').
    change (Game.play distanceTo (e :: events) p)
      with (Game.play distanceTo events (Game.handle distanceTo e p)).
    assert (Hcount : inject_Z (Z.of_nat (collision_checks (e :: events)))
                     == inject_Z (Z.of_nat (collision_checks [e]))
                        + inject_Z (Z.of_nat (collision_checks events))).
    { rewrite <- inject_Z_plus, <- Nat2Z.inj_add.
      unfold collision_checks. simpl.
      destruct e; simpl; reflexivity. }
    rewrite Hcount. lra.
Qed.

End PlayerExact.

Lemma boundary_kill_witness :
  Player.isDead SceneExact.fresh = false
  /\ Player.isDead (Player.frame SceneExact.offPiste SceneExact.fresh) = true.
Proof.
  split; [reflexivity |].
  apply (proj2 (boundary_kill SceneExact.offPiste SceneExact.fresh eq_refl)).
  left. vm_compute. reflexivity.
Defined.

Lemma health_lower_bound_witness :
  existsb is_reset SceneExact.twoHits = false
  /\ Forall table_damage SceneExact.twoHits
  /\ (0 <= Player.speed SceneExact.fresh <= 300)%Q
  /\ (Player.health SceneExact.fresh
      - 45 * inject_Z (Z.of_nat (collision_checks SceneExact.twoHits))
      <= Player.health
           (Game.play SampleExact.touching SceneExact.twoHits
              SceneExact.fresh))%Q.
Proof.
  assert (Hdamage : Forall table_damage SceneExact.twoHits).
  { repeat constructor; vm_compute; discriminate. }
  assert (Hspeed : (0 <= Player.speed SceneExact.fresh <= 300)%Q)
    by (split; vm_compute; discriminate).
  split; [reflexivity |]. split; [exact Hdamage |]. split; [exact Hspeed |].
  exact (health_lower_bound SampleExact.touching SceneExact.twoHits
           SceneExact.fresh eq_refl Hdamage Hspeed).
Defined.

(** ** The obstacle pool *)

Section ManagerStructure.
Context {num : Type} `{JsNumber num}.

Lemma modify_alter o f (m : ObstacleManager.state num) :
  ObstacleManager.modify o f m
  = ObstacleManager.set_objects (alter f o (ObstacleManager.objects m)) m.
Proof.
  unfold ObstacleManager.modify.
  destruct (ObstacleManager.objects m !! o) as [ob |] eqn:Hob.
  - f_equal. apply list_eq. intros j. rewrite list_lookup_alter.
    destruct (decide (o = j)) as [<- | Hne].
    + rewrite list_lookup_insert_eq by (eapply lookup_lt_Some; exact Hob).
      rewrite Hob. reflexivity.
    + rewrite list_lookup_insert_ne by exact Hne. reflexivity.
  - assert (Hsame : alter f o (ObstacleManager.objects m)
                    = ObstacleManager.objects m).
    { apply list_eq. intros j. rewrite list_lookup_alter.
      destruct (decide (o = j)) as [<- | Hne]; [| reflexivity].
      rewrite Hob. reflexivity. }
    rewrite Hsame. destruct m. reflexivity.
Qed.

(** What a step leaves alone: the settings of the difficulty curve and the
    place of the next obstacle. *)
Lemma recycleObstacle_shape o (m : ObstacleManager.state num) :
  ObstacleManager.objects (ObstacleManager.recycleObstacle o m)
  = alter without_body o (ObstacleManager.objects m)
  /\ ObstacleManager.obstaclePool (ObstacleManager.recycleObstacle o m)
     = ObstacleManager.obstaclePool m ++ [o]
  /\ ObstacleManager.activeObstacles (ObstacleManager.recycleObstacle o m)
     = ObstacleManager.activeObstacles m
  /\ ObstacleManager.maxObstaclesOnScreen (ObstacleManager.recycleObstacle o m)
     = ObstacleManager.maxObstaclesOnScreen m.
Proof.
  unfold ObstacleManager.recycleObstacle. cbv zeta.
  cbn [ObstacleManager.objects ObstacleManager.emit].
  destruct (ObstacleManager.objects m !! o) as [ob |] eqn:Hob.
  - destruct (obstacleBody ob) eqn:Hbody.
    + rewrite modify_alter. repeat split; reflexivity.
    + split; [| repeat split; reflexivity].
      cbn [ObstacleManager.objects ObstacleManager.set_obstaclePool
           ObstacleManager.emit].
      apply list_eq. intros j. rewrite list_lookup_alter.
      destruct (decide (o = j)) as [<- | Hne]; [| reflexivity].
      rewrite Hob. destruct ob. simpl in *. subst. reflexivity.
  - split; [| repeat split; reflexivity].
    cbn [ObstacleManager.objects ObstacleManager.set_obstaclePool
         ObstacleManager.emit].
    apply list_eq. intros j. rewrite list_lookup_alter.
    destruct (decide (o = j)) as [<- | Hne]; [| reflexivity].
    rewrite Hob. reflexivity.
Qed.

Lemma far_recycle playerPosition o (m : ObstacleManager.state num) o' :
  far playerPosition (ObstacleManager.recycleObstacle o m) o'
  = far playerPosition m o'.
Proof.
  unfold far. destruct (recycleObstacle_shape o m) as (-> & _).
  rewrite list_lookup_alter.
  destruct (decide (o = o')) as [<- | Hne]; [| reflexivity].
  destruct (ObstacleManager.objects m !! o); reflexivity.
Qed.

Lemma filterDistant_shape playerPosition os (m : ObstacleManager.state num) :
  fst (ObstacleManager.filterDistant playerPosition os m)
  = List.filter (fun o => negb (far playerPosition m o)) os
  /\ ObstacleManager.obstaclePool
       (snd (ObstacleManager.filterDistant playerPosition os m))
     = ObstacleManager.obstaclePool m
         ++ List.filter (far playerPosition m) os
  /\ (forall o',
        ObstacleManager.objects
          (snd (ObstacleManager.filterDistant playerPosition os m)) !! o'
        = if decide (o' ∈ List.filter (far playerPosition m) os)
          then without_body <$> (ObstacleManager.objects m !! o')
          else ObstacleManager.objects m !! o')
  /\ ObstacleManager.activeObstacles
       (snd (ObstacleManager.filterDistant playerPosition os m))
     = ObstacleManager.activeObstacles m
  /\ ObstacleManager.maxObstaclesOnScreen
       (snd (ObstacleManager.filterDistant playerPosition os m))
     = ObstacleManager.maxObstaclesOnScreen m.
Proof.
  revert m. induction os as [| o rest IH]; intros m.
  - simpl. rewrite app_nil_r.
    split; [reflexivity |]. split; [reflexivity |].
    split; [| split; reflexivity]. intros o'. reflexivity.
  - cbn [ObstacleManager.filterDistant List.filter]. cbv zeta.
    change (match ObstacleManager.objects m !! o with
            | Some ob =>
                (vz (obstaclePosition ob) >? vz playerPosition + lit 50)%js
            | None => false
            end) with (far playerPosition m o).
    destruct (far playerPosition m o) eqn:Hfar; cbn [negb].
    + destruct (IH (ObstacleManager.recycleObstacle o m))
        as (Hk & Hp & Hl & Ha & Hm).
      destruct (recycleObstacle_shape o m) as (Ho1 & Hp1 & Ha1 & Hm1).
      assert (Hext : forall f : nat -> bool,
                 (forall x, f x = far playerPosition m x) ->
                 List.filter f rest
                 = List.filter (far playerPosition m) rest).
      { intros f Hf. apply filter_ext_in. intros a _. apply Hf. }
      rewrite (Hext (far playerPosition (ObstacleManager.recycleObstacle o m)))
        in * by (intros x; apply far_recycle).
      assert (Hext' : List.filter
                        (fun o0 => negb (far playerPosition
                                     (ObstacleManager.recycleObstacle o m) o0))
                        rest
                      = List.filter
                          (fun o0 => negb (far playerPosition m o0)) rest).
      { apply filter_ext_in. intros a _. rewrite far_recycle. reflexivity. }
      rewrite Hext' in Hk.
      split; [exact Hk |]. split.
      { rewrite Hp, Hp1, <- app_assoc. reflexivity. }
      split; [| split; congruence].
      intros o'. rewrite Hl, Ho1, list_lookup_alter.
      repeat case_decide; subst;
        try (destruct (ObstacleManager.objects m !! _); reflexivity);
        exfalso;
        match goal with
        | Hn : _ ∉ _ :: _ |- _ => apply Hn, elem_of_cons; tauto
        | Hi : _ ∈ _ :: _ |- _ =>
            apply elem_of_cons in Hi; destruct Hi; congruence
        end.
    + destruct (IH m) as (Hk & Hp & Hl & Ha & Hm).
      destruct (ObstacleManager.filterDistant playerPosition rest m)
        as [kept m'] eqn:Hrec.
      cbn [fst snd] in *. split; [congruence |]. repeat split; assumption.
Qed.

Lemma filter_partition (f : nat -> bool) (os : list nat) :
  os ≡ₚ List.filter (fun o => negb (f o)) os ++ List.filter f os.
Proof.
  induction os as [| o rest IH]; [reflexivity |].
  simpl. destruct (f o); simpl.
  - rewrite <- Permutation_middle. apply perm_skip, IH.
  - apply perm_skip, IH.
Qed.

Lemma removeDistantObstacles_shape playerPosition
    (m : ObstacleManager.state num) :
  ObstacleManager.activeObstacles
    (ObstacleManager.removeDistantObstacles playerPosition m)
  = List.filter (fun o => negb (far playerPosition m o))
      (ObstacleManager.activeObstacles m)
  /\ ObstacleManager.obstaclePool
       (ObstacleManager.removeDistantObstacles playerPosition m)
     = ObstacleManager.obstaclePool m
         ++ List.filter (far playerPosition m)
              (ObstacleManager.activeObstacles m)
  /\ (forall o',
        ObstacleManager.objects
          (ObstacleManager.removeDistantObstacles playerPosition m) !! o'
        = if decide (o' ∈ List.filter (far playerPosition m)
                            (ObstacleManager.activeObstacles m))
          then without_body <$> (ObstacleManager.objects m !! o')
          else ObstacleManager.objects m !! o')
  /\ ObstacleManager.maxObstaclesOnScreen
       (ObstacleManager.removeDistantObstacles playerPosition m)
     = ObstacleManager.maxObstaclesOnScreen m.
Proof.
  unfold ObstacleManager.removeDistantObstacles.
  destruct (filterDistant_shape playerPosition
              (ObstacleManager.activeObstacles m) m)
    as (Hk & Hp & Hl & _ & Hm).
  destruct (ObstacleManager.filterDistant playerPosition
              (ObstacleManager.activeObstacles m) m) as [kept m'].
  cbn [fst snd] in *. repeat split; assumption.
Qed.

Lemma kind_eqb_eq (a b : ObstacleKind) :
  ObstacleManager.kind_eqb a b = true -> a = b.
Proof. destruct a, b; simpl; congruence. Qed.

Lemma findIndex_spec (objs : list (Obstacle num)) type pool index :
  ObstacleManager.findIndex objs type pool = Some index ->
  exists o ob,
    pool !! index = Some o /\ objs !! o = Some ob /\ obstacleType ob = type.
Proof.
  revert index. induction pool as [| o rest IH]; intros index; simpl.
  - discriminate.
  - destruct (objs !! o) as [ob |] eqn:Hob.
    + destruct (ObstacleManager.kind_eqb (obstacleType ob) type) eqn:Hk.
      * intros [= <-]. exists o, ob. repeat split; try assumption.
        apply kind_eqb_eq, Hk.
      * destruct (ObstacleManager.findIndex objs type rest) as [i |];
          [| discriminate].
        intros [= <-]. apply (IH i eq_refl).
    + destruct (ObstacleManager.findIndex objs type rest) as [i |];
        [| discriminate].
      intros [= <-]. apply (IH i eq_refl).
Qed.

Lemma createObstacle_shape typeData x z (m : ObstacleManager.state num) :
  exists o ob1,
    ObstacleManager.objects
      (fst (ObstacleManager.createObstacle typeData x z m)) !! o = Some ob1
    /\ without_body ob1 = without_body (placed typeData x z)
    /\ match snd (ObstacleManager.createObstacle typeData x z m) with
       | Normal o' =>
           o' = o /\ ObstacleManager.type typeData <> iceSpike
           /\ ob1 = placed typeData x z
       | Throw e =>
           e = TypeError /\ ObstacleManager.type typeData = iceSpike
           /\ obstacleBody ob1
              = (ObstacleManager.objects m !! o) ≫= obstacleBody
       end
    /\ (forall o',
          o' <> o ->
          ObstacleManager.objects
            (fst (ObstacleManager.createObstacle typeData x z m)) !! o'
          = ObstacleManager.objects m !! o')
    /\ ObstacleManager.activeObstacles
         (fst (ObstacleManager.createObstacle typeData x z m))
       = ObstacleManager.activeObstacles m
    /\ ((exists index ob,
           ObstacleManager.obstaclePool m !! index = Some o
           /\ ObstacleManager.obstaclePool
                (fst (ObstacleManager.createObstacle typeData x z m))
              = delete index (ObstacleManager.obstaclePool m)
           /\ ObstacleManager.objects m !! o = Some ob
           /\ obstacleType ob = ObstacleManager.type typeData)
        \/ (ObstacleManager.objects m !! o = None
            /\ ObstacleManager.obstaclePool
                 (fst (ObstacleManager.createObstacle typeData x z m))
               = ObstacleManager.obstaclePool m))
    /\ ObstacleManager.nextObstacleZ
         (fst (ObstacleManager.createObstacle typeData x z m))
       = ObstacleManager.nextObstacleZ m
    /\ ObstacleManager.obstaclesAvoided
         (fst (ObstacleManager.createObstacle typeData x z m))
       = ObstacleManager.obstaclesAvoided m
    /\ ObstacleManager.maxObstaclesOnScreen
         (fst (ObstacleManager.createObstacle typeData x z m))
       = ObstacleManager.maxObstaclesOnScreen m.
Proof.
  unfold ObstacleManager.createObstacle, ObstacleManager.getObstacleFromPool.
  destruct (ObstacleManager.findIndex (ObstacleManager.objects m)
              (ObstacleManager.type typeData) (ObstacleManager.obstaclePool m))
    as [index |] eqn:Hfind.
  - destruct (findIndex_spec _ _ _ _ Hfind) as (o & ob & Hpool & Hob & Hkind).
    rewrite Hpool. unfold ObstacleManager.addObstaclePhysics.
    exists o.
    destruct (ObstacleManager.type typeData) eqn:Htype;
      rewrite !modify_alter; cbn; rewrite ?list_lookup_alter_eq, Hob;
      eexists; (split; [reflexivity |]);
      (split; [unfold without_body, placed; cbn; rewrite ?Htype; reflexivity |]);
      (split; [repeat split; try discriminate; unfold placed;
               rewrite ?Htype; reflexivity |]);
      (split; [intros o' Hne; rewrite ?list_lookup_alter_ne by congruence;
               reflexivity |]);
      (split; [reflexivity |]);
      (split; [| repeat split; reflexivity]);
      left; exists index, ob; repeat split; assumption.
  - unfold ObstacleManager.createFunc, ObstacleManager.addObstaclePhysics.
    exists (length (ObstacleManager.objects m)).
    assert (Hnone : ObstacleManager.objects m
                      !! length (ObstacleManager.objects m) = None)
      by (apply lookup_ge_None_2; lia).
    assert (Hold : forall o',
               o' <> length (ObstacleManager.objects m) ->
               forall ob : Obstacle num,
               (ObstacleManager.objects m ++ [ob]) !! o'
               = ObstacleManager.objects m !! o').
    { intros o' Hne ob.
      destruct (Nat.lt_ge_cases o' (length (ObstacleManager.objects m))).
      - rewrite lookup_app_l by assumption. reflexivity.
      - rewrite !lookup_ge_None_2; [reflexivity | lia |].
        rewrite length_app. simpl. lia. }
    destruct (ObstacleManager.type typeData) eqn:Htype;
      rewrite !modify_alter; cbn; rewrite ?list_lookup_alter_eq;
      rewrite (list_lookup_middle _ [] _ _ eq_refl);
      eexists; (split; [reflexivity |]);
      (split; [unfold without_body, placed; cbn; rewrite ?Htype; reflexivity |]);
      (split; [repeat split; try discriminate; unfold placed;
               rewrite ?Htype, ?Hnone; reflexivity |]);
      (split; [intros o' Hne; rewrite ?list_lookup_alter_ne by congruence;
               apply Hold, Hne |]);
      (split; [reflexivity |]);
      (split; [| repeat split; reflexivity]);
      right; (split; [exact Hnone | reflexivity]).
Qed.

Lemma generateObstacle_unfold playerPosition d
    (m : ObstacleManager.state num) :
  ObstacleManager.generateObstacle playerPosition d m
  = if ltb (ObstacleManager.obstacleSpawnFrequency m)
           (ObstacleManager.spawnDraw d)
    then (m, None)
    else if ltb (jsabs (sub (vz playerPosition)
                            (ObstacleManager.nextObstacleZ m)))
                ObstacleManager.minDistanceBetweenObstacles
    then (m, None)
    else
      match
        ObstacleManager.createObstacle
          (ObstacleManager.typeData_at
             (ObstacleManager.chosenIndex
                (ObstacleManager.difficultyLevel m) d))
          (mul (sub (mul (ObstacleManager.xDraw d) (lit 2)) (lit 1))
               (ObstacleManager.obstacleSpread m))
          (ObstacleManager.nextObstacleZ m) m
      with
      | (m1, Throw e) => (m1, Some e)
      | (m1, Normal o) =>
          (ObstacleManager.set_nextObstacleZ
             (sub (ObstacleManager.nextObstacleZ m1)
                  (mul ObstacleManager.minDistanceBetweenObstacles
                       (add (lit 1)
                            (mul (ObstacleManager.gapDraw d) (lit 0.5)))))
             (ObstacleManager.set_activeObstacles
                (ObstacleManager.activeObstacles m1 ++ [o]) m1),
           None)
      end.
Proof. reflexivity. Qed.

(** The three ways of [generateObstacle]: it returns at once; or it
    calls [createObstacle], and then throws what that call throws, or
    pushes the obstacle that it returns and moves [nextObstacleZ] on. *)
Lemma generateObstacle_cases playerPosition d
    (m : ObstacleManager.state num) :
  ObstacleManager.generateObstacle playerPosition d m = (m, None)
  \/ ltb (ObstacleManager.obstacleSpawnFrequency m)
         (ObstacleManager.spawnDraw d) = false
     /\ ltb (jsabs (sub (vz playerPosition)
                        (ObstacleManager.nextObstacleZ m)))
            ObstacleManager.minDistanceBetweenObstacles = false
     /\ (ObstacleManager.chosenIndex (ObstacleManager.difficultyLevel m) d
         <= 3)%nat
     /\ ObstacleManager.generateObstacle playerPosition d m
        = match
            ObstacleManager.createObstacle
              (ObstacleManager.typeData_at
                 (ObstacleManager.chosenIndex
                    (ObstacleManager.difficultyLevel m) d))
              (mul (sub (mul (ObstacleManager.xDraw d) (lit 2)) (lit 1))
                   (ObstacleManager.obstacleSpread m))
              (ObstacleManager.nextObstacleZ m) m
          with
          | (m1, Throw e) => (m1, Some e)
          | (m1, Normal o) =>
              (ObstacleManager.set_nextObstacleZ
                 (sub (ObstacleManager.nextObstacleZ m)
                      (mul ObstacleManager.minDistanceBetweenObstacles
                           (add (lit 1)
                                (mul (ObstacleManager.gapDraw d) (lit 0.5)))))
                 (ObstacleManager.set_activeObstacles
                    (ObstacleManager.activeObstacles m ++ [o]) m1),
               None)
          end.
Proof.
  rewrite generateObstacle_unfold.
  destruct (ltb (ObstacleManager.obstacleSpawnFrequency m) _) eqn:Hspawn;
    [left; reflexivity |].
  destruct (ltb (jsabs _) _) eqn:Hgap; [left; reflexivity |].
  right. split; [reflexivity |]. split; [reflexivity |]. split.
  { unfold ObstacleManager.chosenIndex. cbv zeta.
    match goal with
    | |- context [if ?b then Nat.min _ _ else _] => destruct b
    end; destruct (ObstacleManager.typeDraw d); simpl; lia. }
  match goal with
  | |- context [ObstacleManager.createObstacle ?td ?x ?z m] =>
      destruct (createObstacle_shape td x z m)
        as (o & ob1 & _ & _ & _ & _ & Ha & _ & Hz & _);
      destruct (ObstacleManager.createObstacle td x z m) as [m1 [o' | e]]
  end; [| reflexivity].
  cbn [fst snd] in *.
  cbn [ObstacleManager.nextObstacleZ ObstacleManager.set_activeObstacles].
  rewrite Ha, Hz. reflexivity.
Qed.

Lemma checkPassed_cases playerPosition (m : ObstacleManager.state num) o :
  ObstacleManager.activeObstacles
    (ObstacleManager.checkPassed playerPosition m o)
  = ObstacleManager.activeObstacles m
  /\ ObstacleManager.obstaclePool
       (ObstacleManager.checkPassed playerPosition m o)
     = ObstacleManager.obstaclePool m
  /\ (ObstacleManager.objects
        (ObstacleManager.checkPassed playerPosition m o)
      = ObstacleManager.objects m
      \/ ObstacleManager.objects
           (ObstacleManager.checkPassed playerPosition m o)
         = alter (with_flag true) o (ObstacleManager.objects m)).
Proof.
  unfold ObstacleManager.checkPassed.
  destruct (ObstacleManager.objects m !! o) as [ob |];
    [| repeat split; left; reflexivity].
  destruct (_ && _); [| repeat split; left; reflexivity].
  cbv zeta. rewrite modify_alter. repeat split. right. reflexivity.
Qed.

Lemma checkObstaclesPassed_shape playerPosition os
    (m : ObstacleManager.state num) :
  ObstacleManager.activeObstacles
    (fold_left (ObstacleManager.checkPassed playerPosition) os m)
  = ObstacleManager.activeObstacles m
  /\ ObstacleManager.obstaclePool
       (fold_left (ObstacleManager.checkPassed playerPosition) os m)
     = ObstacleManager.obstaclePool m
  /\ forall o,
       with_flag false
         <$> (ObstacleManager.objects
                (fold_left (ObstacleManager.checkPassed playerPosition) os m)
                !! o)
       = with_flag false <$> (ObstacleManager.objects m !! o).
Proof.
  revert m. induction os as [| o rest IH]; intros m; simpl.
  - repeat split; reflexivity.
  - destruct (IH (ObstacleManager.checkPassed playerPosition m o))
      as (-> & -> & Hl).
    destruct (checkPassed_cases playerPosition m o) as (-> & -> & Hobj).
    split; [reflexivity |]. split; [reflexivity |].
    intros o'. rewrite Hl. destruct Hobj as [-> | ->]; [reflexivity |].
    rewrite list_lookup_alter.
    destruct (decide (o = o')) as [<- | _]; [| reflexivity].
    destruct (ObstacleManager.objects m !! o); reflexivity.
Qed.

Lemma pool_inv_flags (m m' : ObstacleManager.state num) :
  ObstacleManager.activeObstacles m' = ObstacleManager.activeObstacles m ->
  ObstacleManager.obstaclePool m' = ObstacleManager.obstaclePool m ->
  (forall o,
     with_flag false <$> (ObstacleManager.objects m' !! o)
     = with_flag false <$> (ObstacleManager.objects m !! o)) ->
  pool_inv m -> pool_inv m'.
Proof.
  intros Ha Hp Hl (Hnd & Hbody & Hmem). unfold pool_inv.
  rewrite Ha, Hp. split; [exact Hnd |]. split.
  - intros o ob' Hob'. specialize (Hl o). rewrite Hob' in Hl.
    destruct (ObstacleManager.objects m !! o) as [ob |] eqn:Hob;
      [| discriminate].
    simpl in Hl. injection Hl as Ht Hpos Hr Hd Hb.
    rewrite Hb, Hpos, Ht. apply (Hbody o ob Hob).
  - intros o Hin. specialize (Hl o). destruct (Hmem o Hin) as [ob Hob].
    rewrite Hob in Hl.
    destruct (ObstacleManager.objects m' !! o); [eexists; reflexivity |].
    discriminate.
Qed.

Lemma pool_inv_removeDistantObstacles playerPosition
    (m : ObstacleManager.state num) :
  pool_inv m ->
  pool_inv (ObstacleManager.removeDistantObstacles playerPosition m).
Proof.
  intros (Hnd & Hbody & Hmem).
  destruct (removeDistantObstacles_shape playerPosition m)
    as (Ha & Hp & Hl & _).
  pose proof (filter_partition (far playerPosition m)
                (ObstacleManager.activeObstacles m)) as Hperm.
  set (kept := List.filter (fun o => negb (far playerPosition m o))
                 (ObstacleManager.activeObstacles m)) in *.
  set (gone := List.filter (far playerPosition m)
                 (ObstacleManager.activeObstacles m)) in *.
  assert (Hall : kept ++ ObstacleManager.obstaclePool m ++ gone
                 ≡ₚ ObstacleManager.activeObstacles m
                    ++ ObstacleManager.obstaclePool m).
  { rewrite Hperm. rewrite <- !app_assoc. apply Permutation_app_head.
    apply Permutation_app_comm. }
  assert (Hnd' : NoDup (kept ++ ObstacleManager.obstaclePool m ++ gone))
    by (rewrite Hall; exact Hnd).
  unfold pool_inv. rewrite Ha, Hp. split; [exact Hnd' |]. split.
  - intros o ob' Hob'. rewrite Hl in Hob'. rewrite Hall.
    apply NoDup_app in Hnd' as (_ & Hdisj & _).
    destruct (decide (o ∈ gone)) as [Hgone | Hkeep].
    + destruct (ObstacleManager.objects m !! o) as [ob |] eqn:Hob;
        [| discriminate].
      injection Hob' as <-. destruct (Hbody o ob Hob) as (Hty & _ & _).
      split; [exact Hty |]. split; [| reflexivity].
      intros Hk. exfalso. apply (Hdisj o Hk).
      apply elem_of_app. right. exact Hgone.
    + destruct (Hbody o ob' Hob') as (Hty & Hact & Hnact).
      split; [exact Hty |]. split.
      * intros Hk. apply Hact. rewrite Hperm. apply elem_of_app.
        left. exact Hk.
      * intros Hk. apply Hnact. rewrite Hperm. intros Hin.
        apply elem_of_app in Hin as [Hin | Hin]; contradiction.
  - intros o Hin. rewrite Hall in Hin. rewrite Hl.
    destruct (decide _); [| apply Hmem, Hin].
    rewrite fmap_is_Some. apply Hmem, Hin.
Qed.

Lemma pool_inv_createObstacle typeData x z (m : ObstacleManager.state num) :
  pool_inv m ->
  match ObstacleManager.createObstacle typeData x z m with
  | (m1, Normal o) =>
      forall nextZ,
        pool_inv
          (ObstacleManager.set_nextObstacleZ nextZ
             (ObstacleManager.set_activeObstacles
                (ObstacleManager.activeObstacles m ++ [o]) m1))
  | (m1, Throw _) => pool_inv m1
  end.
Proof.
  intros (Hnd & Hbody & Hmem).
  destruct (createObstacle_shape typeData x z m)
    as (o & ob1 & Hnew & Hsame & Hres & Hold & Hact & Hfrom & _).
  assert (Hkind : obstacleType ob1 = ObstacleManager.type typeData)
    by (injection Hsame as Ht _ _ _; exact Ht).
  destruct (ObstacleManager.createObstacle typeData x z m) as [m1 [o' | e]];
    cbn [fst snd] in *.
  - destruct Hres as (-> & Hnot & ->). intros nextZ. unfold pool_inv.
    cbn [ObstacleManager.activeObstacles ObstacleManager.obstaclePool
         ObstacleManager.objects ObstacleManager.set_nextObstacleZ
         ObstacleManager.set_activeObstacles].
    assert (Hall : (ObstacleManager.activeObstacles m ++ [o])
                     ++ ObstacleManager.obstaclePool m1
                   ≡ₚ o :: (ObstacleManager.activeObstacles m
                            ++ ObstacleManager.obstaclePool m1)).
    { rewrite <- app_assoc. simpl. symmetry. apply Permutation_middle. }
    assert (Hrest : NoDup (o :: ObstacleManager.activeObstacles m
                             ++ ObstacleManager.obstaclePool m1)
                    /\ forall o',
                         o' <> o ->
                         (o' ∈ ObstacleManager.activeObstacles m
                               ++ ObstacleManager.obstaclePool m1
                          <-> o' ∈ ObstacleManager.activeObstacles m
                                   ++ ObstacleManager.obstaclePool m)).
    { destruct Hfrom as [(index & ob & Hidx & Hpool & Hob & _) | (Hnone & Hpool)].
      - pose proof (delete_Permutation _ _ _ Hidx) as Hdel.
        rewrite <- Hpool in Hdel.
        assert (Hp : o :: ObstacleManager.activeObstacles m
                          ++ ObstacleManager.obstaclePool m1
                     ≡ₚ ObstacleManager.activeObstacles m
                        ++ ObstacleManager.obstaclePool m).
        { rewrite Hdel. apply Permutation_middle. }
        split; [rewrite Hp; exact Hnd |].
        intros o' Hne. rewrite <- Hp, elem_of_cons. tauto.
      - rewrite Hpool. split; [| tauto].
        apply NoDup_cons. split; [| exact Hnd].
        intros Hin. apply Hmem in Hin. rewrite Hnone in Hin.
        destruct Hin. discriminate. }
    destruct Hrest as [Hnd' Hiff].
    split; [rewrite Hall; exact Hnd' |]. split.
    + intros o' ob' Hob'. rewrite Hall, elem_of_cons.
      destruct (decide (o' = o)) as [-> | Hne].
      * rewrite Hnew in Hob'. injection Hob' as <-.
        split; [split; [intros _; exact Hnot | tauto] |].
        split; [reflexivity |].
        intros Hn. exfalso. apply Hn, elem_of_app. right.
        apply elem_of_cons. left. reflexivity.
      * rewrite (Hold o' Hne) in Hob'.
        destruct (Hbody o' ob' Hob') as (Hty & Hact' & Hnact).
        split; [rewrite (Hiff o' Hne), <- Hty; tauto |]. split.
        -- intros Hin. apply elem_of_app in Hin as [Hin | Hin];
             [apply Hact', Hin |].
           apply elem_of_cons in Hin as [-> | Hin]; [contradiction |].
           apply elem_of_nil in Hin. contradiction.
        -- intros Hn. apply Hnact. intros Hin. apply Hn, elem_of_app.
           left. exact Hin.
    + intros o' Hin. rewrite Hall, elem_of_cons in Hin.
      destruct (decide (o' = o)) as [-> | Hne];
        [rewrite Hnew; eexists; reflexivity |].
      rewrite (Hold o' Hne). apply Hmem, (Hiff o' Hne).
      destruct Hin; [contradiction | assumption].
  - destruct Hres as (_ & Hspike & Hb).
    destruct Hfrom as [(index & ob & Hidx & _ & Hob & Hty) | (Hnone & Hpool)].
    { exfalso. destruct (Hbody o ob Hob) as (Hiff & _).
      apply Hiff; [| congruence].
      apply elem_of_app. right. eapply list_elem_of_lookup_2. exact Hidx. }
    rewrite Hnone in Hb. simpl in Hb.
    assert (Hout : o ∉ ObstacleManager.activeObstacles m
                       ++ ObstacleManager.obstaclePool m).
    { intros Hin. apply Hmem in Hin. rewrite Hnone in Hin.
      destruct Hin. discriminate. }
    unfold pool_inv. rewrite Hact, Hpool. split; [exact Hnd |]. split.
    + intros o' ob' Hob'. destruct (decide (o' = o)) as [-> | Hne].
      * rewrite Hnew in Hob'. injection Hob' as <-.
        split; [split; [contradiction | congruence] |].
        split; [| intros _; exact Hb].
        intros Hin. exfalso. apply Hout, elem_of_app. left. exact Hin.
      * rewrite (Hold o' Hne) in Hob'. apply (Hbody o' ob' Hob').
    + intros o' Hin. destruct (decide (o' = o)) as [-> | Hne];
        [contradiction |].
      rewrite (Hold o' Hne). apply Hmem, Hin.
Qed.

Lemma pool_inv_generateObstacle playerPosition d
    (m : ObstacleManager.state num) :
  pool_inv m ->
  pool_inv (fst (ObstacleManager.generateObstacle playerPosition d m)).
Proof.
  intros Hinv.
  destruct (generateObstacle_cases playerPosition d m)
    as [-> | (_ & _ & _ & ->)]; [exact Hinv |].
  match goal with
  | |- context [ObstacleManager.createObstacle ?td ?x ?z m] =>
      pose proof (pool_inv_createObstacle td x z m Hinv) as Hc;
      destruct (ObstacleManager.createObstacle td x z m) as [m1 [o | e]]
  end; cbn [fst]; [apply Hc | exact Hc].
Qed.

Lemma pool_inv_update playerPosition d (m : ObstacleManager.state num) :
  pool_inv m -> pool_inv (fst (ObstacleManager.update playerPosition d m)).
Proof.
  intros Hinv. unfold ObstacleManager.update. cbv zeta.
  assert (Hrem : pool_inv
                   (ObstacleManager.removeDistantObstacles playerPosition
                      (ObstacleManager.updateDifficulty playerPosition m))).
  { apply pool_inv_removeDistantObstacles. exact Hinv. }
  set (m1 := ObstacleManager.removeDistantObstacles _ _) in *.
  match goal with
  | |- context [let '(_, _) := ?g in _] =>
      assert (Hgen : pool_inv (fst g));
      [| destruct g as [m2 [e |]]; cbn [fst] in *; [exact Hgen |]]
  end.
  { destruct (ltb _ _); [apply pool_inv_generateObstacle |]; exact Hrem. }
  unfold ObstacleManager.checkObstaclesPassed.
  destruct (checkObstaclesPassed_shape playerPosition
              (ObstacleManager.activeObstacles m2) m2) as (Ha & Hp & Hl).
  apply (pool_inv_flags m2 _ Ha Hp Hl), Hgen.
Qed.

Lemma recycle_all_shape os (m : ObstacleManager.state num) :
  ObstacleManager.obstaclePool
    (fold_left (fun m o => ObstacleManager.recycleObstacle o m) os m)
  = ObstacleManager.obstaclePool m ++ os
  /\ forall o',
       ObstacleManager.objects
         (fold_left (fun m o => ObstacleManager.recycleObstacle o m) os m)
         !! o'
       = if decide (o' ∈ os)
         then without_body <$> (ObstacleManager.objects m !! o')
         else ObstacleManager.objects m !! o'.
Proof.
  revert m. induction os as [| o rest IH]; intros m; simpl.
  - rewrite app_nil_r. split; [reflexivity |]. intros o'. reflexivity.
  - destruct (IH (ObstacleManager.recycleObstacle o m)) as (-> & Hl).
    destruct (recycleObstacle_shape o m) as (Ho & -> & _).
    split; [rewrite <- app_assoc; reflexivity |].
    intros o'. rewrite Hl, Ho, list_lookup_alter.
    repeat case_decide; subst;
      try (destruct (ObstacleManager.objects m !! _); reflexivity);
      exfalso;
      match goal with
      | Hn : _ ∉ _ :: _ |- _ => apply Hn, elem_of_cons; tauto
      | Hi : _ ∈ _ :: _ |- _ =>
          apply elem_of_cons in Hi; destruct Hi; congruence
      end.
Qed.

Lemma pool_inv_reset (m : ObstacleManager.state num) :
  pool_inv m -> pool_inv (ObstacleManager.reset m).
Proof.
  intros (Hnd & Hbody & Hmem). unfold ObstacleManager.reset. cbv zeta.
  destruct (recycle_all_shape (ObstacleManager.activeObstacles m) m)
    as (Hp & Hl).
  unfold pool_inv.
  cbn [ObstacleManager.activeObstacles ObstacleManager.obstaclePool
       ObstacleManager.objects ObstacleManager.set_nextObstacleZ
       ObstacleManager.set_activeObstacles ObstacleManager.emit
       ObstacleManager.set_obstaclesAvoided ObstacleManager.set_difficulty].
  rewrite Hp. simpl ([] ++ _).
  assert (Hperm : ObstacleManager.obstaclePool m
                    ++ ObstacleManager.activeObstacles m
                  ≡ₚ ObstacleManager.activeObstacles m
                     ++ ObstacleManager.obstaclePool m)
    by apply Permutation_app_comm.
  split; [rewrite Hperm; exact Hnd |]. split.
  - intros o ob' Hob'. rewrite Hl in Hob'. rewrite Hperm.
    destruct (decide (o ∈ ObstacleManager.activeObstacles m))
      as [Hact | Hnact].
    + destruct (ObstacleManager.objects m !! o) as [ob |] eqn:Hob;
        [| discriminate].
      injection Hob' as <-. destruct (Hbody o ob Hob) as (Hty & _ & _).
      split; [exact Hty |]. split; [| reflexivity].
      intros Hin. apply elem_of_nil in Hin. contradiction.
    + destruct (Hbody o ob' Hob') as (Hty & _ & Hnone).
      split; [exact Hty |]. split; [| intros _; apply Hnone, Hnact].
      intros Hin. apply elem_of_nil in Hin. contradiction.
  - intros o Hin. rewrite Hperm in Hin. rewrite Hl.
    destruct (decide _); [| apply Hmem, Hin].
    rewrite fmap_is_Some. apply Hmem, Hin.
Qed.

Lemma pool_inv_constructor :
  pool_inv (ObstacleManager.constructor (num := num)).
Proof.
  unfold pool_inv. simpl. split; [apply NoDup_nil_2 |]. split.
  - intros o ob Hob. discriminate.
  - intros o Hin. apply elem_of_nil in Hin. contradiction.
Qed.

Lemma pool_inv_calls cs (m : ObstacleManager.state num) :
  pool_inv m -> pool_inv (calls cs m).
Proof.
  revert m. induction cs as [| c cs IH]; intros m Hinv; [exact Hinv |].
  apply IH. destruct c as [playerPosition d |].
  - apply pool_inv_update, Hinv.
  - apply pool_inv_reset, Hinv.
Qed.

(** *** The type table *)

Lemma table_inv_static (m m' : ObstacleManager.state num) :
  (forall o ob',
     ObstacleManager.objects m' !! o = Some ob' ->
     exists ob,
       ObstacleManager.objects m !! o = Some ob
       /\ with_flag false (without_body ob')
          = with_flag false (without_body ob)) ->
  table_inv m -> table_inv m'.
Proof.
  intros Hl Hinv o ob' Hob'. destruct (Hl o ob' Hob') as (ob & Hob & Heq).
  injection Heq as Ht Hpos Hr Hd. rewrite Ht, Hpos, Hr, Hd.
  apply (Hinv o ob Hob).
Qed.

Lemma keeps_kinds_static (m m' : ObstacleManager.state num) :
  (forall o ob,
     ObstacleManager.objects m !! o = Some ob ->
     exists ob',
       ObstacleManager.objects m' !! o = Some ob'
       /\ with_flag false (without_body ob')
          = with_flag false (without_body ob)) ->
  keeps_kinds m m'.
Proof.
  intros Hl o ob Hob. destruct (Hl o ob Hob) as (ob' & Hob' & Heq).
  exists ob'. split; [exact Hob' |]. injection Heq as Ht _ _ _. exact Ht.
Qed.

Lemma keeps_kinds_refl (m : ObstacleManager.state num) : keeps_kinds m m.
Proof. intros o ob Hob. exists ob. split; [exact Hob | reflexivity]. Qed.

Lemma keeps_kinds_trans (m1 m2 m3 : ObstacleManager.state num) :
  keeps_kinds m1 m2 -> keeps_kinds m2 m3 -> keeps_kinds m1 m3.
Proof.
  intros H12 H23 o ob Hob.
  destruct (H12 o ob Hob) as (ob2 & Hob2 & Ht2).
  destruct (H23 o ob2 Hob2) as (ob3 & Hob3 & Ht3).
  exists ob3. split; [exact Hob3 | congruence].
Qed.

Lemma removeDistantObstacles_static playerPosition
    (m : ObstacleManager.state num) o :
  with_flag false
    <$> (without_body
           <$> (ObstacleManager.objects
                  (ObstacleManager.removeDistantObstacles playerPosition m)
                  !! o))
  = with_flag false
      <$> (without_body <$> (ObstacleManager.objects m !! o)).
Proof.
  destruct (removeDistantObstacles_shape playerPosition m) as (_ & _ & -> & _).
  destruct (decide _); [| reflexivity].
  destruct (ObstacleManager.objects m !! o); reflexivity.
Qed.

Lemma checkObstaclesPassed_static playerPosition
    (m : ObstacleManager.state num) o :
  with_flag false
    <$> (without_body
           <$> (ObstacleManager.objects
                  (ObstacleManager.checkObstaclesPassed playerPosition m)
                  !! o))
  = with_flag false
      <$> (without_body <$> (ObstacleManager.objects m !! o)).
Proof.
  unfold ObstacleManager.checkObstaclesPassed.
  destruct (checkObstaclesPassed_shape playerPosition
              (ObstacleManager.activeObstacles m) m) as (_ & _ & Hl).
  specialize (Hl o).
  destruct (ObstacleManager.objects (fold_left _ _ _) !! o) as [ob' |],
    (ObstacleManager.objects m !! o) as [ob |]; simpl in *;
    try discriminate; [| reflexivity].
  unfold with_flag, without_body in *. simpl in *. congruence.
Qed.

Lemma reset_static (m : ObstacleManager.state num) o :
  with_flag false
    <$> (without_body
           <$> (ObstacleManager.objects (ObstacleManager.reset m) !! o))
  = with_flag false
      <$> (without_body <$> (ObstacleManager.objects m !! o)).
Proof.
  unfold ObstacleManager.reset. cbv zeta.
  cbn [ObstacleManager.objects ObstacleManager.set_nextObstacleZ
       ObstacleManager.set_activeObstacles ObstacleManager.emit
       ObstacleManager.set_obstaclesAvoided ObstacleManager.set_difficulty].
  destruct (recycle_all_shape (ObstacleManager.activeObstacles m) m)
    as (_ & ->).
  destruct (decide _); [| reflexivity].
  destruct (ObstacleManager.objects m !! o); reflexivity.
Qed.

Lemma static_from_lookups (m m' : ObstacleManager.state num) :
  (forall o,
     with_flag false
       <$> (without_body <$> (ObstacleManager.objects m' !! o))
     = with_flag false
         <$> (without_body <$> (ObstacleManager.objects m !! o))) ->
  (forall o ob',
     ObstacleManager.objects m' !! o = Some ob' ->
     exists ob,
       ObstacleManager.objects m !! o = Some ob
       /\ with_flag false (without_body ob')
          = with_flag false (without_body ob))
  /\ (forall o ob,
        ObstacleManager.objects m !! o = Some ob ->
        exists ob',
          ObstacleManager.objects m' !! o = Some ob'
          /\ with_flag false (without_body ob')
             = with_flag false (without_body ob)).
Proof.
  intros Hl. split; intros o ob Hob; specialize (Hl o); rewrite Hob in Hl.
  - destruct (ObstacleManager.objects m !! o) as [ob0 |]; [| discriminate].
    exists ob0. split; [reflexivity |]. simpl in Hl. congruence.
  - destruct (ObstacleManager.objects m' !! o) as [ob0 |]; [| discriminate].
    exists ob0. split; [reflexivity |]. simpl in Hl. congruence.
Qed.

Lemma typeData_at_kind (typeIndex : nat) :
  (typeIndex <= 3)%nat ->
  ObstacleManager.typeData_at
    (ObstacleManager.kind_index
       (ObstacleManager.type
          (ObstacleManager.typeData_at (num := num) typeIndex)))
  = ObstacleManager.typeData_at typeIndex.
Proof.
  intros Hle.
  destruct typeIndex as [| [| [| [| n]]]]; try reflexivity. lia.
Qed.

Lemma table_inv_generateObstacle playerPosition d
    (m : ObstacleManager.state num) :
  table_inv m ->
  table_inv (fst (ObstacleManager.generateObstacle playerPosition d m)).
Proof.
  intros Hinv.
  destruct (generateObstacle_cases playerPosition d m)
    as [-> | (_ & _ & Hle & ->)]; [exact Hinv |].
  match goal with
  | |- context [ObstacleManager.createObstacle ?td ?x ?z m] =>
      destruct (createObstacle_shape td x z m)
        as (o & ob1 & Hnew & Hsame & _ & Hold & _);
      destruct (ObstacleManager.createObstacle td x z m) as [m1 c]
  end.
  cbn [fst snd] in *.
  assert (Hm1 : table_inv m1).
  { intros o' ob'. destruct (decide (o' = o)) as [-> | Hne].
    - rewrite Hnew. intros [= <-]. injection Hsame as -> -> -> ->.
      cbn [vy]. rewrite typeData_at_kind by exact Hle.
      repeat split; reflexivity.
    - rewrite (Hold o' Hne). apply Hinv. }
  destruct c as [o' | e]; exact Hm1.
Qed.

Lemma keeps_kinds_generateObstacle playerPosition d
    (m : ObstacleManager.state num) :
  keeps_kinds m (fst (ObstacleManager.generateObstacle playerPosition d m)).
Proof.
  destruct (generateObstacle_cases playerPosition d m)
    as [-> | (_ & _ & Hle & ->)]; [apply keeps_kinds_refl |].
  match goal with
  | |- context [ObstacleManager.createObstacle ?td ?x ?z m] =>
      destruct (createObstacle_shape td x z m)
        as (o & ob1 & Hnew & Hsame & _ & Hold & _ & Hfrom & _);
      destruct (ObstacleManager.createObstacle td x z m) as [m1 c]
  end.
  cbn [fst snd] in *.
  assert (Hm1 : keeps_kinds m m1).
  { intros o' ob Hob. destruct (decide (o' = o)) as [-> | Hne].
    - rewrite Hnew. eexists. split; [reflexivity |].
      injection Hsame as -> _ _ _.
      destruct Hfrom as [(index & ob0 & _ & _ & Hob0 & Hkind) | (Hnone & _)];
        [| congruence].
      rewrite Hob in Hob0. injection Hob0 as <-. symmetry. exact Hkind.
    - rewrite (Hold o' Hne). exists ob. split; [exact Hob | reflexivity]. }
  destruct c as [o' | e]; exact Hm1.
Qed.

Lemma update_static playerPosition d (m : ObstacleManager.state num) :
  (table_inv m -> table_inv (fst (ObstacleManager.update playerPosition d m)))
  /\ keeps_kinds m (fst (ObstacleManager.update playerPosition d m)).
Proof.
  unfold ObstacleManager.update. cbv zeta.
  set (m1 := ObstacleManager.removeDistantObstacles playerPosition
               (ObstacleManager.updateDifficulty playerPosition m)).
  destruct (static_from_lookups m m1) as [Hback Hforth].
  { intros o. unfold m1. rewrite removeDistantObstacles_static.
    reflexivity. }
  match goal with
  | |- context [let '(_, _) := ?g in _] => set (g2 := g)
  end.
  assert (H2 : (table_inv m1 -> table_inv (fst g2)) /\ keeps_kinds m1 (fst g2)).
  { unfold g2. destruct (ltb _ _).
    - split; [apply table_inv_generateObstacle
             | apply keeps_kinds_generateObstacle].
    - split; [tauto | apply keeps_kinds_refl]. }
  destruct g2 as [m2 [e |]]; cbn [fst] in *.
  - split.
    + intros Hinv. apply H2, (table_inv_static m _ Hback), Hinv.
    + apply keeps_kinds_trans with m1; [apply keeps_kinds_static, Hforth |].
      apply H2.
  - destruct (static_from_lookups m2
                (ObstacleManager.checkObstaclesPassed playerPosition m2))
      as [Hback3 Hforth3].
    { intros o. apply checkObstaclesPassed_static. }
    split.
    + intros Hinv. apply (table_inv_static m2 _ Hback3), H2.
      apply (table_inv_static m _ Hback), Hinv.
    + apply keeps_kinds_trans with m1; [apply keeps_kinds_static, Hforth |].
      apply keeps_kinds_trans with m2; [apply H2 |].
      apply keeps_kinds_static, Hforth3.
Qed.

Lemma call_static (c : ManagerCall num) (m : ObstacleManager.state num) :
  (table_inv m -> table_inv (call c m)) /\ keeps_kinds m (call c m).
Proof.
  destruct c as [playerPosition d |]; [apply update_static |].
  destruct (static_from_lookups m (ObstacleManager.reset m))
    as [Hback Hforth]; [intros o; apply reset_static |].
  split.
  - apply table_inv_static, Hback.
  - apply keeps_kinds_static, Hforth.
Qed.

Lemma table_inv_calls cs (m : ObstacleManager.state num) :
  table_inv m -> table_inv (calls cs m).
Proof.
  revert m. induction cs as [| c cs IH]; intros m Hinv; [exact Hinv |].
  apply IH, call_static, Hinv.
Qed.

Lemma checkObstacleCollisions_with_bodies distanceTo r
    (obstacles : list (Obstacle num)) (p : Player.state num) :
  Forall (fun obstacle => is_Some (obstacleBody obstacle)) obstacles ->
  exists p', Game.checkObstacleCollisions distanceTo r obstacles p = Normal p'.
Proof.
  intros Hall. revert p.
  induction Hall as [| obstacle rest [pos Hpos] _ IH]; intros p; simpl.
  - exists p. reflexivity.
  - unfold Player.checkObstacleCollision. rewrite Hpos.
    destruct (ltb _ _); [eexists; reflexivity | apply IH].
Qed.

Lemma records_bodies (m : ObstacleManager.state num) (os : list nat) :
  pool_inv m ->
  (forall o, o ∈ os -> o ∈ ObstacleManager.activeObstacles m) ->
  length (omap (fun o => ObstacleManager.objects m !! o) os) = length os
  /\ Forall (fun obstacle =>
               obstacleBody obstacle = Some (obstaclePosition obstacle))
            (omap (fun o => ObstacleManager.objects m !! o) os).
Proof.
  intros (_ & Hbody & Hmem).
  induction os as [| o os IH]; intros Hsub; simpl.
  - split; [reflexivity | constructor].
  - assert (Hin : o ∈ ObstacleManager.activeObstacles m)
      by (apply Hsub, elem_of_cons; left; reflexivity).
    assert (Hs : is_Some (ObstacleManager.objects m !! o))
      by (apply Hmem, elem_of_app; left; exact Hin).
    destruct Hs as [ob Hob]. rewrite Hob.
    destruct IH as [Hlen Hall].
    { intros o' Ho'. apply Hsub, elem_of_cons. right. exact Ho'. }
    split; [simpl; f_equal; exact Hlen |].
    constructor; [| exact Hall]. apply (Hbody o ob Hob), Hin.
Qed.

Lemma activeRecords_bodies (m : ObstacleManager.state num) :
  pool_inv m ->
  length (activeRecords m) = length (ObstacleManager.activeObstacles m)
  /\ Forall (fun obstacle =>
               obstacleBody obstacle = Some (obstaclePosition obstacle))
            (activeRecords m).
Proof.
  intros Hinv. apply records_bodies; [exact Hinv | tauto].
Qed.

(** X16: Through every run of [update] and [reset] from the constructor, no
    obstacle object is referenced twice from [activeObstacles] and
    [obstaclePool], and every reference is to an object.  The objects
    that are referenced are those that are not ice spikes: an ice spike is
    created, added to the scene and then left in neither array, without a
    body, because [addObstaclePhysics] throws for it.  The active objects
    have a body, at their own position, and the pooled ones have none. *)
Theorem pool_partitions_objects (cs : list (ManagerCall num)) :
  NoDup (ObstacleManager.activeObstacles (calls cs ObstacleManager.constructor)
         ++ ObstacleManager.obstaclePool (calls cs ObstacleManager.constructor))
  /\ (forall o,
        o ∈ ObstacleManager.activeObstacles
              (calls cs ObstacleManager.constructor)
            ++ ObstacleManager.obstaclePool
                 (calls cs ObstacleManager.constructor)
        <-> exists ob,
              ObstacleManager.objects (calls cs ObstacleManager.constructor)
                !! o = Some ob
              /\ obstacleType ob <> iceSpike)
  /\ Forall (fun obstacle =>
               obstacleType obstacle = iceSpike -> obstacleBody obstacle = None)
            (ObstacleManager.objects (calls cs ObstacleManager.constructor))
  /\ Forall (fun obstacle =>
               obstacleBody obstacle = Some (obstaclePosition obstacle))
            (activeRecords (calls cs ObstacleManager.constructor))
  /\ Forall (fun o =>
               obstacleBody
                 <$> (ObstacleManager.objects
                        (calls cs ObstacleManager.constructor) !! o)
               = Some None)
            (ObstacleManager.obstaclePool
               (calls cs ObstacleManager.constructor)).
Proof.
  pose proof (pool_inv_calls cs _ pool_inv_constructor) as Hinv.
  destruct (activeRecords_bodies _ Hinv) as [_ Hact].
  destruct Hinv as (Hnd & Hbody & Hmem).
  split; [exact Hnd |]. split.
  { intros o. split.
    - intros Hin. destruct (Hmem o Hin) as [ob Hob]. exists ob.
      split; [exact Hob |]. apply (Hbody o ob Hob), Hin.
    - intros (ob & Hob & Hty). apply (Hbody o ob Hob), Hty. }
  split.
  { apply Forall_lookup. intros o ob Hob Hty.
    destruct (Hbody o ob Hob) as (Hiff & _ & Hnone). apply Hnone.
    intros Hin. apply (proj1 Hiff); [| exact Hty].
    apply elem_of_app. left. exact Hin. }
  split; [exact Hact |].
  apply Forall_forall. intros o Ho.
  assert (Hall : o ∈ ObstacleManager.activeObstacles
                       (calls cs ObstacleManager.constructor)
                     ++ ObstacleManager.obstaclePool
                          (calls cs ObstacleManager.constructor))
    by (apply elem_of_app; right; exact Ho).
  destruct (Hmem o Hall) as [ob Hob]. rewrite Hob. simpl. f_equal.
  apply (Hbody o ob Hob). intros Hin.
  apply NoDup_app in Hnd as (_ & Hdisj & _). apply (Hdisj o Hin Ho).
Qed.

(** X17: The collision check of [Game] never throws on the obstacles of the
    manager: after every run of [update] and [reset] each entry of
    [activeObstacles] is an object with a body, so the read of
    [obstacle.body.position] succeeds. *)
Theorem collisions_never_throw (cs : list (ManagerCall num))
    distanceTo r (p : Player.state num) :
  length (activeRecords (calls cs ObstacleManager.constructor))
  = length (ObstacleManager.activeObstacles
              (calls cs ObstacleManager.constructor))
  /\ exists p',
       Game.checkObstacleCollisions distanceTo r
         (activeRecords (calls cs ObstacleManager.constructor)) p
       = Normal p'.
Proof.
  pose proof (pool_inv_calls cs _ pool_inv_constructor) as Hinv.
  destruct (activeRecords_bodies _ Hinv) as [Hlen Hact].
  split; [exact Hlen |].
  apply checkObstacleCollisions_with_bodies.
  eapply Forall_impl; [exact Hact |].
  intros obstacle Hb. simpl in Hb. rewrite Hb. eexists. reflexivity.
Qed.

(** X18: Through every run from the constructor each object carries the
    collision radius and the damage multiplier that [obstacleTypesData]
    gives for its type, and stands at height 0. *)
Theorem objects_follow_type_table (cs : list (ManagerCall num)) :
  Forall (fun obstacle =>
            collisionRadius obstacle
            = ObstacleManager.typeCollisionRadius
                (ObstacleManager.typeData_at
                   (ObstacleManager.kind_index (obstacleType obstacle)))
            /\ damageMultiplier obstacle
               = ObstacleManager.typeDamageMultiplier
                   (ObstacleManager.typeData_at
                      (ObstacleManager.kind_index (obstacleType obstacle)))
            /\ vy (obstaclePosition obstacle) = lit 0)
         (ObstacleManager.objects (calls cs ObstacleManager.constructor)).
Proof.
  assert (Hinv : table_inv (calls cs (ObstacleManager.constructor (num := num)))).
  { apply table_inv_calls. intros o ob Hob. discriminate. }
  apply Forall_lookup. intros o ob Hob. apply (Hinv o ob Hob).
Qed.

(** X19: No call of the manager frees an object or changes its type: an object
    taken from the pool is reused only for the type it was built for. *)
Theorem obstacle_kind_never_changes (c : ManagerCall num)
    (m : ObstacleManager.state num) o ob :
  ObstacleManager.objects m !! o = Some ob ->
  exists ob',
    ObstacleManager.objects (call c m) !! o = Some ob'
    /\ obstacleType ob' = obstacleType ob.
Proof. apply call_static. Qed.


(** X23: What [generateObstacle] does, in every state.  If the spawn draw is
    above [obstacleSpawnFrequency], or the player is less than
    [minDistanceBetweenObstacles] from [nextObstacleZ], nothing changes.
    Otherwise an obstacle object is placed on the ground at
    [nextObstacleZ], at [x = (xDraw * 2 - 1) * obstacleSpread], with the
    radius and the multiplier of the entry that the type draws pick and the
    avoided flag clear.  If that entry is the ice spike, the call throws a
    TypeError: [activeObstacles] and [nextObstacleZ] are as before.  If
    not, the object gets a body at its place and is appended to
    [activeObstacles], and [nextObstacleZ] moves on by
    [minDistanceBetweenObstacles * (1 + gapDraw * 0.5)]. *)
Theorem generateObstacle_placement playerPosition d
    (m : ObstacleManager.state num) :
  (ltb (ObstacleManager.obstacleSpawnFrequency m)
       (ObstacleManager.spawnDraw d) = true
   \/ ltb (jsabs (sub (vz playerPosition) (ObstacleManager.nextObstacleZ m)))
          ObstacleManager.minDistanceBetweenObstacles = true ->
   ObstacleManager.generateObstacle playerPosition d m = (m, None))
  /\ (ltb (ObstacleManager.obstacleSpawnFrequency m)
          (ObstacleManager.spawnDraw d) = false ->
      ltb (jsabs (sub (vz playerPosition) (ObstacleManager.nextObstacleZ m)))
          ObstacleManager.minDistanceBetweenObstacles = false ->
      exists o,
        (ObstacleManager.type
           (ObstacleManager.typeData_at (num := num)
              (ObstacleManager.chosenIndex
                 (ObstacleManager.difficultyLevel m) d)) = iceSpike ->
         snd (ObstacleManager.generateObstacle playerPosition d m)
         = Some TypeError
         /\ ObstacleManager.activeObstacles
              (fst (ObstacleManager.generateObstacle playerPosition d m))
            = ObstacleManager.activeObstacles m
         /\ ObstacleManager.nextObstacleZ
              (fst (ObstacleManager.generateObstacle playerPosition d m))
            = ObstacleManager.nextObstacleZ m
         /\ without_body
              <$> (ObstacleManager.objects
                     (fst (ObstacleManager.generateObstacle playerPosition d m))
                     !! o)
            = Some (without_body
                      (placed
                         (ObstacleManager.typeData_at
                            (ObstacleManager.chosenIndex
                               (ObstacleManager.difficultyLevel m) d))
                         (mul (sub (mul (ObstacleManager.xDraw d) (lit 2))
                                   (lit 1))
                              (ObstacleManager.obstacleSpread m))
                         (ObstacleManager.nextObstacleZ m))))
        /\ (ObstacleManager.type
              (ObstacleManager.typeData_at (num := num)
                 (ObstacleManager.chosenIndex
                    (ObstacleManager.difficultyLevel m) d)) <> iceSpike ->
            snd (ObstacleManager.generateObstacle playerPosition d m) = None
            /\ ObstacleManager.activeObstacles
                 (fst (ObstacleManager.generateObstacle playerPosition d m))
               = ObstacleManager.activeObstacles m ++ [o]
            /\ ObstacleManager.objects
                 (fst (ObstacleManager.generateObstacle playerPosition d m))
                 !! o
               = Some (placed
                         (ObstacleManager.typeData_at
                            (ObstacleManager.chosenIndex
                               (ObstacleManager.difficultyLevel m) d))
                         (mul (sub (mul (ObstacleManager.xDraw d) (lit 2))
                                   (lit 1))
                              (ObstacleManager.obstacleSpread m))
                         (ObstacleManager.nextObstacleZ m))
            /\ ObstacleManager.nextObstacleZ
                 (fst (ObstacleManager.generateObstacle playerPosition d m))
               = sub (ObstacleManager.nextObstacleZ m)
                     (mul ObstacleManager.minDistanceBetweenObstacles
                          (add (lit 1)
                               (mul (ObstacleManager.gapDraw d) (lit 0.5)))))).
Proof.
  rewrite generateObstacle_unfold. split.
  - intros [-> | Hgap]; [reflexivity |].
    destruct (ltb (ObstacleManager.obstacleSpawnFrequency m) _);
      [reflexivity |].
    rewrite Hgap. reflexivity.
  - intros Hspawn Hgap. rewrite Hspawn, Hgap.
    match goal with
    | |- context [ObstacleManager.createObstacle ?td ?x ?z m] =>
        destruct (createObstacle_shape td x z m)
          as (o & ob1 & Hnew & Hsame & Hres & _ & Hact & _ & Hz & _);
        destruct (ObstacleManager.createObstacle td x z m) as [m1 [o' | e]]
    end; cbn [fst snd] in *; exists o.
    + destruct Hres as (-> & Hnot & ->).
      split; [intros Hspike; contradiction | intros _].
      cbn [ObstacleManager.activeObstacles ObstacleManager.objects
           ObstacleManager.nextObstacleZ ObstacleManager.set_nextObstacleZ
           ObstacleManager.set_activeObstacles].
      rewrite Hact, Hz. repeat split; try reflexivity. exact Hnew.
    + destruct Hres as (-> & Hspike & _).
      split; [intros _ | intros Hnot; contradiction].
      rewrite Hnew. simpl. rewrite Hsame. repeat split; assumption.
Qed.

End ManagerStructure.

Lemma obstacle_kind_never_changes_witness :
  ObstacleManager.objects (calls ManagerScene.run ObstacleManager.constructor)
    !! 0%nat
  = Some (mkObstacle tree (mkVec3 0 0 (-100)) 1.2 1 false
            (Some (mkVec3 0 0 (-100))))%float
  /\ exists ob',
       ObstacleManager.objects
         (call (CallReset (num := float))
            (calls ManagerScene.run ObstacleManager.constructor)) !! 0%nat
       = Some ob'
       /\ obstacleType ob' = tree.
Proof.
  assert (Hob : ObstacleManager.objects
                  (calls ManagerScene.run ObstacleManager.constructor)
                  !! 0%nat
                = Some (mkObstacle tree (mkVec3 0 0 (-100)) 1.2 1 false
                          (Some (mkVec3 0 0 (-100))))%float)
    by (vm_compute; reflexivity).
  split; [exact Hob |].
  exact (obstacle_kind_never_changes CallReset _ 0%nat _ Hob).
Defined.

(** *** Over exact arithmetic: multipliers, the number of obstacles, an
    obstacle spawned behind the player *)

Section ManagerExact.
Local Open Scope Q_scope.

Lemma activeRecords_objects (m : ObstacleManager.state Q) obstacle :
  obstacle ∈ activeRecords m ->
  exists o, ObstacleManager.objects m !! o = Some obstacle.
Proof.
  unfold activeRecords. intros Hin.
  apply list_elem_of_omap in Hin as (o & _ & Hob). exists o. exact Hob.
Qed.

(** X21: The obstacles that the collision check of [Game] meets have a damage
    multiplier between 0.8 and 1.5 and a collision radius between 1 and 2,
    after every run of the manager from its constructor. *)
Theorem active_obstacles_within_table (cs : list (ManagerCall Q)) :
  Forall (fun obstacle =>
            0.8 <= damageMultiplier obstacle <= 1.5
            /\ 1 <= collisionRadius obstacle <= 2)
         (activeRecords (calls cs ObstacleManager.constructor)).
Proof.
  assert (Hinv : table_inv (calls cs (ObstacleManager.constructor (num := Q)))).
  { apply table_inv_calls. intros o ob Hob. discriminate. }
  apply Forall_forall. intros obstacle Hin.
  destruct (activeRecords_objects _ _ Hin) as [o Hob].
  destruct (Hinv o obstacle Hob) as (-> & -> & _).
  destruct (obstacleType obstacle); vm_compute; repeat split; discriminate.
Qed.

Lemma filter_length_le (f : nat -> bool) (os : list nat) :
  (length (List.filter f os) <= length os)%nat.
Proof.
  induction os as [| o os IH]; simpl; [lia |].
  destruct (f o); simpl; lia.
Qed.

(** X22: An [update], whether it returns or throws, lets the number of
    active obstacles grow by at most one, and only while it is below
    [maxObstaclesOnScreen], which is [22 + 2 * floor(|z| / 500)] at the
    player's [z]. *)
Theorem active_count_bounded playerPosition d (m : ObstacleManager.state Q) :
  (Z.of_nat (length (ObstacleManager.activeObstacles
                       (fst (ObstacleManager.update playerPosition d m))))
   <= Z.max (Z.of_nat (length (ObstacleManager.activeObstacles m)))
            (22 + 2 * Qfloor (Qabs (vz playerPosition) / 500)))%Z.
Proof.
  unfold ObstacleManager.update. cbv zeta.
  destruct (removeDistantObstacles_shape playerPosition
              (ObstacleManager.updateDifficulty playerPosition m))
    as (Ha & _ & _ & Hmax).
  set (m1 := ObstacleManager.removeDistantObstacles playerPosition
               (ObstacleManager.updateDifficulty playerPosition m)) in *.
  assert (Hlen : (length (ObstacleManager.activeObstacles m1)
                  <= length (ObstacleManager.activeObstacles m))%nat).
  { rewrite Ha. apply filter_length_le. }
  match goal with
  | |- context [let '(_, _) := ?g in _] => set (g2 := g)
  end.
  assert (Hgen : (Z.of_nat (length (ObstacleManager.activeObstacles (fst g2)))
                  <= Z.max (Z.of_nat (length (ObstacleManager.activeObstacles m)))
                           (22 + 2 * Qfloor (Qabs (vz playerPosition) / 500)))%Z).
  { unfold g2. destruct (ltb _ _) eqn:Hroom; [| cbn [fst]; lia].
    apply ltb_exact in Hroom. rewrite Hmax in Hroom.
    cbn [ObstacleManager.maxObstaclesOnScreen ObstacleManager.updateDifficulty
         ObstacleManager.set_difficulty] in Hroom.
    unfold ObstacleManager.maxObstacles, ObstacleManager.level, ofZ in Hroom.
    cbn [lit add mul div jsabs jsfloor exact] in Hroom.
    set (F := Qfloor (Qabs (vz playerPosition) / 500)) in *.
    assert (Hq : 20 + (1 + inject_Z F) * 2 == inject_Z (22 + 2 * F)).
    { rewrite inject_Z_plus, inject_Z_mult. simpl (inject_Z 22).
      simpl (inject_Z 2). ring. }
    rewrite Hq in Hroom. rewrite <- Zlt_Qlt in Hroom.
    destruct (generateObstacle_cases playerPosition d m1)
      as [-> | (_ & _ & _ & ->)]; [cbn [fst]; lia |].
    match goal with
    | |- context [ObstacleManager.createObstacle ?td ?x ?z m1] =>
        destruct (createObstacle_shape td x z m1)
          as (o & ob1 & _ & _ & _ & _ & Hact & _);
        destruct (ObstacleManager.createObstacle td x z m1) as [m2 [o' | e]]
    end; cbn [fst snd] in *.
    - cbn [ObstacleManager.activeObstacles ObstacleManager.set_nextObstacleZ
           ObstacleManager.set_activeObstacles].
      rewrite length_app. simpl. lia.
    - rewrite Hact. lia. }
  destruct g2 as [m2 [e |]]; cbn [fst] in *; [exact Hgen |].
  unfold ObstacleManager.checkObstaclesPassed.
  destruct (checkObstaclesPassed_shape playerPosition
              (ObstacleManager.activeObstacles m2) m2) as (-> & _).
  exact Hgen.
Qed.

(** X24: The place of a new obstacle is never compared with the player's: when
    no obstacle is active and the player is more than 5 units past
    [nextObstacleZ] (and at least 20 away from it), an [update] whose spawn
    draw succeeds and whose type draws do not pick the ice spike puts the
    obstacle behind the player and counts it as avoided in the same call.
    If the draws pick the ice spike, the call throws a TypeError instead:
    nothing becomes active and nothing is counted. *)
Theorem spawned_behind_player_is_counted playerPosition d
    (m : ObstacleManager.state Q) :
  ObstacleManager.activeObstacles m = [] ->
  ObstacleManager.spawnDraw d
  <= ObstacleManager.spawnFrequency
       (ObstacleManager.level (Qabs (vz playerPosition))) ->
  20 <= Qabs (vz playerPosition - ObstacleManager.nextObstacleZ m) ->
  vz playerPosition + 5 < ObstacleManager.nextObstacleZ m ->
  (ObstacleManager.type
     (ObstacleManager.typeData_at (num := Q)
        (ObstacleManager.chosenIndex
           (ObstacleManager.level (Qabs (vz playerPosition))) d))
   <> iceSpike ->
   snd (ObstacleManager.update playerPosition d m) = None
   /\ ObstacleManager.getObstaclesAvoided
        (fst (ObstacleManager.update playerPosition d m))
      = (ObstacleManager.getObstaclesAvoided m + 1)%Z
   /\ exists o x kind radius multiplier,
        ObstacleManager.activeObstacles
          (fst (ObstacleManager.update playerPosition d m)) = [o]
        /\ ObstacleManager.objects
             (fst (ObstacleManager.update playerPosition d m)) !! o
           = Some (mkObstacle kind
                     (mkVec3 x 0 (ObstacleManager.nextObstacleZ m))
                     radius multiplier true
                     (Some (mkVec3 x 0 (ObstacleManager.nextObstacleZ m)))))
  /\ (ObstacleManager.type
        (ObstacleManager.typeData_at (num := Q)
           (ObstacleManager.chosenIndex
              (ObstacleManager.level (Qabs (vz playerPosition))) d))
      = iceSpike ->
      snd (ObstacleManager.update playerPosition d m) = Some TypeError
      /\ ObstacleManager.getObstaclesAvoided
           (fst (ObstacleManager.update playerPosition d m))
         = ObstacleManager.getObstaclesAvoided m
      /\ ObstacleManager.activeObstacles
           (fst (ObstacleManager.update playerPosition d m)) = []).
Proof.
  intros Hnone Hdraw Hgap Hbehind.
  unfold ObstacleManager.update, ObstacleManager.getObstaclesAvoided.
  cbv zeta.
  set (m0 := ObstacleManager.updateDifficulty playerPosition m).
  assert (Hrem : ObstacleManager.removeDistantObstacles playerPosition m0
                 = ObstacleManager.set_activeObstacles [] m0).
  { unfold ObstacleManager.removeDistantObstacles.
    change (ObstacleManager.activeObstacles m0)
      with (ObstacleManager.activeObstacles m).
    rewrite Hnone. reflexivity. }
  rewrite Hrem. set (m1 := ObstacleManager.set_activeObstacles [] m0).
  assert (Hroom : ltb (ofZ (Z.of_nat (length
                                        (ObstacleManager.activeObstacles m1))))
                      (ObstacleManager.maxObstaclesOnScreen m1) = true).
  { apply ltb_exact. unfold m1, m0.
    cbn [ObstacleManager.activeObstacles ObstacleManager.maxObstaclesOnScreen
         ObstacleManager.set_activeObstacles ObstacleManager.updateDifficulty
         ObstacleManager.set_difficulty length].
    unfold ObstacleManager.maxObstacles, ObstacleManager.level, ofZ.
    cbn [lit add mul div jsabs jsfloor exact].
    change (inject_Z (Z.of_nat 0)) with 0.
    assert (HF : (0 <= Qfloor (Qabs (vz playerPosition) / 500))%Z).
    { change 0%Z with (Qfloor 0). apply Qfloor_resp_le.
      unfold Qdiv. apply Qmult_le_0_compat; [apply Qabs_nonneg |].
      unfold Qle. simpl. lia. }
    rewrite Zle_Qle in HF. change (inject_Z 0) with 0 in HF. lra. }
  rewrite Hroom.
  assert (Hs : ltb (ObstacleManager.obstacleSpawnFrequency m1)
                   (ObstacleManager.spawnDraw d) = false).
  { apply not_true_is_false. intros Hlt.
    apply ltb_exact in Hlt.
    change (ObstacleManager.obstacleSpawnFrequency m1)
      with (ObstacleManager.spawnFrequency
              (ObstacleManager.level (Qabs (vz playerPosition)))) in Hlt.
    apply (Qlt_not_le _ _ Hlt Hdraw). }
  assert (Hg : ltb (jsabs (sub (vz playerPosition)
                               (ObstacleManager.nextObstacleZ m1)))
                   ObstacleManager.minDistanceBetweenObstacles = false).
  { apply not_true_is_false. intros Hlt.
    apply ltb_exact in Hlt.
    unfold ObstacleManager.minDistanceBetweenObstacles in Hlt.
    cbn [lit sub jsabs exact] in Hlt.
    change (ObstacleManager.nextObstacleZ m1)
      with (ObstacleManager.nextObstacleZ m) in Hlt. lra. }
  rewrite generateObstacle_unfold, Hs, Hg.
  change (ObstacleManager.difficultyLevel m1)
    with (ObstacleManager.level (Qabs (vz playerPosition))).
  match goal with
  | |- context [ObstacleManager.createObstacle ?td ?x ?z m1] =>
      destruct (createObstacle_shape td x z m1)
        as (o & ob1 & Hnew & _ & Hres & _ & Hact & _ & _ & Hav & _);
      set (td0 := td) in *; set (x0 := x) in *;
      destruct (ObstacleManager.createObstacle td0 x0 z m1) as [m2 [o' | e]]
  end; cbn [fst snd] in *.
  - destruct Hres as (-> & Hnot & ->).
    split; [intros _ | intros Hspike; contradiction].
    split; [reflexivity |].
    unfold ObstacleManager.checkObstaclesPassed.
    match goal with
    | |- context [fold_left _ (ObstacleManager.activeObstacles ?m) ?m] =>
        set (m3 := m)
    end.
    assert (Hact3 : ObstacleManager.activeObstacles m3 = [o])
      by (unfold m3; cbn; rewrite Hact; reflexivity).
    assert (Hobj : ObstacleManager.objects m3 !! o
                   = Some (placed td0 x0 (ObstacleManager.nextObstacleZ m)))
      by exact Hnew.
    assert (Hav3 : ObstacleManager.obstaclesAvoided m3
                   = ObstacleManager.obstaclesAvoided m) by exact Hav.
    clearbody m3. rewrite Hact3. cbn [fold_left].
    unfold ObstacleManager.checkPassed. rewrite Hobj.
    cbn [placed isAvoidedCounted obstaclePosition vz negb andb].
    assert (Hpassed : ltb (add (vz playerPosition) (lit 5))
                          (ObstacleManager.nextObstacleZ m) = true).
    { apply ltb_exact. cbn [lit add exact]. exact Hbehind. }
    rewrite Hpassed. cbv zeta. rewrite modify_alter.
    cbn [ObstacleManager.obstaclesAvoided ObstacleManager.set_objects
         ObstacleManager.set_obstaclesAvoided ObstacleManager.emit
         ObstacleManager.activeObstacles ObstacleManager.objects].
    rewrite Hav3, Hact3. split; [reflexivity |].
    exists o, x0. rewrite list_lookup_alter_eq, Hobj.
    eexists _, _, _. split; reflexivity.
  - destruct Hres as (-> & Hspike & _).
    split; [intros Hnot; contradiction | intros _].
    split; [reflexivity |]. split; [exact Hav |].
    rewrite Hact. reflexivity.
Qed.

End ManagerExact.

Lemma spawned_behind_player_is_counted_witness :
  ObstacleManager.activeObstacles (ObstacleManager.constructor (num := Q)) = []
  /\ (ObstacleManager.spawnDraw ManagerSceneExact.draws
      <= ObstacleManager.spawnFrequency
           (ObstacleManager.level
              (Qabs (vz ManagerSceneExact.downhill))))%Q
  /\ (20 <= Qabs (vz ManagerSceneExact.downhill
                  - ObstacleManager.nextObstacleZ
                      (ObstacleManager.constructor (num := Q))))%Q
  /\ (vz ManagerSceneExact.downhill + 5
      < ObstacleManager.nextObstacleZ (ObstacleManager.constructor (num := Q)))%Q
  /\ ObstacleManager.getObstaclesAvoided
       (fst (ObstacleManager.update ManagerSceneExact.downhill
               ManagerSceneExact.draws ObstacleManager.constructor))
     = 1%Z
  /\ snd (ObstacleManager.update ManagerSceneExact.downhill
            ManagerSceneExact.spikeDraws ObstacleManager.constructor)
     = Some TypeError.
Proof.
  assert (Hd : (ObstacleManager.spawnDraw ManagerSceneExact.draws
                <= ObstacleManager.spawnFrequency
                     (ObstacleManager.level
                        (Qabs (vz ManagerSceneExact.downhill))))%Q)
    by (vm_compute; discriminate).
  assert (Hg : (20 <= Qabs (vz ManagerSceneExact.downhill
                            - ObstacleManager.nextObstacleZ
                                (ObstacleManager.constructor (num := Q))))%Q)
    by (vm_compute; discriminate).
  assert (Hb : (vz ManagerSceneExact.downhill + 5
                < ObstacleManager.nextObstacleZ
                    (ObstacleManager.constructor (num := Q)))%Q)
    by (vm_compute; reflexivity).
  split; [reflexivity |]. split; [exact Hd |]. split; [exact Hg |].
  split; [exact Hb |]. split.
  - apply (proj1 (spawned_behind_player_is_counted ManagerSceneExact.downhill
                    ManagerSceneExact.draws ObstacleManager.constructor
                    eq_refl Hd Hg Hb)).
    vm_compute. discriminate.
  - apply (proj2 (spawned_behind_player_is_counted ManagerSceneExact.downhill
                    ManagerSceneExact.spikeDraws ObstacleManager.constructor
                    eq_refl Hd Hg Hb)).
    vm_compute. reflexivity.
Defined.

(** ** The terrain streamer: bodies and the scene log *)

Section StreamerLogs.
Context {num : Type} `{JsNumber num}.
Variable oracle : Z -> Terrain.ChunkDraws num.

Lemma addChunk_fields (i : Z) (t : Terrain.state) :
  exists material,
    Terrain.terrainChunks (Terrain.addChunk oracle i t)
    = Terrain.terrainChunks t ++ [Terrain.mkChunk i material]
    /\ Terrain.currentChunkIndex (Terrain.addChunk oracle i t)
       = Terrain.currentChunkIndex t
    /\ Terrain.terrainBodies (Terrain.addChunk oracle i t)
       = Terrain.terrainBodies t
           ++ (if Terrain.physicsBuilt (oracle i) then [i] else [])
    /\ sceneAdds (Terrain.effects (Terrain.addChunk oracle i t))
       = sceneAdds (Terrain.effects t) ++ [i]
    /\ sceneRemoves (Terrain.effects (Terrain.addChunk oracle i t))
       = sceneRemoves (Terrain.effects t).
Proof.
  unfold Terrain.addChunk, Terrain.generateChunk, Terrain.addTerrainPhysics.
  eexists.
  destruct (Terrain.physicsBuilt (oracle i));
    cbn [Terrain.terrainChunks Terrain.currentChunkIndex Terrain.terrainBodies
         Terrain.effects Terrain.emit];
    unfold sceneAdds, sceneRemoves; rewrite !omap_app; simpl;
    rewrite ?app_nil_r; repeat split; reflexivity.
Qed.

Lemma seqZ_snoc (m n : Z) :
  (0 <= n)%Z -> seqZ m (n + 1) = seqZ m n ++ [(m + n)%Z].
Proof. intros Hn. rewrite seqZ_app by lia. reflexivity. Qed.

Lemma generateNextChunk_scene (t : Terrain.state) :
  scene_inv t -> scene_inv (Terrain.generateNextChunk oracle t).
Proof.
  intros (Hwin & Hadds & Hrem & Hcur). unfold Terrain.generateNextChunk.
  destruct (addChunk_fields
              (Terrain.currentChunkIndex t
               + Z.of_nat (length (Terrain.terrainChunks t))) t)
    as (material & Hc & Hi & _ & Ha & Hr).
  unfold scene_inv, chunkIndices, chunkCount in *.
  rewrite Hc, Hi, Ha, Hr, map_app, length_app, Hwin, Hadds.
  simpl (map _ [_]). simpl (length [_]).
  rewrite Nat2Z.inj_add. simpl (Z.of_nat 1).
  rewrite seqZ_snoc by lia. rewrite Z.add_assoc, seqZ_snoc by lia.
  repeat split; try assumption; reflexivity.
Qed.

Lemma removeOldestChunk_scene (t : Terrain.state) :
  scene_inv t ->
  (0 < chunkCount t)%Z ->
  match Terrain.removeOldestChunk t with
  | Normal t' => scene_inv t'
  | Throw e => Terrain.terrainBodies t = []
  end.
Proof.
  intros (Hwin & Hadds & Hrem & Hcur) Hpos.
  unfold Terrain.removeOldestChunk, scene_inv, chunkIndices, chunkCount in *.
  destruct (Terrain.terrainChunks t) as [| c cs] eqn:Hchunks;
    [simpl in Hpos; lia |].
  cbn [Terrain.terrainBodies Terrain.emit].
  destruct (Terrain.terrainBodies t) as [| b bs]; [reflexivity |].
  destruct (contiguous_head c cs _ _ Hwin) as [Hc Hcs].
  cbn [Terrain.terrainChunks Terrain.currentChunkIndex Terrain.effects
       Terrain.emit].
  unfold sceneAdds, sceneRemoves in *. rewrite !omap_app. simpl.
  rewrite !app_nil_r, Hadds, Hrem, Hc, Hcs.
  rewrite seqZ_snoc by lia. rewrite Z.add_0_l.
  split; [reflexivity |]. split; [f_equal; simpl length; lia |].
  split; [reflexivity | lia].
Qed.

Lemma update_scene (playerPosition : Vec3 num) (t : Terrain.state) :
  scene_inv t ->
  match Terrain.update oracle playerPosition t with
  | Normal t' => scene_inv t'
  | Throw e => True
  end.
Proof.
  intros Hinv. unfold Terrain.update. cbv zeta.
  set (t1 := if leb _ _ then Terrain.generateNextChunk oracle t else t).
  assert (H1 : scene_inv t1).
  { unfold t1. destruct (leb _ _);
      [apply generateNextChunk_scene |]; exact Hinv. }
  clearbody t1.
  destruct (Z.gtb_spec (Z.of_nat (length (Terrain.terrainChunks t1)))
              Terrain.visibleChunks) as [Hgt | Hle]; [| exact H1].
  destruct (ltb _ _); [| exact H1]. cbn [andb].
  pose proof (removeOldestChunk_scene t1 H1) as Hrem.
  destruct (Terrain.removeOldestChunk t1); [| exact I].
  apply Hrem. unfold chunkCount, Terrain.visibleChunks in *. lia.
Qed.

Lemma constructor_scene : scene_inv (Terrain.constructor oracle).
Proof.
  unfold Terrain.constructor, Terrain.generateInitialChunks.
  change (seqZ 0 Terrain.visibleChunks) with [0; 1; 2; 3; 4]%Z.
  cbn [fold_left].
  repeat match goal with
  | |- context [Terrain.addChunk oracle ?i ?t] =>
      lazymatch t with
      | context [Terrain.addChunk] => fail
      | _ =>
          let material := fresh "material" in
          let t' := fresh "t" in
          destruct (addChunk_fields i t) as (material & ? & ? & _ & ? & ?);
          set (t' := Terrain.addChunk oracle i t) in *; clearbody t'
      end
  end.
  unfold scene_inv, chunkIndices, chunkCount.
  repeat match goal with
  | Heq : _ = _ |- _ => rewrite Heq; clear Heq
  end.
  simpl. repeat split; try reflexivity; lia.
Qed.

(** X25: While the streamer runs, every chunk index below the leading edge of
    the window has been added to the scene exactly once, in ascending
    order, and every index below the trailing edge has been removed exactly
    once: no chunk is generated twice, whatever the player's path. *)
Theorem chunks_generated_once (playerPositions : list (Vec3 num)) :
  match Terrain.updates oracle playerPositions (Terrain.constructor oracle)
  with
  | Normal t =>
      sceneAdds (Terrain.effects t)
      = seqZ 0 (Terrain.currentChunkIndex t + chunkCount t)
      /\ sceneRemoves (Terrain.effects t)
         = seqZ 0 (Terrain.currentChunkIndex t)
      /\ chunkIndices t = seqZ (Terrain.currentChunkIndex t) (chunkCount t)
  | Throw e => True
  end.
Proof.
  assert (Hrun : forall t, scene_inv t ->
             match Terrain.updates oracle playerPositions t with
             | Normal t' => scene_inv t'
             | Throw _ => True
             end).
  { induction playerPositions as [| playerPosition rest IH]; intros t Ht;
      simpl; [exact Ht |].
    pose proof (update_scene playerPosition t Ht) as Hstep.
    destruct (Terrain.update oracle playerPosition t); [| exact I].
    apply IH, Hstep. }
  specialize (Hrun _ constructor_scene).
  destruct (Terrain.updates oracle playerPositions (Terrain.constructor oracle));
    [| exact I].
  destruct Hrun as (Hwin & Hadds & Hrem & _). repeat split; assumption.
Qed.

Lemma update_bodies (playerPosition : Vec3 num) (t : Terrain.state) :
  (forall i, Terrain.physicsBuilt (oracle i) = true) ->
  Terrain.terrainBodies t = chunkIndices t ->
  exists t',
    Terrain.update oracle playerPosition t = Normal t'
    /\ Terrain.terrainBodies t' = chunkIndices t'.
Proof.
  intros Hbuilt Hstep. unfold Terrain.update. cbv zeta.
  set (t1 := if leb _ _ then Terrain.generateNextChunk oracle t else t).
  assert (H1 : Terrain.terrainBodies t1 = chunkIndices t1).
  { unfold t1. destruct (leb _ _); [| exact Hstep].
    unfold Terrain.generateNextChunk.
    destruct (addChunk_fields
                (Terrain.currentChunkIndex t
                 + Z.of_nat (length (Terrain.terrainChunks t))) t)
      as (material & Hc & _ & Hb & _).
    unfold chunkIndices in *. rewrite Hc, Hb, Hbuilt, map_app, Hstep.
    reflexivity. }
  clearbody t1.
  destruct (Z.gtb_spec (Z.of_nat (length (Terrain.terrainChunks t1)))
              Terrain.visibleChunks) as [Hgt | Hle];
    [| exists t1; split; [reflexivity | exact H1]].
  destruct (ltb _ _); [| exists t1; split; [reflexivity | exact H1]].
  cbn [andb]. unfold Terrain.removeOldestChunk, chunkIndices in *.
  destruct (Terrain.terrainChunks t1) as [| c cs];
    [unfold Terrain.visibleChunks in Hgt; simpl in Hgt; lia |].
  cbn [Terrain.terrainBodies Terrain.emit]. rewrite H1. simpl.
  eexists. split; reflexivity.
Qed.

Lemma constructor_bodies :
  (forall i, Terrain.physicsBuilt (oracle i) = true) ->
  Terrain.terrainBodies (Terrain.constructor oracle)
  = chunkIndices (Terrain.constructor oracle).
Proof.
  intros Hbuilt.
  unfold Terrain.constructor, Terrain.generateInitialChunks.
  change (seqZ 0 Terrain.visibleChunks) with [0; 1; 2; 3; 4]%Z.
  cbn [fold_left].
  repeat match goal with
  | |- context [Terrain.addChunk oracle ?i ?t] =>
      lazymatch t with
      | context [Terrain.addChunk] => fail
      | _ =>
          let material := fresh "material" in
          let t' := fresh "t" in
          destruct (addChunk_fields i t) as (material & ? & _ & ? & _);
          set (t' := Terrain.addChunk oracle i t) in *; clearbody t'
      end
  end.
  unfold chunkIndices.
  repeat match goal with
  | Heq : _ = _ |- _ => rewrite Heq; clear Heq
  end.
  rewrite !Hbuilt. reflexivity.
Qed.

(** X26: If the construction of every terrain body succeeds, no [update] of the
    streamer ever throws, and [terrainBodies] holds the body of exactly the
    chunks of the window, in the same order: [removeOldestChunk] always
    takes the body of the chunk it removes. *)
Theorem bodies_follow_chunks (playerPositions : list (Vec3 num)) :
  (forall i, Terrain.physicsBuilt (oracle i) = true) ->
  exists t,
    Terrain.updates oracle playerPositions (Terrain.constructor oracle)
    = Normal t
    /\ Terrain.terrainBodies t = chunkIndices t.
Proof.
  intros Hbuilt.
  assert (Hrun : forall t,
             Terrain.terrainBodies t = chunkIndices t ->
             exists t',
               Terrain.updates oracle playerPositions t = Normal t'
               /\ Terrain.terrainBodies t' = chunkIndices t').
  { induction playerPositions as [| playerPosition rest IH]; intros t Ht;
      simpl; [exists t; split; [reflexivity | exact Ht] |].
    destruct (update_bodies playerPosition t Hbuilt Ht) as (t' & -> & Ht').
    apply IH, Ht'. }
  apply Hrun, constructor_bodies, Hbuilt.
Qed.

End StreamerLogs.

Lemma bodies_follow_chunks_witness :
  (forall i, Terrain.physicsBuilt (TerrainSceneExact.allBuilt i) = true)
  /\ exists t,
       Terrain.updates TerrainSceneExact.allBuilt
         TerrainSceneExact.downTheSlope
         (Terrain.constructor TerrainSceneExact.allBuilt) = Normal t
       /\ Terrain.terrainBodies t = chunkIndices t.
Proof.
  split; [intros i; reflexivity |].
  exact (bodies_follow_chunks TerrainSceneExact.allBuilt
           TerrainSceneExact.downTheSlope (fun i => eq_refl)).
Defined.

(** ** The frame of the game *)

Ltac game_cbn :=
  cbn [negb andb nat_rect fst snd
       GameLoop.player GameLoop.terrain GameLoop.obstacles
       GameLoop.score GameLoop.scoreElement
       GameLoop.finalScoreElement GameLoop.isRunning
       GameLoop.isPaused GameLoop.lastTime
       GameLoop.set_player GameLoop.set_terrain
       GameLoop.set_obstacles GameLoop.set_score
       GameLoop.set_scoreElement GameLoop.set_finalScoreElement
       GameLoop.set_isRunning GameLoop.set_isPaused
       GameLoop.set_lastTime GameLoop.withObstacles
       GameLoop.onPlayerDied GameLoop.updateScoreDisplay].

Ltac game_fields Hd :=
  do 3 (rewrite ?Hd;
          unfold GameLoop.deliver;
          rewrite ?Nat.sub_diag;
          unfold Nat.iter;
          game_cbn).

Section GameFrame.
Context {num : Type} `{JsNumber num}.
Variable distanceTo : Vec3 num -> Vec3 num -> num.

Lemma deliver_signalled (before after : Player.state num)
    (g : GameLoop.state num) :
  signalled before after ->
  GameLoop.deliver before after g
  = if negb (Player.isDead before) && Player.isDead after
    then GameLoop.onPlayerDied g else g.
Proof.
  intros [Hcount _]. unfold GameLoop.deliver. rewrite Hcount.
  destruct (negb _ && _); simpl.
  - replace (died_signals (Player.effects before) + 1
             - died_signals (Player.effects before))%nat with 1%nat by lia.
    reflexivity.
  - replace (died_signals (Player.effects before) + 0
             - died_signals (Player.effects before))%nat with 0%nat by lia.
    reflexivity.
Qed.

(** X27: The score of a frame: while the player lives, [score] and the score
    element follow the avoided counter at the end of each frame that
    completes; in the frame in which the player dies the score is not
    updated, and the final score that [onPlayerDied] shows is the score of
    the frame before; for a dead player both stay as they are, whatever the
    obstacle manager goes on counting. *)
Theorem score_frozen_at_death deltaTime (i : GameLoop.Tick num)
    (g : GameLoop.state num) :
  (snd (GameLoop.updateGame distanceTo deltaTime i g) = None ->
   Player.isDead
     (GameLoop.player (fst (GameLoop.updateGame distanceTo deltaTime i g)))
   = false ->
   GameLoop.score (fst (GameLoop.updateGame distanceTo deltaTime i g))
   = ObstacleManager.getObstaclesAvoided
       (GameLoop.obstacles (fst (GameLoop.updateGame distanceTo deltaTime i g)))
   /\ GameLoop.scoreElement
        (fst (GameLoop.updateGame distanceTo deltaTime i g))
      = Some (GameLoop.score
                (fst (GameLoop.updateGame distanceTo deltaTime i g)))
   /\ GameLoop.finalScoreElement
        (fst (GameLoop.updateGame distanceTo deltaTime i g))
      = GameLoop.finalScoreElement g)
  /\ (Player.isDead (GameLoop.player g) = false ->
      Player.isDead
        (GameLoop.player (fst (GameLoop.updateGame distanceTo deltaTime i g)))
      = true ->
      GameLoop.score (fst (GameLoop.updateGame distanceTo deltaTime i g))
      = GameLoop.score g
      /\ GameLoop.finalScoreElement
           (fst (GameLoop.updateGame distanceTo deltaTime i g))
         = Some (GameLoop.score g))
  /\ (Player.isDead (GameLoop.player g) = true ->
      GameLoop.score (fst (GameLoop.updateGame distanceTo deltaTime i g))
      = GameLoop.score g
      /\ GameLoop.finalScoreElement
           (fst (GameLoop.updateGame distanceTo deltaTime i g))
         = GameLoop.finalScoreElement g).
Proof.
  unfold GameLoop.updateGame. cbv zeta.
  set (f := Player.mkFrame _ _ _ _).
  pose proof (frame_signalled f (GameLoop.player g)) as Hframe.
  rewrite (deliver_signalled _ _ _ Hframe).
  destruct Hframe as [_ Hstays].
  set (p := Player.frame f (GameLoop.player g)) in *. clearbody p.
  destruct (Player.isDead (GameLoop.player g)) eqn:Hd0;
    [pose proof (Hstays eq_refl) as Hd1 | destruct (Player.isDead p) eqn:Hd1];
    cbn [negb andb].
  - destruct (Terrain.update _ _ _); [destruct (ObstacleManager.update _ _ _)
                                         as [m [e |]] |];
      game_fields Hd1; repeat split; intros; try reflexivity; congruence.
  - destruct (Terrain.update _ _ _); [destruct (ObstacleManager.update _ _ _)
                                         as [m [e |]] |];
      game_fields Hd1; repeat split; intros; try reflexivity; congruence.
  - destruct (Terrain.update _ _ _) as [t | e];
      [| game_fields Hd1; repeat split; intros; congruence].
    destruct (ObstacleManager.update _ _ _) as [m [e |]];
      [game_fields Hd1; repeat split; intros; congruence |].
    match goal with
    | |- context [Game.checkObstacleCollisions distanceTo ?r ?obs p] =>
        pose proof (checkObstacleCollisions_signalled distanceTo r obs p)
          as Hhit;
        destruct (Game.checkObstacleCollisions distanceTo r obs p)
          as [p' | e]
    end; [| game_fields Hd1; repeat split; intros; congruence].
    rewrite (deliver_signalled _ _ _ Hhit). rewrite Hd1. cbn [negb andb].
    destruct (Player.isDead p') eqn:Hd2; game_fields Hd2;
      repeat split; intros; try reflexivity; congruence.
Qed.

Lemma collision_error r (obstacles : list (Obstacle num))
    (p : Player.state num) e :
  Game.checkObstacleCollisions distanceTo r obstacles p = Throw e ->
  e = TypeError.
Proof.
  revert p. induction obstacles as [| ob obs IH]; intros p; simpl;
    [discriminate |].
  unfold Player.checkObstacleCollision.
  destruct (obstacleBody ob); [| congruence].
  destruct (ltb _ _); [discriminate | apply IH].
Qed.

Lemma terrain_error (oracle : Z -> Terrain.ChunkDraws num) playerPosition
    (t : Terrain.state) e :
  Terrain.update oracle playerPosition t = Throw e -> e = TypeError.
Proof.
  unfold Terrain.update. cbv zeta.
  destruct (_ && _); [| discriminate].
  unfold Terrain.removeOldestChunk.
  match goal with
  | |- context [match Terrain.terrainBodies ?t with _ => _ end] =>
      destruct (Terrain.terrainBodies t)
  end; congruence.
Qed.

Lemma recycleObstacle_difficulty o (m : ObstacleManager.state num) :
  ObstacleManager.difficultyLevel (ObstacleManager.recycleObstacle o m)
  = ObstacleManager.difficultyLevel m.
Proof.
  unfold ObstacleManager.recycleObstacle. cbv zeta.
  cbn [ObstacleManager.objects ObstacleManager.emit].
  destruct (ObstacleManager.objects m !! o) as [ob |]; [| reflexivity].
  destruct (obstacleBody ob); [| reflexivity].
  rewrite modify_alter. reflexivity.
Qed.

Lemma filterDistant_difficulty playerPosition os
    (m : ObstacleManager.state num) :
  ObstacleManager.difficultyLevel
    (snd (ObstacleManager.filterDistant playerPosition os m))
  = ObstacleManager.difficultyLevel m.
Proof.
  revert m. induction os as [| o os IH]; intros m; [reflexivity |].
  cbn [ObstacleManager.filterDistant]. cbv zeta.
  match goal with |- context [if ?c then _ else _] => destruct c end.
  - rewrite IH. apply recycleObstacle_difficulty.
  - specialize (IH m).
    destruct (ObstacleManager.filterDistant playerPosition os m). exact IH.
Qed.

(** An [update] throws only when its draws pick the ice spike. *)
Lemma update_error playerPosition d (m : ObstacleManager.state num) e :
  snd (ObstacleManager.update playerPosition d m) = Some e ->
  e = TypeError /\ pickedType playerPosition d = iceSpike.
Proof.
  unfold ObstacleManager.update. cbv zeta.
  set (m1 := ObstacleManager.removeDistantObstacles playerPosition
               (ObstacleManager.updateDifficulty playerPosition m)).
  assert (Hlevel : ObstacleManager.difficultyLevel m1
                   = ObstacleManager.level (jsabs (vz playerPosition))).
  { unfold m1, ObstacleManager.removeDistantObstacles.
    pose proof (filterDistant_difficulty playerPosition
                  (ObstacleManager.activeObstacles
                     (ObstacleManager.updateDifficulty playerPosition m))
                  (ObstacleManager.updateDifficulty playerPosition m)) as Hd.
    destruct (ObstacleManager.filterDistant _ _ _) as [kept m'].
    cbn [snd] in Hd. cbn [ObstacleManager.difficultyLevel
                          ObstacleManager.set_activeObstacles].
    rewrite Hd. reflexivity. }
  match goal with
  | |- context [let '(_, _) := ?g in _] => set (g2 := g)
  end.
  assert (Hgen : snd g2 = Some e ->
                 e = TypeError /\ pickedType playerPosition d = iceSpike).
  { unfold g2. destruct (ltb _ _); [| discriminate].
    destruct (generateObstacle_cases playerPosition d m1)
      as [-> | (_ & _ & _ & ->)]; [discriminate |].
    rewrite Hlevel.
    match goal with
    | |- context [ObstacleManager.createObstacle ?td ?x ?z m1] =>
        destruct (createObstacle_shape td x z m1)
          as (o & ob1 & _ & _ & Hres & _);
        destruct (ObstacleManager.createObstacle td x z m1) as [m2 [o' | e']]
    end; cbn [fst snd] in *; [discriminate |].
    destruct Hres as (-> & Hspike & _). intros [= <-].
    split; [reflexivity | exact Hspike]. }
  destruct g2 as [m2 [e' |]]; cbn [snd] in *; [exact Hgen | discriminate].
Qed.

Lemma updateGame_shape deltaTime (i : GameLoop.Tick num)
    (g : GameLoop.state num) :
  exists p,
    position (Player.body p) = position (GameLoop.stepped i)
    /\ (GameLoop.isRunning (fst (GameLoop.updateGame distanceTo deltaTime i g))
        = GameLoop.isRunning g
        /\ GameLoop.isPaused (fst (GameLoop.updateGame distanceTo deltaTime i g))
           = GameLoop.isPaused g)
    /\ ((snd (GameLoop.updateGame distanceTo deltaTime i g) <> None
         /\ Terrain.update (fun _ => GameLoop.chunkDraws i)
              (position (Player.body p)) (GameLoop.terrain g)
            = Throw TypeError
         /\ GameLoop.terrain (fst (GameLoop.updateGame distanceTo deltaTime i g))
            = GameLoop.terrain g
         /\ GameLoop.obstacles
              (fst (GameLoop.updateGame distanceTo deltaTime i g))
            = GameLoop.obstacles g
         /\ GameLoop.score (fst (GameLoop.updateGame distanceTo deltaTime i g))
            = GameLoop.score g)
        \/ (Terrain.update (fun _ => GameLoop.chunkDraws i)
              (position (Player.body p)) (GameLoop.terrain g)
            = Normal
                (GameLoop.terrain
                   (fst (GameLoop.updateGame distanceTo deltaTime i g)))
            /\ GameLoop.obstacles
                 (fst (GameLoop.updateGame distanceTo deltaTime i g))
               = fst (ObstacleManager.update (position (Player.body p))
                        (GameLoop.obstacleDraws i) (GameLoop.obstacles g))
            /\ (GameLoop.score
                  (fst (GameLoop.updateGame distanceTo deltaTime i g))
                = GameLoop.score g
                \/ GameLoop.score
                     (fst (GameLoop.updateGame distanceTo deltaTime i g))
                   = ObstacleManager.getObstaclesAvoided
                       (GameLoop.obstacles
                          (fst (GameLoop.updateGame distanceTo deltaTime i g))))
            /\ match
                 snd (ObstacleManager.update (position (Player.body p))
                        (GameLoop.obstacleDraws i) (GameLoop.obstacles g))
               with
               | Some e =>
                   snd (GameLoop.updateGame distanceTo deltaTime i g) = Some e
                   /\ GameLoop.score
                        (fst (GameLoop.updateGame distanceTo deltaTime i g))
                      = GameLoop.score g
               | None =>
                   snd (GameLoop.updateGame distanceTo deltaTime i g) = None
                   \/ exists r p0,
                        Game.checkObstacleCollisions distanceTo r
                          (activeRecords
                             (fst (ObstacleManager.update
                                     (position (Player.body p))
                                     (GameLoop.obstacleDraws i)
                                     (GameLoop.obstacles g))))
                          p0
                        = Throw TypeError
               end)).
Proof.
  unfold GameLoop.updateGame. cbv zeta.
  set (f := Player.mkFrame _ _ _ _).
  pose proof (frame_signalled f (GameLoop.player g)) as Hframe.
  pose proof (frame_position f (GameLoop.player g)) as Hpos.
  rewrite (deliver_signalled _ _ _ Hframe).
  set (p := Player.frame f (GameLoop.player g)) in *. clearbody p.
  exists p. split; [exact Hpos |].
  assert (Hg1 : forall b : bool,
             GameLoop.terrain
               (if b then GameLoop.onPlayerDied (GameLoop.set_player p g)
                else GameLoop.set_player p g) = GameLoop.terrain g
             /\ GameLoop.obstacles
                  (if b then GameLoop.onPlayerDied (GameLoop.set_player p g)
                   else GameLoop.set_player p g) = GameLoop.obstacles g
             /\ GameLoop.score
                  (if b then GameLoop.onPlayerDied (GameLoop.set_player p g)
                   else GameLoop.set_player p g) = GameLoop.score g
             /\ GameLoop.isRunning
                  (if b then GameLoop.onPlayerDied (GameLoop.set_player p g)
                   else GameLoop.set_player p g) = GameLoop.isRunning g
             /\ GameLoop.isPaused
                  (if b then GameLoop.onPlayerDied (GameLoop.set_player p g)
                   else GameLoop.set_player p g) = GameLoop.isPaused g)
    by (intros []; repeat split; reflexivity).
  match goal with
  | |- context [if ?b then GameLoop.onPlayerDied _ else _] =>
      destruct (Hg1 b) as (Ht1 & Ho1 & Hs1 & Hr1 & Hp1);
      set (g1 := if b then GameLoop.onPlayerDied (GameLoop.set_player p g)
                 else GameLoop.set_player p g) in *
  end.
  clearbody g1. rewrite Ht1.
  destruct (Terrain.update _ _ (GameLoop.terrain g)) as [t | e] eqn:Hterrain.
  - cbn [GameLoop.obstacles GameLoop.set_terrain]. rewrite Ho1.
    destruct (ObstacleManager.update _ _ (GameLoop.obstacles g))
      as [m [e |]].
    { game_cbn. split; [split; assumption |]. right.
      split; [reflexivity |]. split; [reflexivity |].
      split; [left; exact Hs1 | split; [reflexivity | exact Hs1]]. }
    cbn [fst snd].
    destruct (Player.isDead p) eqn:Hd1; cbn [negb].
    + game_fields Hd1. split; [split; assumption |]. right.
      split; [reflexivity |]. split; [reflexivity |].
      split; left; [exact Hs1 | reflexivity].
    + match goal with
      | |- context [Game.checkObstacleCollisions distanceTo ?r ?obs p] =>
          pose proof (checkObstacleCollisions_signalled distanceTo r obs p)
            as Hhit;
          destruct (Game.checkObstacleCollisions distanceTo r obs p)
            as [p' | e] eqn:Hcheck
      end.
      * rewrite (deliver_signalled _ _ _ Hhit). rewrite Hd1. cbn [negb andb].
        destruct (Player.isDead p') eqn:Hd2; game_fields Hd2;
          (split; [split; assumption |]); right;
          (split; [reflexivity |]); (split; [reflexivity |]);
          split; try (left; reflexivity); try (left; exact Hs1).
        right. reflexivity.
      * game_fields Hd1. split; [split; assumption |]. right.
        split; [reflexivity |]. split; [reflexivity |].
        split; [left; exact Hs1 |]. right.
        rewrite (collision_error _ _ _ _ Hcheck) in Hcheck.
        eexists _, _. exact Hcheck.
  - cbn [fst snd]. split; [split; assumption |]. left.
    rewrite (terrain_error _ _ _ _ Hterrain).
    repeat split; try assumption. discriminate.
Qed.

Lemma updateGame_score deltaTime (i : GameLoop.Tick num)
    (g : GameLoop.state num) :
  (GameLoop.score g
   <= ObstacleManager.getObstaclesAvoided (GameLoop.obstacles g))%Z ->
  (GameLoop.score (fst (GameLoop.updateGame distanceTo deltaTime i g))
   <= ObstacleManager.getObstaclesAvoided
        (GameLoop.obstacles
           (fst (GameLoop.updateGame distanceTo deltaTime i g))))%Z.
Proof.
  intros Hle.
  destruct (updateGame_shape deltaTime i g)
    as (p & _ & _ & [(_ & _ & _ & -> & ->) | (_ & Hobs & Hscore & _)]);
    [exact Hle |].
  destruct Hscore as [-> | ->]; [| lia].
  rewrite Hobs. unfold ObstacleManager.getObstaclesAvoided in *.
  pose proof (proj1 (update_spec (position (Player.body p))
                       (GameLoop.obstacleDraws i) (GameLoop.obstacles g))).
  lia.
Qed.

Lemma animate_score (i : GameLoop.Tick num) (g : GameLoop.state num) :
  (GameLoop.score g
   <= ObstacleManager.getObstaclesAvoided (GameLoop.obstacles g))%Z ->
  (GameLoop.score (GameLoop.animate distanceTo i g)
   <= ObstacleManager.getObstaclesAvoided
        (GameLoop.obstacles (GameLoop.animate distanceTo i g)))%Z.
Proof.
  intros Hle. unfold GameLoop.animate.
  destruct (negb _); [exact Hle |]. destruct (GameLoop.isPaused g);
    [exact Hle |].
  cbv zeta.
  match goal with
  | |- context [GameLoop.updateGame distanceTo ?dt i ?g0] =>
      pose proof (updateGame_score dt i g0 Hle) as Hstep;
      destruct (GameLoop.updateGame distanceTo dt i g0) as [g' [e |]]
  end; exact Hstep.
Qed.

(** X28: The score never runs ahead of the avoided counter, through every game:
    [resetGame] sets both to 0, a frame copies the counter into the score
    while the player lives and leaves the score alone once the player is
    dead, and the counter never decreases. *)
Theorem score_never_ahead (initialDraws : Z -> Terrain.ChunkDraws num)
    (events : list (GameLoop.Event num)) :
  (GameLoop.score
     (GameLoop.run distanceTo events (GameLoop.init initialDraws))
   <= ObstacleManager.getObstaclesAvoided
        (GameLoop.obstacles
           (GameLoop.run distanceTo events (GameLoop.init initialDraws))))%Z.
Proof.
  assert (Hrun : forall g,
             (GameLoop.score g
              <= ObstacleManager.getObstaclesAvoided (GameLoop.obstacles g))%Z ->
             (GameLoop.score (GameLoop.run distanceTo events g)
              <= ObstacleManager.getObstaclesAvoided
                   (GameLoop.obstacles (GameLoop.run distanceTo events g)))%Z).
  { induction events as [| e rest IH]; intros g Hle; [exact Hle |].
    apply IH. destruct e as [draws0 i | i | code | code |]; simpl.
    - unfold GameLoop.startGame. cbv zeta. apply animate_score.
      unfold ObstacleManager.getObstaclesAvoided. simpl. lia.
    - apply animate_score, Hle.
    - exact Hle.
    - exact Hle.
    - unfold GameLoop.togglePause. destruct (negb _); exact Hle. }
  apply Hrun. simpl. unfold ObstacleManager.getObstaclesAvoided. simpl. lia.
Qed.

Lemma updateGame_never_throws deltaTime (i : GameLoop.Tick num)
    (g : GameLoop.state num) :
  Terrain.physicsBuilt (GameLoop.chunkDraws i) = true ->
  pickedType (position (GameLoop.stepped i)) (GameLoop.obstacleDraws i)
  <> iceSpike ->
  loop_inv g ->
  snd (GameLoop.updateGame distanceTo deltaTime i g) = None
  /\ loop_inv (fst (GameLoop.updateGame distanceTo deltaTime i g))
  /\ GameLoop.isRunning (fst (GameLoop.updateGame distanceTo deltaTime i g))
     = GameLoop.isRunning g.
Proof.
  intros Hbuilt Hpick [Hbodies Hpool].
  destruct (updateGame_shape deltaTime i g) as (p & Hpos & [Hrun _] & Hcases).
  destruct (update_bodies (fun _ => GameLoop.chunkDraws i)
              (position (Player.body p)) (GameLoop.terrain g)
              (fun _ => Hbuilt) Hbodies) as (t' & Hupdate & Hbodies').
  destruct Hcases as [(_ & Hthrow & _) | (Hterrain & Hobs & _ & Herr)];
    [congruence |].
  rewrite Hupdate in Hterrain. injection Hterrain as Hterrain.
  assert (Hpool' : pool_inv
                     (fst (ObstacleManager.update (position (Player.body p))
                             (GameLoop.obstacleDraws i) (GameLoop.obstacles g))))
    by (apply pool_inv_update, Hpool).
  split; [| split; [| exact Hrun]].
  - destruct (snd (ObstacleManager.update _ _ _)) as [e |] eqn:He.
    { exfalso. apply update_error in He as [_ Hspike].
      rewrite Hpos in Hspike. contradiction. }
    destruct Herr as [Hnone | (r & p0 & Hthrow)]; [exact Hnone |].
    exfalso. destruct (activeRecords_bodies _ Hpool') as [_ Hall].
      assert (Hsome : Forall (fun ob : Obstacle num => is_Some (obstacleBody ob))
                        (activeRecords
                           (fst (ObstacleManager.update
                                   (position (Player.body p))
                                   (GameLoop.obstacleDraws i)
                                   (GameLoop.obstacles g))))).
      { eapply Forall_impl; [exact Hall |].
        intros ob Hb. simpl in Hb. rewrite Hb. eexists. reflexivity. }
      destruct (checkObstacleCollisions_with_bodies distanceTo r _ p0 Hsome)
        as [p' Hok].
      congruence.
  - split; [rewrite <- Hterrain; exact Hbodies' | rewrite Hobs; exact Hpool'].
Qed.

Lemma animate_never_stops (i : GameLoop.Tick num) (g : GameLoop.state num) :
  Terrain.physicsBuilt (GameLoop.chunkDraws i) = true ->
  pickedType (position (GameLoop.stepped i)) (GameLoop.obstacleDraws i)
  <> iceSpike ->
  loop_inv g ->
  loop_inv (GameLoop.animate distanceTo i g)
  /\ GameLoop.isRunning (GameLoop.animate distanceTo i g)
     = GameLoop.isRunning g.
Proof.
  intros Hbuilt Hpick Hinv. unfold GameLoop.animate.
  destruct (negb _); [split; [exact Hinv | reflexivity] |].
  destruct (GameLoop.isPaused g); [split; [exact Hinv | reflexivity] |].
  cbv zeta.
  match goal with
  | |- context [GameLoop.updateGame distanceTo ?dt i ?g0] =>
      destruct (updateGame_never_throws dt i g0 Hbuilt Hpick Hinv)
        as (Hnone & Hinv' & Hrun);
      destruct (GameLoop.updateGame distanceTo dt i g0) as [g' [e |]]
  end; [discriminate |].
  split; [exact Hinv' | exact Hrun].
Qed.

(** X29: If the construction of every terrain body succeeds and the draws of
    no frame pick the ice spike, no frame of the game ever throws: the
    loop, once started, is never stopped by the [catch] of [animate], the
    terrain bodies stay those of the chunks of the window, and the
    obstacles of the collision check all have a body. *)
Theorem game_loop_never_throws (initialDraws : Z -> Terrain.ChunkDraws num)
    (events : list (GameLoop.Event num)) :
  (forall chunkIndex, Terrain.physicsBuilt (initialDraws chunkIndex) = true) ->
  Forall built_event events ->
  Forall spikeless_event events ->
  GameLoop.isRunning
    (GameLoop.run distanceTo events (GameLoop.init initialDraws))
  = existsb is_start events
  /\ Terrain.terrainBodies
       (GameLoop.terrain
          (GameLoop.run distanceTo events (GameLoop.init initialDraws)))
     = chunkIndices
         (GameLoop.terrain
            (GameLoop.run distanceTo events (GameLoop.init initialDraws)))
  /\ Forall (fun obstacle => is_Some (obstacleBody obstacle))
            (activeRecords
               (GameLoop.obstacles
                  (GameLoop.run distanceTo events
                     (GameLoop.init initialDraws)))).
Proof.
  intros Hbuilt0 Hbuilt Hspikeless.
  assert (Hrun : forall g,
             loop_inv g ->
             loop_inv (GameLoop.run distanceTo events g)
             /\ GameLoop.isRunning (GameLoop.run distanceTo events g)
                = GameLoop.isRunning g || existsb is_start events).
  { induction Hbuilt as [| e rest He _ IH]; intros g Hinv.
    - split; [exact Hinv |]. simpl. rewrite orb_false_r. reflexivity.
    - apply Forall_cons in Hspikeless as [Hs Hspikeless].
      specialize (IH Hspikeless).
      change (GameLoop.run distanceTo (e :: rest) g)
        with (GameLoop.run distanceTo rest (GameLoop.handle distanceTo e g)).
      assert (Hstep : loop_inv (GameLoop.handle distanceTo e g)
                      /\ GameLoop.isRunning (GameLoop.handle distanceTo e g)
                         = GameLoop.isRunning g || is_start e).
      { destruct e as [draws0 i | i | code | code |]; simpl in *.
        - destruct He as [Hd0 Hi]. unfold GameLoop.startGame. cbv zeta.
          match goal with
          | |- context [GameLoop.animate distanceTo i ?g0] =>
              destruct (animate_never_stops i g0 Hi Hs) as [Hinv' ->]
          end.
          + destruct Hinv as [_ Hpool]. split.
            * apply constructor_bodies, Hd0.
            * apply pool_inv_reset, Hpool.
          + split; [exact Hinv' |]. simpl. rewrite orb_true_r. reflexivity.
        - destruct (animate_never_stops i g He Hs Hinv) as [Hinv' ->].
          split; [exact Hinv' |]. rewrite orb_false_r. reflexivity.
        - split; [exact Hinv |]. rewrite orb_false_r. reflexivity.
        - split; [exact Hinv |]. rewrite orb_false_r. reflexivity.
        - unfold GameLoop.togglePause.
          destruct (negb _); (split; [exact Hinv |]);
            rewrite orb_false_r; reflexivity. }
      destruct Hstep as [Hinv' Hr]. destruct (IH _ Hinv') as [Hinv'' ->].
      split; [exact Hinv'' |]. rewrite Hr. simpl.
      rewrite orb_assoc. reflexivity. }
  destruct (Hrun (GameLoop.init initialDraws)) as [[Hbodies Hpool] Hr].
  { split; [apply constructor_bodies, Hbuilt0 | apply pool_inv_constructor]. }
  split; [exact Hr |]. split; [exact Hbodies |].
  destruct (activeRecords_bodies _ Hpool) as [_ Hall].
  eapply Forall_impl; [exact Hall |].
  intros ob Hb. simpl in Hb. rewrite Hb. eexists. reflexivity.
Qed.

(** X30: A frame whose obstacle update throws ends the game loop: the
    [catch] of [animate] clears [isRunning], and no later frame runs until
    the game is started again.  The update throws only for draws that pick
    the ice spike, and then with a TypeError; the score and the final
    score are left as they were unless the player died in this frame. *)
Theorem ice_spike_stops_game (i : GameLoop.Tick num)
    (g : GameLoop.state num) e :
  GameLoop.isRunning g = true ->
  GameLoop.isPaused g = false ->
  snd (ObstacleManager.update (position (GameLoop.stepped i))
         (GameLoop.obstacleDraws i) (GameLoop.obstacles g)) = Some e ->
  e = TypeError
  /\ pickedType (position (GameLoop.stepped i)) (GameLoop.obstacleDraws i)
     = iceSpike
  /\ GameLoop.isRunning (GameLoop.animate distanceTo i g) = false
  /\ GameLoop.score (GameLoop.animate distanceTo i g) = GameLoop.score g
  /\ forall i', GameLoop.animate distanceTo i'
                  (GameLoop.animate distanceTo i g)
                = GameLoop.animate distanceTo i g.
Proof.
  intros Hrun Hpause Hthrow.
  destruct (update_error _ _ _ _ Hthrow) as [-> Hspike].
  split; [reflexivity |]. split; [exact Hspike |].
  assert (Hstop : GameLoop.isRunning (GameLoop.animate distanceTo i g) = false
                  /\ GameLoop.score (GameLoop.animate distanceTo i g)
                     = GameLoop.score g).
  { unfold GameLoop.animate. rewrite Hrun, Hpause. cbn [negb]. cbv zeta.
    match goal with
    | |- context [GameLoop.updateGame distanceTo ?dt i ?g0] =>
        destruct (updateGame_shape dt i g0)
          as (p & Hpos & _ & Hcases);
        destruct (GameLoop.updateGame distanceTo dt i g0) as [g' [e' |]]
    end; cbn [fst snd] in *.
    - split; [reflexivity |].
      destruct Hcases as [(_ & _ & _ & _ & Hs) | (_ & _ & _ & Herr)];
        [exact Hs |].
      rewrite Hpos in Herr.
      cbn [GameLoop.obstacles GameLoop.set_lastTime] in Herr.
      rewrite Hthrow in Herr. apply Herr.
    - exfalso.
      destruct Hcases as [(Hne & _) | (_ & _ & _ & Herr)];
        [apply Hne; reflexivity |].
      rewrite Hpos in Herr.
      cbn [GameLoop.obstacles GameLoop.set_lastTime] in Herr.
      rewrite Hthrow in Herr. destruct Herr. discriminate. }
  destruct Hstop as [Hstop Hscore]. split; [exact Hstop |].
  split; [exact Hscore |].
  intros i'. unfold GameLoop.animate at 1. rewrite Hstop. reflexivity.
Qed.

End GameFrame.

Lemma score_frozen_at_death_witness :
  Player.isDead (GameLoop.player GameScene.beforeFall) = false
  /\ Player.isDead
       (GameLoop.player
          (fst (GameLoop.updateGame Scene.apart 0.016%float GameScene.fatal
                  GameScene.beforeFall))) = true
  /\ GameLoop.finalScoreElement
       (fst (GameLoop.updateGame Scene.apart 0.016%float GameScene.fatal
               GameScene.beforeFall))
     = Some (GameLoop.score GameScene.beforeFall)
  /\ GameLoop.score GameScene.beforeFall = 0%Z
  /\ ObstacleManager.getObstaclesAvoided
       (GameLoop.obstacles
          (fst (GameLoop.updateGame Scene.apart 0.016%float GameScene.fatal
                  GameScene.beforeFall))) = 1%Z.
Proof.
  assert (Halive : Player.isDead (GameLoop.player GameScene.beforeFall)
                   = false) by (vm_compute; reflexivity).
  assert (Hdead : Player.isDead
                    (GameLoop.player
                       (fst (GameLoop.updateGame Scene.apart 0.016%float
                               GameScene.fatal GameScene.beforeFall)))
                  = true) by (vm_compute; reflexivity).
  split; [exact Halive |]. split; [exact Hdead |].
  split; [| split; vm_compute; reflexivity].
  exact (proj2 (proj1 (proj2 (score_frozen_at_death Scene.apart 0.016%float
                                GameScene.fatal GameScene.beforeFall))
                  Halive Hdead)).
Defined.

Lemma game_loop_never_throws_witness :
  (forall chunkIndex,
     Terrain.physicsBuilt (Sample.allBuilt chunkIndex) = true)
  /\ Forall built_event GameScene.game
  /\ Forall spikeless_event GameScene.game
  /\ GameLoop.isRunning
       (GameLoop.run Scene.apart GameScene.game
          (GameLoop.init Sample.allBuilt))
     = true.
Proof.
  assert (Hb : Forall built_event GameScene.game).
  { repeat constructor; intros; reflexivity. }
  assert (Hs : Forall spikeless_event GameScene.game).
  { repeat constructor; vm_compute; discriminate. }
  split; [intros chunkIndex; reflexivity |]. split; [exact Hb |].
  split; [exact Hs |].
  exact (proj1 (game_loop_never_throws Scene.apart Sample.allBuilt
                  GameScene.game (fun _ => eq_refl) Hb Hs)).
Defined.

Lemma ice_spike_stops_game_witness :
  GameLoop.isRunning GameScene.beforeFall = true
  /\ GameLoop.isPaused GameScene.beforeFall = false
  /\ snd (ObstacleManager.update
            (position (GameLoop.stepped GameScene.spike))
            (GameLoop.obstacleDraws GameScene.spike)
            (GameLoop.obstacles GameScene.beforeFall))
     = Some TypeError
  /\ GameLoop.isRunning
       (GameLoop.animate Scene.apart GameScene.spike GameScene.beforeFall)
     = false.
Proof.
  assert (Hthrow : snd (ObstacleManager.update
                          (position (GameLoop.stepped GameScene.spike))
                          (GameLoop.obstacleDraws GameScene.spike)
                          (GameLoop.obstacles GameScene.beforeFall))
                   = Some TypeError) by (vm_compute; reflexivity).
  split; [reflexivity |]. split; [reflexivity |]. split; [exact Hthrow |].
  exact (proj1 (proj2 (proj2 (ice_spike_stops_game Scene.apart GameScene.spike
                                GameScene.beforeFall TypeError eq_refl eq_refl
                                Hthrow)))).
Defined.
